(** * Ronin: configuration contexts and the Ninja file generator

    A shallow embedding of [ronin/contexts.py], [ronin/ninja.py],
    [ronin/projects.py] and [ronin/pkg_config/__init__.py] and the
    properties of the context chain, the phase walk, the line writer and
    the flags of a package. *)

From stdpp Require Import gmap strings list fin_maps functions sorting pretty.
From Stdlib Require Import ZArith Lia Ascii String.

Set Warnings "-register-all".

Local Open Scope string_scope.
Local Open Scope list_scope.
Local Open Scope Z_scope.

(** ** Python values, exceptions and outcomes *)

(** The values a namespace attribute holds in this development.  [VOwner] is
    the back reference a namespace keeps in its [_context] slot; [VResults]
    is the dictionary of phase results an orchestrating caller stores under
    [build._phase_results]. *)
Inductive Value :=
| VNone
| VBool (b : bool)
| VInt (z : Z)
| VStr (s : string)
| VOwner
| VResults.

#[global] Instance Value_eq_dec : EqDecision Value.
Proof. solve_decision. Defined.

(** Python truth value of a [Value]. *)
Definition truthy (v : Value) : bool :=
  match v with
  | VNone => false
  | VBool b => b
  | VInt z => negb (z =? 0)
  | VStr s => negb (String.eqb s "")
  | VOwner => true
  | VResults => true
  end.

(** [str(v)], as used by ['%s' % v]; the text of an object reference is
    not modelled. *)
Definition str_of_Value (v : Value) : option string :=
  match v with
  | VNone => Some "None"
  | VBool true => Some "True"
  | VBool false => Some "False"
  | VInt z => Some (pretty z)
  | VStr s => Some s
  | VOwner | VResults => None
  end.

Inductive exn :=
| NoContextException
| NotInContextException (name : string)
| ImmutableContextException
| IncorrectUseOfContextException
| RuntimeError
| ValueError
| TypeError
| UnboundLocalError
| KeyError
| IndexError
| AttributeError (msg : string).

#[global] Instance exn_eq_dec : EqDecision exn.
Proof. solve_decision. Defined.

(** The outcome of a call: a value, a raised exception, [Beyond] when the
    call leaves the fragment of Python modelled here (an attribute that
    Python finds on the class or on [object], a value of a foreign type), or
    [Fuel] when a recursive walk or a loop did not finish within its fuel. *)
Inductive res (A : Type) :=
| Ok (a : A)
| Raise (e : exn)
| Beyond
| Fuel.
Arguments Ok {A} a.
Arguments Raise {A} e.
Arguments Beyond {A}.
Arguments Fuel {A}.

#[global] Instance res_ret : MRet res := fun A a => Ok a.
#[global] Instance res_bind : MBind res := fun A B k r =>
  match r with
  | Ok a => k a
  | Raise e => Raise e
  | Beyond => Beyond
  | Fuel => Fuel
  end.

(** ** contexts.py *)

Module Contexts.

(** [vars(self)] of a [_Namespace]: the instance dictionary, which holds the
    two slots [_name] and [_context] set by [__init__] next to the keys. *)
Abbreviation Namespace := (gmap string Value).

(** [_Namespace.LOCAL] and [Context.LOCAL]. *)
Definition Namespace_LOCAL : list string := ["_name"; "_context"]%string.
Definition Context_LOCAL : list string :=
  ["_parent"; "_immutable"; "_namespaces"]%string.

(** Attributes every new-style object inherits from [object] or gets from
    its class statement. *)
Definition object_attrs : list string :=
  ["__class__"; "__delattr__"; "__dict__"; "__doc__"; "__format__";
   "__getattribute__"; "__hash__"; "__init__"; "__module__"; "__new__";
   "__reduce__"; "__reduce_ex__"; "__repr__"; "__setattr__"; "__sizeof__";
   "__str__"; "__subclasshook__"; "__weakref__"]%string.

(** Names bound by the class [_Namespace]: Python resolves them on the class
    and never calls [__getattr__] for them. *)
Definition Namespace_class_attrs : list string :=
  (["LOCAL"; "_all"; "_all_local"; "__getattr__"]%string ++ object_attrs)%list.

(** Names Python finds on a [Context] object before [__getattr__]: the three
    slots and the names bound by the class. *)
Definition Context_attrs : list string :=
  (Context_LOCAL ++
   ["LOCAL"; "__enter__"; "__exit__"; "__getattr__"; "get"; "fallback";
    "append_to_import_path"; "_all"; "_write"; "_push_thread_local";
    "_peek_thread_local"; "_pop_thread_local"]%string ++ object_attrs)%list.

(** [_Namespace.__init__(name, context)]. *)
Definition Namespace_init (name : string) : Namespace :=
  <["_name" := VStr name]> (<["_context" := VOwner]> ∅).

(** [Context]: the parent is held by value, so a context is the chain from
    itself up to the root. *)
Inductive Context :=
| mkContext (parent : option Context) (immutable : bool)
            (namespaces : gmap string Namespace).

Definition _parent (c : Context) : option Context :=
  match c with mkContext p _ _ => p end.
Definition _immutable (c : Context) : bool :=
  match c with mkContext _ i _ => i end.
Definition _namespaces (c : Context) : gmap string Namespace :=
  match c with mkContext _ _ n => n end.

(** [Context.__init__(parent, immutable)]. *)
Definition Context_init (parent : option Context) (immutable : bool) : Context :=
  mkContext parent immutable ∅.

(** [Context.__getattr__(name)]: the namespace registered under [name],
    created and registered when there is none. *)
Definition Context___getattr__ (c : Context) (name : string)
  : res Namespace * Context :=
  if bool_decide (name ∈ Context_LOCAL) then (Raise RuntimeError, c)
  else match _namespaces c !! name with
       | Some ns => (Ok ns, c)
       | None =>
           let ns := Namespace_init name in
           (Ok ns, mkContext (_parent c) (_immutable c)
                     (<[name := ns]> (_namespaces c)))
       end.

(** [getattr(c, name)]: Python looks on the object and its class first. *)
Definition Context_getattr (c : Context) (name : string)
  : res Namespace * Context :=
  if bool_decide (name ∈ Context_attrs) then (Beyond, c)
  else Context___getattr__ c name.

(** [getattr(getattr(c, n), key)], the two steps of [Context.get] and of
    [_Namespace.__getattr__].  The second step is Python's lookup on the
    namespace object (class, then [vars]) followed by
    [_Namespace.__getattr__], which asks the parent's namespace of the same
    [_name].  The context comes back with the namespaces the walk created. *)
Fixpoint read (c : Context) (n key : string) : res Value * Context :=
  match c with
  | mkContext parent imm nss =>
    if bool_decide (n ∈ Context_attrs) then (Beyond, c)
    else if bool_decide (n ∈ Context_LOCAL) then (Raise RuntimeError, c)
    else
      let ns := default (Namespace_init n) (nss !! n) in
      let nss' := match nss !! n with
                  | Some _ => nss
                  | None => <[n := ns]> nss
                  end in
      let c' := mkContext parent imm nss' in
      if bool_decide (key ∈ Namespace_class_attrs) then (Beyond, c')
      else match ns !! key with
      | Some v => (Ok v, c')
      | None =>
        (* _Namespace.__getattr__ *)
        if bool_decide (key ∈ Namespace_LOCAL) then (Raise RuntimeError, c')
        else match ns !! "_context"%string with
        | None => (Raise RuntimeError, c')
        | Some VOwner =>
          match parent with
          | None => (Raise (NotInContextException key), c')
          | Some p =>
            match ns !! "_name"%string with
            | None => (Raise RuntimeError, c')
            | Some (VStr name) =>
                let '(r, p') := read p name key in
                (r, mkContext (Some p') imm nss')
            | Some _ => (Raise TypeError, c')
            end
          end
        | Some _ => (Raise (AttributeError "_parent"), c')
        end
      end
  end.

(** [str.split(sep, maxsplit)] for a one-character separator. *)
Fixpoint split_go (sep : ascii) (maxsplit : nat) (acc s : string) : list string :=
  match s with
  | EmptyString => [acc]
  | String a s' =>
      match maxsplit with
      | O => [(acc +:+ s)]
      | S m =>
          if Ascii.eqb a sep then acc :: split_go sep m "" s'
          else split_go sep maxsplit (acc +:+ String a "") s'
      end
  end.
Definition split (s : string) (sep : ascii) (maxsplit : nat) : list string :=
  split_go sep maxsplit "" s.

(** [ch in s]. *)
Fixpoint contains (ch : ascii) (s : string) : bool :=
  match s with
  | EmptyString => false
  | String a s' => Ascii.eqb a ch || contains ch s'
  end.

(** [Context.get(name, default)]. *)
Definition get (c : Context) (name : string) (default : Value)
  : res Value * Context :=
  if negb (contains "." name) then (Ok default, c)
  else match split name "." 2 with
       | [namespace_name; key] =>
           match read c namespace_name key with
           | (Raise (NotInContextException _), c') => (Ok default, c')
           | r => r
           end
       | _ => (Raise ValueError, c)
       end.

(** [Context.fallback(value, name, default)]. *)
Definition fallback (c : Context) (value : Value) (name : string)
  (default : Value) : res Value * Context :=
  match value with
  | VNone => get c name default
  | _ => (Ok value, c)
  end.

(** [c.n.key = v]: [getattr(c, n)] and then [_Namespace.__setattr__]. *)
Definition write (c : Context) (n key : string) (v : Value)
  : res unit * Context :=
  match Context_getattr c n with
  | (Ok ns, c') =>
      let store :=
        if bool_decide (key ∈ Namespace_class_attrs) then (Beyond, c')
        else (Ok tt, mkContext (_parent c') (_immutable c')
                       (<[n := <[key := v]> ns]> (_namespaces c'))) in
      if bool_decide (key ∈ Namespace_LOCAL) then store
      else match ns !! "_context"%string with
           | None => (Raise RuntimeError, c')
           | Some VOwner =>
               if _immutable c' then (Raise ImmutableContextException, c')
               else store
           | Some _ => store   (* AttributeError, caught: pass *)
           end
  | (Raise e, c') => (Raise e, c')
  | (Beyond, c') => (Beyond, c')
  | (Fuel, c') => (Fuel, c')
  end.

(** *** Serialization *)

(** [r[k] = v] on an [OrderedDict]: a known key keeps its place. *)
Fixpoint od_set (r : list (string * Value)) (k : string) (v : Value)
  : list (string * Value) :=
  match r with
  | [] => [(k, v)]
  | (k', v') :: r' =>
      if decide (k' = k) then (k', v) :: r' else (k', v') :: od_set r' k v
  end.

(** [r.get(k)]. *)
Fixpoint od_get (r : list (string * Value)) (k : string) : option Value :=
  match r with
  | [] => None
  | (k', v') :: r' => if decide (k' = k) then Some v' else od_get r' k
  end.

(** [r.update(items)]. *)
Definition od_update (r items : list (string * Value)) : list (string * Value) :=
  foldl (fun r kv => od_set r kv.1 kv.2) r items.

(** The order of [str] values, and of dictionary items with distinct keys. *)
Definition key_le {A} (x y : string * A) : Prop := String.le x.1 y.1.

#[global] Instance key_le_dec {A} (x y : string * A) : Decision (key_le x y).
Proof. unfold key_le. apply _. Defined.

(** [sorted(m.items())]. *)
Definition sorted {A} (items : list (string * A)) : list (string * A) :=
  merge_sort key_le items.

(** [_Namespace._all_local]. *)
Definition Namespace__all_local (ns : Namespace) : list (string * Value) :=
  foldl (fun r kv =>
           if bool_decide (kv.1 ∉ Namespace_LOCAL) && negb (String.prefix "_" kv.1)
           then od_set r kv.1 kv.2 else r)
        [] (sorted (map_to_list ns)).

(** [Context._all]. *)
Fixpoint Context__all (c : Context) : list (string * Value) :=
  match c with
  | mkContext parent _ nss =>
      let r := match parent with
               | Some p => od_update [] (Context__all p)
               | None => []
               end in
      foldl (fun r nsp =>
               foldl (fun r kv => od_set r (nsp.1 +:+ "." +:+ kv.1) kv.2) r
                     (sorted (Namespace__all_local nsp.2)))
            r (sorted (map_to_list nss))
  end.

(** The items a context adds by itself, in the order the two loops of
    [Context._all] visit them. *)
Definition local_items (c : Context) : list (string * Value) :=
  nsp ← sorted (map_to_list (_namespaces c));
  (fun kv => (nsp.1 +:+ "." +:+ kv.1, kv.2)) <$> sorted (Namespace__all_local nsp.2).

(** What [Context._all] starts from: a copy of the parent's items. *)
Definition parent_items (c : Context) : list (string * Value) :=
  match _parent c with
  | Some p => od_update [] (Context__all p)
  | None => []
  end.

(** The line [Context._write] gives an item: none for a key that starts
    with an underscore. *)
Definition line_of (kv : string * Value) : option string :=
  if String.prefix "_" kv.1 then None
  else (fun sv => kv.1 +:+ "=" +:+ sv +:+ String "010" "") <$> str_of_Value kv.2.

(** A child that adds the namespace [a] to a parent that holds [z]. *)
Definition chain_z_a : Context :=
  mkContext
    (Some (mkContext None false
             (<["z" := <["a" := VInt 1]> (Namespace_init "z")]> ∅)))
    false
    (<["a" := <["b" := VInt 2]> (Namespace_init "a")]> ∅).

(** [Context._write(io)]: the strings written, in order. *)
Fixpoint write_items (items : list (string * Value)) : res (list string) :=
  match items with
  | [] => Ok []
  | (k, v) :: items' =>
      if negb (String.prefix "_" k) then
        match str_of_Value v with
        | Some sv =>
            rest ← write_items items';
            Ok ((k +:+ "=" +:+ sv +:+ String "010" "") :: rest)
        | None => Beyond
        end
      else write_items items'
  end.
Definition Context__write (c : Context) : res (list string) :=
  write_items (Context__all c).

(** [Context.__str__]. *)
Definition Context_str (c : Context) : res string :=
  chunks ← Context__write c; Ok (String.concat "" chunks).

(** *** Reading the chain, as a specification *)

(** What the namespace [n] of [c] itself holds under [key]. *)
Definition local (c : Context) (n key : string) : option Value :=
  default (Namespace_init n) (_namespaces c !! n) !! key.

(** The value of the nearest context of the chain that holds [key]. *)
Fixpoint nearest (c : Context) (n key : string) : option Value :=
  match local c n key with
  | Some v => Some v
  | None => match _parent c with
            | Some p => nearest p n key
            | None => None
            end
  end.

(** A namespace still holds what [_Namespace.__init__] put in its slots. *)
Definition slots_ok (n : string) (ns : Namespace) : Prop :=
  ns !! "_name"%string = Some (VStr n) ∧ ns !! "_context"%string = Some VOwner.

Fixpoint wf (c : Context) : Prop :=
  map_Forall slots_ok (_namespaces c) ∧
  match _parent c with
  | Some p => wf p
  | None => True
  end.

#[global] Instance slots_ok_dec n ns : Decision (slots_ok n ns).
Proof. unfold slots_ok. apply _. Defined.

(** Two chains hold the same attributes, level by level; they may differ
    in the empty namespaces that reads have registered. *)
Fixpoint agree (c c' : Context) : Prop :=
  _immutable c = _immutable c' ∧
  (∀ n k, local c n k = local c' n k) ∧
  match _parent c, _parent c' with
  | Some p, Some p' => agree p p'
  | None, None => True
  | _, _ => False
  end.

(** Induction along the chain. *)
Fixpoint chain_ind (P : Context -> Prop)
  (Hroot : forall imm nss, P (mkContext None imm nss))
  (Hchild : forall p imm nss, P p -> P (mkContext (Some p) imm nss))
  (c : Context) : P c :=
  match c with
  | mkContext None imm nss => Hroot imm nss
  | mkContext (Some p) imm nss =>
      Hchild p imm nss (chain_ind P Hroot Hchild p)
  end.

Fixpoint wfb (c : Context) : bool :=
  bool_decide (map_Forall slots_ok (_namespaces c)) &&
  match _parent c with
  | Some p => wfb p
  | None => true
  end.

End Contexts.

(** ** Python strings *)

Module Str.

Fixpoint take (n : nat) (s : string) : string :=
  match n, s with
  | S n', String a s' => String a (take n' s')
  | _, _ => EmptyString
  end.

Fixpoint drop (n : nat) (s : string) : string :=
  match n, s with
  | S n', String _ s' => drop n' s'
  | _, _ => s
  end.

(** A slice bound [i] of a string of length [len], as Python reads it:
    counted from the end when negative, clamped to [0, len]. *)
Definition bound (len : nat) (i : Z) : nat :=
  if i <? 0 then Z.to_nat (Z.max 0 (i + Z.of_nat len))
  else Nat.min (Z.to_nat i) len.

(** [s[:i]] and [s[i:]]. *)
Definition upto (s : string) (i : Z) : string :=
  take (bound (String.length s) i) s.
Definition from (s : string) (i : Z) : string :=
  drop (bound (String.length s) i) s.

(** The first index [>= start] that holds [ch]. *)
Fixpoint find_nat (ch : ascii) (s : string) (start : nat) : option nat :=
  match s with
  | EmptyString => None
  | String a s' =>
      match start with
      | O => if Ascii.eqb a ch then Some O else S <$> find_nat ch s' O
      | S k => S <$> find_nat ch s' k
      end
  end.

(** The last index [< stop] that holds [ch]. *)
Fixpoint rfind_nat (ch : ascii) (s : string) (stop : nat) : option nat :=
  match stop, s with
  | S k, String a s' =>
      match rfind_nat ch s' k with
      | Some i => Some (S i)
      | None => if Ascii.eqb a ch then Some O else None
      end
  | _, _ => None
  end.

(** [s.find(ch, start)] and [s.rfind(ch, 0, stop)]. *)
Definition find (s : string) (ch : ascii) (start : Z) : Z :=
  match find_nat ch s (bound (String.length s) start) with
  | Some i => Z.of_nat i
  | None => -1
  end.
Definition rfind (s : string) (ch : ascii) (stop : Z) : Z :=
  match rfind_nat ch s (bound (String.length s) stop) with
  | Some i => Z.of_nat i
  | None => -1
  end.

(** [s.startswith(p)] and [s.endswith(p)]. *)
Definition startswith (s p : string) : bool := String.prefix p s.
Definition endswith (s p : string) : bool :=
  String.eqb (drop (String.length s - String.length p) s) p
  && (String.length p <=? String.length s)%nat.

(** [s.replace(old, new)]. *)
Fixpoint replace_go (fuel : nat) (old new s : string) : string :=
  match fuel with
  | O => s
  | S f =>
      match s with
      | EmptyString => EmptyString
      | String a s' =>
          if String.prefix old s
          then (new +:+ replace_go f old new (drop (String.length old) s))
          else String a (replace_go f old new s')
      end
  end.
Definition replace (s old new : string) : string :=
  replace_go (S (String.length s)) old new s.

(** [sep.join(l)]. *)
Definition join (sep : string) (l : list string) : string :=
  String.concat sep l.

(** [s * n]. *)
Fixpoint times (s : string) (n : nat) : string :=
  match n with
  | O => EmptyString
  | S k => (s +:+ times s k)
  end.

Definition len (s : string) : Z := Z.of_nat (String.length s).

(** The newline character, as a string. *)
Definition nl : string := String "010"%char EmptyString.

(** The double quote, as a string. *)
Definition dquote : string := String "034"%char EmptyString.

End Str.

(** ** ninja.py: the line writer *)

Module Writer.

Definition _MINIMUM_COLUMNS_STRICT : Z := 30.
Definition _INDENT : string := "  ".

(** The [while] loop of [_Writer._is_unescaped]: the run of ['$'] counted
    downwards from [dollar_index], the loop stopping at index 0.  This is
    the count for an index within the line, which is what the searches of
    the writer pass; [dollar_loop] below is the loop for any index, with
    the [IndexError] of the subscript beyond the end of the line. *)
Fixpoint dollar_run (line : string) (dollar_index : nat) : nat :=
  match dollar_index with
  | O => O
  | S k =>
      match String.get dollar_index line with
      | Some a => if Ascii.eqb a "$" then S (dollar_run line k) else O
      | None => O
      end
  end.

(** [_Writer._is_unescaped(line, i)], as the writer calls it: with the
    index of a space of the line. *)
Definition _is_unescaped (line : string) (i : Z) : bool :=
  Nat.even (dollar_run line (Z.to_nat (i - 1))).

(** [_Writer._is_unescaped(line, i)] for any index, with the subscript
    [line[dollar_index]] checked: it is evaluated when [dollar_index > 0]
    and raises [IndexError] beyond the end of the line. *)
Fixpoint dollar_loop (line : string) (dollar_index dollar_count : nat)
  : res nat :=
  match dollar_index with
  | O => Ok dollar_count
  | S k =>
      match String.get dollar_index line with
      | Some a =>
          if Ascii.eqb a "$" then dollar_loop line k (S dollar_count)
          else Ok dollar_count
      | None => Raise IndexError
      end
  end.
Definition _is_unescaped_checked (line : string) (i : Z) : res bool :=
  match dollar_loop line (Z.to_nat (i - 1)) 0 with
  | Ok dollar_count => Ok (Nat.even dollar_count)
  | Raise e => Raise e
  | Beyond => Beyond
  | Fuel => Fuel
  end.

(** Following the spec: a space is escaped when the run of ['$'] right
    before it, counted down to the start of the line, is odd. *)
Fixpoint spec_dollar_run (line : string) (i : nat) : nat :=
  match i with
  | O => O
  | S k =>
      match String.get k line with
      | Some a => if Ascii.eqb a "$" then S (spec_dollar_run line k) else O
      | None => O
      end
  end.
Definition spec_escaped (line : string) (i : nat) : bool :=
  Nat.odd (spec_dollar_run line i).

(** First try: the last un-escaped space within [width]. *)
Fixpoint first_try (fuel : nat) (line : string) (space : Z) : option Z :=
  match fuel with
  | O => None
  | S f =>
      let space := Str.rfind line " " space in
      if (space <? 0) || _is_unescaped line space then Some space
      else first_try f line space
  end.

(** Second try: the first un-escaped space after [width]. *)
Fixpoint second_try (fuel : nat) (line : string) (space : Z) : option Z :=
  match fuel with
  | O => None
  | S f =>
      let space := Str.find line " " (space + 1) in
      if (space <? 0) || _is_unescaped line space then Some space
      else second_try f line space
  end.

(** The outer [while] loop of [_Writer.line] and the final write.  The
    result lists the strings passed to [io.write], in order. *)
Fixpoint line_loop (fuel : nat) (columns : Z) (strict : bool)
  (indentation : string) (leading_space_length : Z) (broken : bool)
  (line : string) : option (list string) :=
  if leading_space_length + Str.len line >? columns then
    match fuel with
    | O => None
    | S f =>
        let width := columns - leading_space_length - 2 in
        let inner := S (String.length line) in
        space ← first_try inner line width;
        space ← (if (space <? 0) && negb strict
                 then second_try inner line (width - 1)
                 else Some space);
        if negb (space =? -1) then
          let chunk := (indentation +:+ Str.upto line space +:+ " $" +:+ Str.nl) in
          let line := Str.from line (space + 1) in
          let '(indentation, leading_space_length) :=
            if broken then (indentation, leading_space_length)
            else ((indentation +:+ _INDENT),
                  leading_space_length + Str.len _INDENT) in
          (chunk ::.) <$>
            line_loop f columns strict indentation leading_space_length true line
        else if strict then
          let width := width + 1 in
          let chunk := (indentation +:+ Str.upto line width +:+ "$" +:+ Str.nl) in
          let line := Str.from line width in
          (chunk ::.) <$>
            line_loop f columns strict indentation leading_space_length broken line
        else Some [(indentation +:+ line +:+ Str.nl)]
    end
  else Some [(indentation +:+ line +:+ Str.nl)].

(** [_Writer.line(line, indent)] for a writer built with [columns] and
    [strict]; [None] when the loop does not finish. *)
Definition line (columns : option Z) (strict : bool) (line : string)
  (indent : nat) : option (list string) :=
  let indentation := Str.times _INDENT indent in
  match columns with
  | None => Some [(indentation +:+ line +:+ Str.nl)]
  | Some columns =>
      line_loop (S (String.length line)) columns strict indentation
        (Str.len indentation) false line
  end.

End Writer.

(** ** projects.py and the phases of a project *)

Module Projects.

(** A phase object is known by its identity. *)
Abbreviation PhaseId := nat.

(** So is a list object: [phase.inputs] is bound to one, and two phases may
    be bound to the same one. *)
Abbreviation ListId := nat.

(** An entry of [phase.inputs_from]: a phase object or a phase name. *)
Inductive InputsFrom :=
| FromPhase (p : PhaseId)
| FromName (name : string).

(** What the generator reads from an executor, each already a string. *)
Record Executor := {
  output_type : string;
  output_prefix : option string;
  output_extension : option string;
  _deps_file : option string;
  _deps_type : option string
}.

(** What the generator reads from a phase.  [inputs] is the list object
    the attribute is bound to; [command_as_str] is the command line rendered
    with the escape function it is given. *)
Record Phase := {
  inputs : ListId;
  inputs_from : list InputsFrom;
  output : option string;
  description : option string;
  command_as_str : (string -> string) -> string;
  executor : Executor
}.

(** [Project]: [phases] is the dictionary in its iteration order;
    [variant] is the variant already turned into a string. *)
Record Project := {
  name : string;
  file_name : option string;
  version : option string;
  variant : option string;
  phases : list (string * PhaseId)
}.

(** Truth value of an optional string: [None] and [''] are false. *)
Definition nonempty (o : option string) : bool :=
  match o with
  | Some s => negb (String.eqb s "")
  | None => false
  end.

(** [Project.__str__]. *)
Definition Project_str (P : Project) : string :=
  let version := version P in
  let variant := variant P in
  if nonempty version && nonempty variant then
    (name P +:+ " " +:+ default "" version +:+ " (" +:+ default "" variant +:+ ")")
  else if nonempty version && negb (nonempty variant) then
    (name P +:+ " " +:+ default "" version)
  else if nonempty variant && negb (nonempty version) then
    (name P +:+ " (" +:+ default "" variant +:+ ")")
  else name P.

(** [self.phases.get(name)]. *)
Fixpoint phases_get (l : list (string * PhaseId)) (name : string)
  : option PhaseId :=
  match l with
  | [] => None
  | (k, v) :: l' => if decide (k = name) then Some v else phases_get l' name
  end.

(** [Project.get_phase_name(phase)]: the first name bound to that object. *)
Fixpoint get_phase_name (l : list (string * PhaseId)) (phase : PhaseId)
  : option string :=
  match l with
  | [] => None
  | (k, v) :: l' => if decide (v = phase) then Some k else get_phase_name l' phase
  end.

End Projects.

(** ** ninja.py: the generator *)

Module Ninja.
Import Contexts Projects.

Definition DEFAULT_NAME : string := "build.ninja".
Definition DEFAULT_COLUMNS : Z := 100.
Definition os_sep : string := "/".

(** [_escape(value)] and [_pathify(value)]. *)
Definition _escape (value : string) : string := Str.replace value "$" "$$".
Definition _pathify (value : string) : string :=
  Str.replace (Str.replace (Str.replace value "$ " "$$ ") " " "$ ") ":" "$:".

(** Modelled from the spec: [ronin.utils.collections.dedup] is not among the
    sources; the spec has the inputs "deduplicated preserving
    first-occurrence order".  A value is kept when it was not seen before. *)
Definition dedup (values : list string) : list string :=
  foldl (fun r v => if bool_decide (v ∈ r) then r else (r ++ [v])) [] values.

(** Following the spec: the first occurrence of each value, in order. *)
Fixpoint spec_dedup (values : list string) : list string :=
  match values with
  | [] => []
  | v :: values' => v :: filter (fun x => x ≠ v) (spec_dedup values')
  end.

(** Following the spec: a path with its root prefix stripped back off. *)
Definition strip_root (root path : string) : string :=
  if Str.startswith path root then Str.from path (Str.len root) else path.

(** [NinjaFile]: the fields set by [__init__]. *)
Record NinjaFile := {
  nf_command : Value;
  nf_file_name : option string;
  nf_columns : Value;
  nf_strict : Value
}.

(** [NinjaFile.__init__(project, command, file_name, columns, strict)]. *)
Definition NinjaFile_init (P : Project) (command : Value)
  (file_name : option string) (columns strict : Value) : NinjaFile :=
  {| nf_command := VNone;
     nf_file_name :=
       if nonempty file_name then file_name
       else match Projects.file_name P with
            | Some f => Some (f +:+ ".ninja")
            | None => None
            end;
     nf_columns := VNone;
     nf_strict := VNone |}.

(** What a generation run reads and changes: the stack of contexts of this
    thread, the phase objects, the list objects their [inputs] are bound
    to, the memo of written phases with their outputs, the dictionary
    behind [build._phase_results], and the strings written to [io].
    [written] is not a variable of the program: it is the trace of the
    walk, the names of the phases in the order in which their rule line is
    written, kept beside the state and read by no step. *)
Record State := {
  stack : list Context;
  heap : PhaseId -> Phase;
  lists : ListId -> list string;
  all_phase_outputs : gmap string (list string);
  results : gmap PhaseId (list string);
  io : list string;
  written : list string
}.

Definition set_stack (f : list Context -> list Context) (st : State) : State :=
  {| stack := f (stack st); heap := heap st; lists := lists st;
     all_phase_outputs := all_phase_outputs st; results := results st;
     io := io st; written := written st |}.
Definition set_heap (f : (PhaseId -> Phase) -> PhaseId -> Phase) (st : State) : State :=
  {| stack := stack st; heap := f (heap st); lists := lists st;
     all_phase_outputs := all_phase_outputs st; results := results st;
     io := io st; written := written st |}.
Definition set_lists
  (f : (ListId -> list string) -> ListId -> list string) (st : State) : State :=
  {| stack := stack st; heap := heap st; lists := f (lists st);
     all_phase_outputs := all_phase_outputs st; results := results st;
     io := io st; written := written st |}.
Definition set_outputs
  (f : gmap string (list string) -> gmap string (list string)) (st : State) : State :=
  {| stack := stack st; heap := heap st; lists := lists st;
     all_phase_outputs := f (all_phase_outputs st); results := results st;
     io := io st; written := written st |}.
Definition set_results
  (f : gmap PhaseId (list string) -> gmap PhaseId (list string)) (st : State) : State :=
  {| stack := stack st; heap := heap st; lists := lists st;
     all_phase_outputs := all_phase_outputs st; results := f (results st);
     io := io st; written := written st |}.
Definition set_io (f : list string -> list string) (st : State) : State :=
  {| stack := stack st; heap := heap st; lists := lists st;
     all_phase_outputs := all_phase_outputs st; results := results st;
     io := f (io st); written := written st |}.
Definition set_written (f : list string -> list string) (st : State) : State :=
  {| stack := stack st; heap := heap st; lists := lists st;
     all_phase_outputs := all_phase_outputs st; results := results st;
     io := io st; written := f (written st) |}.

(** The elements of the list [phase.inputs] is bound to. *)
Definition inputs_of (st : State) (phase : PhaseId) : list string :=
  lists st (inputs (heap st phase)).

(** A step of the generator: an outcome and, when it returns, the state. *)
Definition M (A : Type) : Type := State -> res (A * State).

#[global] Instance M_ret : MRet M := fun A a st => Ok (a, st).
#[global] Instance M_bind : MBind M := fun A B k m st =>
  match m st with
  | Ok (a, st') => k a st'
  | Raise e => Raise e
  | Beyond => Beyond
  | Fuel => Fuel
  end.

Definition raise {A} (e : exn) : M A := fun _ => Raise e.
Definition beyond {A} : M A := fun _ => Beyond.
Definition gets {A} (f : State -> A) : M A := fun st => Ok (f st, st).
Definition modify (f : State -> State) : M unit := fun st => Ok (tt, f st).

(** The last element of the stack replaced. *)
Definition set_top (c : Context) (l : list Context) : list Context :=
  match l with
  | [] => []
  | _ => (removelast l ++ [c])
  end.

(** A call on the context a [with] block bound, the top of the stack. *)
Definition on_ctx {A} (f : Context -> res A * Context) : M A := fun st =>
  match last (stack st) with
  | None => Raise NoContextException
  | Some c =>
      let '(r, c') := f c in
      a ← r; Ok (a, set_stack (set_top c') st)
  end.

(** [with current_context(immutable) as ctx: body].  [current_context]
    takes the top of the stack, or a fresh immutable child of it; [__enter__]
    pushes that context and [__exit__] pops it.  Contexts are held by value,
    so what the block did to the shared object is written back to the entry
    below. *)
Definition with_current_context {A} (immutable : bool) (body : M A) : M A :=
  fun st =>
  match last (stack st) with
  | None => Raise NoContextException
  | Some top =>
      let ctx := if immutable then Context_init (Some top) true else top in
      '(a, st') ← body (set_stack (fun l => (l ++ [ctx])) st);
      match last (stack st') with
      | None => Beyond
      | Some ctx' =>
          let top' := if immutable then default top (_parent ctx') else ctx' in
          Ok (a, set_stack (fun l => set_top top' (removelast l)) st')
      end
  end.

(** [configure_ninja(command, file_name, columns, strict)]. *)
Definition configure_ninja (command file_name columns strict : Value) : M unit :=
  with_current_context false (
    on_ctx (fun ctx => Contexts.write ctx "ninja" "command" command);;
    on_ctx (fun ctx => Contexts.write ctx "ninja" "file_name" file_name);;
    on_ctx (fun ctx => Contexts.write ctx "ninja" "file_columns" columns);;
    on_ctx (fun ctx => Contexts.write ctx "ninja" "file_strict" strict)).

(** [if strict and (columns is not None) and (columns < _MINIMUM_COLUMNS_STRICT):
    columns = _MINIMUM_COLUMNS_STRICT].  Python 2 orders a number before
    any value of another type. *)
Definition clamp_columns (columns strict : Value) : Value :=
  if truthy strict &&
     match columns with
     | VNone => false
     | VInt z => z <? Writer._MINIMUM_COLUMNS_STRICT
     | VBool b => true
     | VStr _ | VOwner | VResults => false
     end
  then VInt Writer._MINIMUM_COLUMNS_STRICT else columns.

(** The first block of [NinjaFile.write]: the columns and the strict flag
    the writer is built with. *)
Definition write_settings (nf : NinjaFile) : M (Value * Value) :=
  with_current_context true (
    columns ← on_ctx (fun ctx =>
      Contexts.fallback ctx (nf_columns nf) "ninja.file_columns" (VInt DEFAULT_COLUMNS));
    strict ← on_ctx (fun ctx =>
      Contexts.fallback ctx (nf_strict nf) "ninja.file_columns_strict" (VBool false));
    mret (clamp_columns columns strict, strict)).

(** The settings [write] takes from the context on top of the stack. *)
Definition settings_from (top : Context) : Value * Value :=
  let columns := default (VInt DEFAULT_COLUMNS) (nearest top "ninja" "file_columns") in
  let strict := default (VBool false) (nearest top "ninja" "file_columns_strict") in
  (clamp_columns columns strict, strict).

(** The outcome of a step without the state it leaves. *)
Definition outcome {A} (r : res (A * State)) : res A :=
  match r with
  | Ok (a, _) => Ok a
  | Raise e => Raise e
  | Beyond => Beyond
  | Fuel => Fuel
  end.

Section Generator.

(** [ronin.utils.paths.join_path] and [change_extension], [textwrap.wrap]
    (called with a width, [break_long_words] and [break_on_hyphens=False])
    and the time stamp of the header are not among the sources. *)
Variable join_path : string -> option string -> string.
Variable change_extension : string -> option string -> string.
Variable wrap : string -> Z -> bool -> list string.
Variable utcnow : string.

Variable P : Project.

(** The writer [w]: the columns and the strict flag it was built with. *)
Variable columns : option Z.
Variable strict : bool.

(** [w.line(line, indent)]. *)
Definition w_line (line : string) (indent : nat) : M unit := fun st =>
  match Writer.line columns strict line indent with
  | Some chunks => Ok (tt, set_io (fun l => (l ++ chunks)) st)
  | None => Fuel
  end.

(** [w.comment(line)]; [textwrap] refuses a width that is not positive. *)
Definition w_comment (line : string) : M unit :=
  match columns with
  | None => modify (set_io (fun l => l ++ ["# " +:+ line +:+ Str.nl]))
  | Some columns =>
      let width := columns - 2 in
      if width <=? 0 then raise ValueError
      else modify (set_io (fun l =>
             l ++ ((fun line => "# " +:+ line +:+ Str.nl) <$> wrap line width strict)))
  end.

(** A string read from the context. *)
Definition as_str (v : Value) : M (option string) :=
  match v with
  | VStr s => mret (Some s)
  | VNone => mret None
  | _ => beyond
  end.

(** [NinjaFile.base_path]. *)
Definition base_path : M string :=
  with_current_context true (
    v ← on_ctx (fun ctx => Contexts.read ctx "paths" "output");
    match v with
    | VStr s => mret (join_path s (variant P))
    | _ => beyond
    end).

(** The block "# Paths" of [_write_rule]: [input_base], and [output_base]
    when the output type binds it. *)
Definition paths (ph : Phase) : M (string * option string) :=
  with_current_context true (
    v ← on_ctx (fun ctx => Contexts.get ctx "paths.input" VNone);
    input_base ← match v with
                 | VStr s => mret s
                 | VNone | VBool _ | VInt _ => raise (AttributeError "endswith")
                 | VOwner | VResults => beyond
                 end;
    let input_base :=
      if Str.endswith input_base os_sep then input_base
      else (input_base +:+ os_sep) in
    let output_type := output_type (executor ph) in
    output_base ←
      (if String.eqb output_type "object" then
         v ← on_ctx (fun ctx => Contexts.get ctx "paths.object" VNone);
         match v with
         | VNone =>
             b ← base_path;
             r ← on_ctx (fun ctx => Contexts.get ctx "paths.object_relative" VNone);
             r ← as_str r;
             mret (Some (join_path b r))
         | VStr s => mret (Some s)
         | _ => beyond
         end
       else if String.eqb output_type "binary" then
         v ← on_ctx (fun ctx => Contexts.get ctx "paths.binary" VNone);
         match v with
         | VNone =>
             b ← base_path;
             r ← on_ctx (fun ctx => Contexts.get ctx "paths.binary_relative" VNone);
             r ← as_str r;
             mret (Some (join_path b r))
         | VStr s => mret (Some s)
         | _ => beyond
         end
       else mret None);
    mret (input_base, output_base)).

(** A local variable that an earlier branch may have left unbound. *)
Definition bound {A} (o : option A) : M A :=
  match o with
  | Some a => mret a
  | None => raise UnboundLocalError
  end.

(** The block "# Inputs" of [_write_rule]: [inputs = phase.inputs] binds
    the local name to the list object of the phase, and
    [inputs += all_phase_outputs[name]] extends that object in place for
    each name: every phase bound to the same object sees the new elements,
    and they stay after the run.  Then [dedup], which builds a new list. *)
Fixpoint extend_inputs (phase : PhaseId) (names : list string) : M unit :=
  match names with
  | [] => mret tt
  | inputs_from_name :: names' =>
      outs ← gets (fun st => all_phase_outputs st !! inputs_from_name);
      match outs with
      | None => raise KeyError
      | Some outs =>
          inputs ← gets (fun st => inputs (heap st phase));
          modify (set_lists (fun m => <[inputs := (m inputs ++ outs)]> m));;
          extend_inputs phase names'
      end
  end.
Definition resolve_inputs (phase : PhaseId) (names : list string)
  : M (list string) :=
  extend_inputs phase names;;
  inputs ← gets (fun st => inputs_of st phase);
  mret (dedup inputs).

(** [phase_outputs.append(output)] and [phase_results.append(output)]. *)
Definition append_output (phase_name : string) (phase : PhaseId)
  (has_results : bool) (output : string) : M unit :=
  modify (set_outputs (fun m =>
    <[phase_name := (default [] (m !! phase_name) ++ [output])]> m));;
  if has_results
  then modify (set_results (fun m =>
         <[phase := (default [] (m !! phase) ++ [output])]> m))
  else mret tt.

(** The output derived from one input in the block "# Multiple outputs". *)
Definition fan_out (input_base : string) (output_base : string)
  (output_extension : option string) (input : string) : string :=
  let output := input in
  let output :=
    if Str.startswith output input_base
    then Str.from output (Str.len input_base) else output in
  let output := change_extension output output_extension in
  join_path output_base (Some output).

Fixpoint fan_out_loop (phase_name : string) (phase : PhaseId)
  (has_results : bool) (rule_name input_base : string)
  (output_base : option string) (output_extension : option string)
  (inputs : list string) : M unit :=
  match inputs with
  | [] => mret tt
  | input :: inputs' =>
      output_base' ← bound output_base;
      let output := fan_out input_base output_base' output_extension input in
      w_line ("build " +:+ _pathify output +:+ ": " +:+ rule_name +:+ " "
              +:+ _pathify input) 0;;
      append_output phase_name phase has_results output;;
      fan_out_loop phase_name phase has_results rule_name input_base
        output_base output_extension inputs'
  end.

(** The name and the object an entry of [inputs_from] stands for. *)
Definition resolve (value : InputsFrom) : res (string * PhaseId) :=
  match value with
  | FromPhase q =>
      match get_phase_name (phases P) q with
      | Some name => Ok (name, q)
      | None =>
          Raise (AttributeError
                   "inputs_from contains a phase that is not in the project")
      end
  | FromName name =>
      match phases_get (phases P) name with
      | Some q => Ok (name, q)
      | None =>
          Raise (AttributeError
                   ("inputs_from " +:+ Str.dquote +:+ name +:+ Str.dquote
                    +:+ " is not a phase in the project"))
      end
  end.

(** [NinjaFile._get_inputs_from_names(phase, all_phase_outputs, w)], the
    loop over [values]; [write_rule] is [self._write_rule]. *)
Fixpoint _get_inputs_from_names
  (write_rule : string -> PhaseId -> M unit)
  (phase : PhaseId) (values : list InputsFrom) (names : list string)
  : M (list string) :=
  match values with
  | [] => mret names
  | value :: values' =>
      match resolve value with
      | Ok (name, inputs_from) =>
          if decide (inputs_from = phase)
          then raise (AttributeError "inputs_from contains self")
          else
            write_rule name inputs_from;;
            _get_inputs_from_names write_rule phase values'
              (names ++ [name])
      | Raise e => raise e
      | _ => beyond
      end
  end.

(** [NinjaFile._write_rule], from [phase_outputs = []] to the end: what it
    does once the input phases are written and their names known. *)
Definition write_rule_body (phase_name : string) (phase : PhaseId)
  (inputs_from_names : list string) : M unit :=
    modify (set_outputs (<[phase_name := []]>));;
    results ← with_current_context true
                (on_ctx (fun ctx => Contexts.get ctx "build._phase_results" VNone));
    has_results ←
      match results with
      | VNone => mret false
      | VResults =>
          modify (set_results (fun m =>
            match m !! phase with Some _ => m | None => <[phase := []]> m end));;
          mret true
      | _ => beyond
      end;
    let rule_name := Str.replace phase_name " " "_" in
    (* Rule *)
    w_line "" 0;;
    (* the trace of the walk, which no step reads *)
    modify (set_written (fun l => l ++ [phase_name]));;
    w_line ("rule " +:+ rule_name) 0;;
    ph ← gets (fun st => heap st phase);
    (* Description *)
    let description :=
      default (phase_name +:+ " $out") (description ph) in
    w_line ("description = " +:+ description) 1;;
    (* Command *)
    let command := command_as_str ph _escape in
    w_line ("command = " +:+ command) 1;;
    (* Deps *)
    (if nonempty (_deps_file (executor ph)) then
       w_line ("depfile = " +:+ default "" (_deps_file (executor ph))) 1;;
       if nonempty (_deps_type (executor ph))
       then w_line ("deps = " +:+ default "" (_deps_type (executor ph))) 1
       else mret tt
     else mret tt);;
    (* Paths *)
    '(input_base, output_base) ← paths ph;
    (* Single output? *)
    output ← (if nonempty (output ph)
              then output_base' ← bound output_base;
                   mret (Some (join_path output_base' (output ph)))
              else mret None);
    (* Inputs *)
    inputs ← resolve_inputs phase inputs_from_names;
    (* Extension *)
    let output_prefix := default "" (output_prefix (executor ph)) in
    let output_extension := output_extension (executor ph) in
    if nonempty output then
      (* Single output *)
      w_line "" 0;;
      let output :=
        (output_prefix +:+ change_extension (default "" output) output_extension) in
      (match inputs with
       | _ :: _ =>
           w_line ("build " +:+ _pathify output +:+ ": " +:+ rule_name +:+ " "
                   +:+ Str.join " " (_pathify <$> inputs)) 0
       | [] => w_line ("build " +:+ _pathify output +:+ ": " +:+ rule_name) 0
       end);;
      append_output phase_name phase has_results output
    else
      match inputs with
      | _ :: _ =>
          (* Multiple outputs *)
          w_line "" 0;;
          fan_out_loop phase_name phase has_results rule_name input_base
            output_base output_extension inputs
      | [] => mret tt
      end.

(** [NinjaFile._write_rule(w, phase_name, phase, all_phase_outputs)]. *)
Fixpoint _write_rule (fuel : nat) (phase_name : string) (phase : PhaseId)
  : M unit :=
  match fuel with
  | O => fun _ => Fuel
  | S fuel' =>
    (* Check if already written *)
    memo ← gets (fun st => all_phase_outputs st !! phase_name);
    if bool_decide (is_Some memo) then mret tt else
    (* Input from other phases *)
    values ← gets (fun st => inputs_from (heap st phase));
    inputs_from_names ←
      _get_inputs_from_names (_write_rule fuel') phase values [];
    write_rule_body phase_name phase inputs_from_names
  end.

(** The loop of [NinjaFile.write] over [self._project.phases.iteritems()]. *)
Fixpoint write_phases (fuel : nat) (l : list (string * PhaseId)) : M unit :=
  match l with
  | [] => mret tt
  | (phase_name, phase) :: l' =>
      _write_rule fuel phase_name phase;;
      write_phases fuel l'
  end.

(** The body of [NinjaFile.write] under [with _Writer(io, columns, strict)]. *)
Definition write_body (fuel : nat) (strict_value : Value) : M unit :=
  w_comment ("Ninja file for " +:+ Project_str P);;
  w_comment ("Generated by Ronin on " +:+ utcnow);;
  (match columns with
   | Some n =>
       w_comment ("Columns: " +:+ pretty n +:+ " ("
                  +:+ (if truthy strict_value then "strict" else "non-strict") +:+ ")")
   | None => mret tt
   end);;
  (* all_phase_outputs = {}, and the trace of this run starts empty *)
  modify (fun st => set_written (fun _ => []) (set_outputs (fun _ => ∅) st));;
  write_phases fuel (phases P).

End Generator.

(** [NinjaFile.write(io)]: the settings, then the body with the writer built
    from them.  A columns value that is not a number fails in the first
    [w.comment], at [self._columns - 2]. *)
Definition write (join_path : string -> option string -> string)
  (change_extension : string -> option string -> string)
  (wrap : string -> Z -> bool -> list string) (utcnow : string)
  (P : Project) (nf : NinjaFile) (fuel : nat) : M unit :=
  '(columns, strict) ← write_settings nf;
  match columns with
  | VNone =>
      write_body join_path change_extension wrap utcnow P None
        (truthy strict) fuel strict
  | VInt z =>
      write_body join_path change_extension wrap utcnow P (Some z)
        (truthy strict) fuel strict
  | VBool b =>
      write_body join_path change_extension wrap utcnow P
        (Some (if b then 1 else 0)) (truthy strict) fuel strict
  | VStr _ | VOwner | VResults => raise TypeError
  end.

(** *** The output, as calls of the writer *)

(** The strings [w.line] writes for a list of calls [(line, indent)], in
    order. *)
Fixpoint render (columns : option Z) (strict : bool)
  (calls : list (string * nat)) : option (list string) :=
  match calls with
  | [] => Some []
  | c :: calls' =>
      chunks ← Writer.line columns strict c.1 c.2;
      rest ← render columns strict calls';
      Some (chunks ++ rest)
  end.

(** The call that opens the rule block of a phase, and the calls that open
    a rule block. *)
Definition rule_line (phase_name : string) : string * nat :=
  ("rule " +:+ Str.replace phase_name " " "_", 0%nat).
Definition is_rule_line (c : string * nat) : Prop :=
  String.prefix "rule " c.1 = true.

#[global] Instance is_rule_line_dec c : Decision (is_rule_line c).
Proof. unfold is_rule_line. apply _. Defined.

(** The columns a writer is built with, from the setting [write] read. *)
Definition columns_of (v : Value) : option Z :=
  match v with
  | VInt z => Some z
  | VBool b => Some (if b then 1 else 0)
  | _ => None
  end.

(** A step that writes through [w.line] only: when it returns, [io] has
    grown by the rendering of some calls, and the calls among them that
    open a rule block are those of the phases the trace has grown by, in
    the same order. *)
Definition emits (columns : option Z) (strict : bool) {A} (m : M A) : Prop :=
  ∀ st a st', m st = Ok (a, st') ->
    ∃ calls chunks w,
      render columns strict calls = Some chunks
      ∧ io st' = io st ++ chunks
      ∧ written st' = written st ++ w
      ∧ filter is_rule_line calls = rule_line <$> w.

(** *** The walk, as a specification *)

(** The context on top of the stack configures a run: it holds the paths
    the generator reads as strings, [build._phase_results] is absent,
    [None] or the dictionary of results, and the columns leave room for the
    comments of the header. *)
Definition configured (top : Context) : Prop :=
  wf top
  ∧ (∃ s, nearest top "paths" "input" = Some (VStr s))
  ∧ (∃ s, nearest top "paths" "object" = Some (VStr s))
  ∧ (∃ s, nearest top "paths" "binary" = Some (VStr s))
  ∧ (nearest top "build" "_phase_results" = None
     ∨ nearest top "build" "_phase_results" = Some VNone
     ∨ nearest top "build" "_phase_results" = Some VResults)
  ∧ match (settings_from top).1 with
    | VNone => True
    | VInt z => 2 < z
    | _ => False
    end.

(** The stack of a state still ends in a context that agrees with [top0]. *)
Definition cfg (top0 : Context) (st : State) : Prop :=
  ∃ l top, stack st = l ++ [top] ∧ wf top ∧ agree top0 top.

(** A step that leaves the phases, the memo and the trace alone. *)
Definition kept (top0 : Context) (st st' : State) : Prop :=
  cfg top0 st' ∧ heap st' = heap st
  ∧ all_phase_outputs st' = all_phase_outputs st
  ∧ written st' = written st.

(** In strict mode the columns are at least the minimum [write] clamps to. *)
Definition writer_ok (columns : option Z) (strict : bool) : Prop :=
  strict = true -> ∀ c, columns = Some c -> Writer._MINIMUM_COLUMNS_STRICT <= c.

(** Every executor has one of the two output types that bind
    [output_base]. *)
Definition executors_ok (h : PhaseId -> Phase) : Prop :=
  ∀ q, output_type (executor (h q)) = "object"
       ∨ output_type (executor (h q)) = "binary".

(** [a] comes before [b] in [l]. *)
Definition before (a b : string) (l : list string) : Prop :=
  ∃ l1 l2 l3, l = l1 ++ a :: l2 ++ b :: l3.

(** The phase graph has no cycle: a rank falls along every reference from
    a phase of the project to another phase. *)
Definition acyclic (P : Project) (h : PhaseId -> Phase) : Prop :=
  ∃ rank : PhaseId -> nat,
    ∀ name p v n q, (name, p) ∈ phases P -> v ∈ inputs_from (h p) ->
      resolve P v = Ok (n, q) -> q ≠ p -> (rank q < rank p)%nat.

(** Every reference of a phase of the project names another phase of the
    project. *)
Definition valid_refs (P : Project) (h : PhaseId -> Phase) : Prop :=
  ∀ name p v, (name, p) ∈ phases P -> v ∈ inputs_from (h p) ->
    ∃ n q, resolve P v = Ok (n, q) ∧ q ≠ p.

(** An entry of [inputs_from] that is a declaration error for [phase]: a
    name the project has no phase for, a phase object the project does not
    hold, or the phase itself, given as the object or by its name. *)
Definition not_declared (P : Project) (phase : PhaseId) (value : InputsFrom)
  : Prop :=
  match value with
  | FromName name => name ∉ (phases P).*1 ∨ (name, phase) ∈ phases P
  | FromPhase q => q ∉ (phases P).*2 ∨ q = phase
  end.

(** The message of the [AttributeError] raised for such an entry. *)
Definition declaration_error (P : Project) (value : InputsFrom) : string :=
  match value with
  | FromName name =>
      if bool_decide (name ∈ (phases P).*1) then "inputs_from contains self"
      else ("inputs_from " +:+ Str.dquote +:+ name +:+ Str.dquote
            +:+ " is not a phase in the project")
  | FromPhase q =>
      if bool_decide (q ∈ (phases P).*2) then "inputs_from contains self"
      else "inputs_from contains a phase that is not in the project"
  end.

(** What holds of a state between two steps of the walk: the stack is
    configured; the references and executors of the phases are those of
    the start [h0]; the trace lists each written phase once, the written
    phases are those of the memo and are phases of the project; and every
    reference of a written phase names another phase, written before it. *)
Definition walk_inv (P : Project) (top0 : Context) (h0 : PhaseId -> Phase)
  (st : State) : Prop :=
  cfg top0 st
  ∧ (∀ q, inputs_from (heap st q) = inputs_from (h0 q)
          ∧ executor (heap st q) = executor (h0 q))
  ∧ NoDup (written st)
  ∧ (∀ n, n ∈ written st ↔ is_Some (all_phase_outputs st !! n))
  ∧ (∀ n, n ∈ written st -> is_Some (phases_get (phases P) n))
  ∧ (∀ B pB v, B ∈ written st -> phases_get (phases P) B = Some pB ->
       v ∈ inputs_from (h0 pB) ->
       ∃ A q, resolve P v = Ok (A, q) ∧ q ≠ pB ∧ before A B (written st)).

End Ninja.

(** ** A project to run the model on *)

Module Examples.
Import Contexts Projects Ninja.

(** Stand-ins for the path helpers: join with the separator, and replace
    what follows the last dot. *)
Definition join_path (a : string) (b : option string) : string :=
  a +:+ os_sep +:+ default "" b.

Fixpoint stem (s : string) : string :=
  match s with
  | EmptyString => EmptyString
  | String a s' =>
      if Ascii.eqb a "." && negb (contains "." s') then EmptyString
      else String a (stem s')
  end.
Definition change_extension (s : string) (e : option string) : string :=
  match e with
  | Some e => stem s +:+ "." +:+ e
  | None => s
  end.

Definition wrap (s : string) (width : Z) (break_long_words : bool)
  : list string := [s].
Definition utcnow : string := "2017-01-01 00:00:00 UTC".

Definition gcc_compile : Executor :=
  {| output_type := "object"; output_prefix := None;
     output_extension := Some "o"; _deps_file := Some "$out.d";
     _deps_type := Some "gcc" |}.
Definition gcc_link : Executor :=
  {| output_type := "binary"; output_prefix := None;
     output_extension := None; _deps_file := None; _deps_type := None |}.

(** The two phases of [examples/gcc/build3.py]: [link] takes its inputs
    from [compile]. *)
Definition compile : Phase :=
  {| inputs := 0%nat; inputs_from := [];
     output := None; description := None;
     command_as_str := fun esc => "gcc -c " +:+ esc "$in" +:+ " -o " +:+ esc "$out";
     executor := gcc_compile |}.
Definition link : Phase :=
  {| inputs := 1%nat; inputs_from := [FromPhase 0%nat];
     output := Some "example_1"; description := None;
     command_as_str := fun esc => "gcc " +:+ esc "$in" +:+ " -o " +:+ esc "$out";
     executor := gcc_link |}.
Definition objects (q : PhaseId) : Phase :=
  match q with
  | 1%nat => link
  | _ => compile
  end.

(** The list objects of the example: the sources of [compile], the empty
    list of [link], and the grammar of [generate] below. *)
Definition sources (i : ListId) : list string :=
  match i with
  | 0%nat => ["/src/a.c"; "/src/b.c"]
  | 2%nat => ["/src/parser.y"]
  | _ => []
  end.
Definition project : Project :=
  {| name := "gcc GTK+ Hello World"; file_name := None; version := None;
     variant := Some "linux64";
     phases := [("link", 1%nat); ("compile", 0%nat)] |}.
Definition rank (q : PhaseId) : nat :=
  match q with
  | 1%nat => 1%nat
  | _ => 0%nat
  end.

(** The same project with a [link] that names a phase that is not there. *)
Definition link_missing : Phase :=
  {| inputs := 1%nat; inputs_from := [FromName "assemble"];
     output := Some "example_1"; description := None;
     command_as_str := fun esc => "gcc " +:+ esc "$in" +:+ " -o " +:+ esc "$out";
     executor := gcc_link |}.
Definition objects_missing (q : PhaseId) : Phase :=
  match q with
  | 1%nat => link_missing
  | _ => compile
  end.

(** A root context with the paths set, and a child that overrides one key
    of the namespace [ninja]. *)
Definition root : Context :=
  mkContext None false
    (<["paths" := <["input" := VStr "/src"]>
                   (<["object" := VStr "/out/obj"]>
                    (<["binary" := VStr "/out/bin"]> (Namespace_init "paths")))]>
     (<["ninja" := <["file_columns" := VInt 80]>
                    (<["command" := VStr "ninja"]> (Namespace_init "ninja"))]> ∅)).
Definition child : Context :=
  mkContext (Some root) false
    (<["ninja" := <["command" := VStr "samu"]> (Namespace_init "ninja")]> ∅).

(** A phase that generates a source file: its executor has an output
    type of its own. *)
Definition yacc : Executor :=
  {| output_type := "source"; output_prefix := None;
     output_extension := Some "c"; _deps_file := None; _deps_type := None |}.
Definition generate : Phase :=
  {| inputs := 2%nat; inputs_from := [];
     output := Some "parser"; description := None;
     command_as_str := fun esc => "yacc " +:+ esc "$in" +:+ " -o " +:+ esc "$out";
     executor := yacc |}.


Definition start (h : PhaseId -> Phase) : State :=
  {| stack := [child]; heap := h; lists := sources;
     all_phase_outputs := ∅; results := ∅; io := []; written := [] |}.

(** Two programs linked with the same extra objects: after
    [extra = ['/lib/rt.o']], [link_a.inputs = extra] and
    [link_b.inputs = extra] the two link phases are bound to one list
    object, number 4 here. *)
Definition compile_a : Phase :=
  {| inputs := 0%nat; inputs_from := [];
     output := None; description := None;
     command_as_str := fun esc => "gcc -c " +:+ esc "$in" +:+ " -o " +:+ esc "$out";
     executor := gcc_compile |}.
Definition link_a : Phase :=
  {| inputs := 4%nat; inputs_from := [FromPhase 0%nat];
     output := Some "a"; description := None;
     command_as_str := fun esc => "gcc " +:+ esc "$in" +:+ " -o " +:+ esc "$out";
     executor := gcc_link |}.
Definition compile_b : Phase :=
  {| inputs := 2%nat; inputs_from := [];
     output := None; description := None;
     command_as_str := fun esc => "gcc -c " +:+ esc "$in" +:+ " -o " +:+ esc "$out";
     executor := gcc_compile |}.
Definition link_b : Phase :=
  {| inputs := 4%nat; inputs_from := [FromPhase 2%nat];
     output := Some "b"; description := None;
     command_as_str := fun esc => "gcc " +:+ esc "$in" +:+ " -o " +:+ esc "$out";
     executor := gcc_link |}.
Definition shared_objects (q : PhaseId) : Phase :=
  match q with
  | 0%nat => compile_a
  | 1%nat => link_a
  | 2%nat => compile_b
  | _ => link_b
  end.
Definition shared_lists (i : ListId) : list string :=
  match i with
  | 0%nat => ["/src/a.c"]
  | 2%nat => ["/src/b.c"]
  | 4%nat => ["/lib/rt.o"]
  | _ => []
  end.
Definition shared_project : Project :=
  {| name := "two programs"; file_name := None; version := None;
     variant := None;
     phases := [("compile_a", 0%nat); ("link_a", 1%nat);
                ("compile_b", 2%nat); ("link_b", 3%nat)] |}.
Definition shared_start : State :=
  {| stack := [child]; heap := shared_objects; lists := shared_lists;
     all_phase_outputs := ∅; results := ∅; io := []; written := [] |}.

(** Two compile phases whose names differ in a space against an
    underscore, with the same description and command, and a [link] that
    takes its inputs from both. *)
Definition compile_described (i : ListId) : Phase :=
  {| inputs := i; inputs_from := [];
     output := None; description := Some "CC $out";
     command_as_str := fun esc => "gcc -c " +:+ esc "$in" +:+ " -o " +:+ esc "$out";
     executor := gcc_compile |}.
Definition link_both : Phase :=
  {| inputs := 1%nat; inputs_from := [FromPhase 0%nat; FromPhase 2%nat];
     output := Some "example_1"; description := None;
     command_as_str := fun esc => "gcc " +:+ esc "$in" +:+ " -o " +:+ esc "$out";
     executor := gcc_link |}.
Definition clash_objects (q : PhaseId) : Phase :=
  match q with
  | 0%nat => compile_described 0%nat
  | 1%nat => link_both
  | _ => compile_described 2%nat
  end.
Definition clash_lists (i : ListId) : list string :=
  match i with
  | 0%nat => ["/src/a.c"]
  | 2%nat => ["/src/b.c"]
  | _ => []
  end.
Definition clash_project : Project :=
  {| name := "clash"; file_name := None; version := None; variant := None;
     phases := [("link", 1%nat); ("compile a", 0%nat); ("compile_a", 2%nat)] |}.
Definition clash_start : State :=
  {| stack := [child]; heap := clash_objects; lists := clash_lists;
     all_phase_outputs := ∅; results := ∅; io := []; written := [] |}.

(** A state in which [compile] is written. *)
Definition compiled : State :=
  {| stack := [child]; heap := objects; lists := sources;
     all_phase_outputs := <["compile" := ["/out/obj/a.o"; "/out/obj/b.o"]]> ∅;
     results := ∅; io := []; written := ["compile"] |}.

End Examples.


(** ** contexts.py: the stack of contexts of a thread *)

Module ContextStack.
Import Contexts.

(** [_ContextStack]: the list [_stack], the top at its end. *)
Definition push (s : list Context) (context : Context) : list Context :=
  s ++ [context].
Definition peek (s : list Context) : option Context :=
  if (List.length s =? 0)%nat then None else last s.
Definition pop (s : list Context) : option Context * list Context :=
  if (List.length s =? 0)%nat then (None, s) else (last s, removelast s).

(** [_thread_locals.ronin_context_stack]: [None] while the attribute is not
    set, which the three methods catch as [AttributeError]. *)
Definition _push_thread_local (tl : option (list Context)) (c : Context)
  : option (list Context) :=
  Some (push (default [] tl) c).
Definition _peek_thread_local (tl : option (list Context)) : option Context :=
  match tl with
  | Some s => peek s
  | None => None
  end.
Definition _pop_thread_local (tl : option (list Context))
  : option (list Context) :=
  match tl with
  | Some s => Some (pop s).2
  | None => None
  end.

(** [new_context()]. *)
Definition new_context (tl : option (list Context)) : Context :=
  Context_init (_peek_thread_local tl) false.

(** [current_context(immutable)]. *)
Definition current_context (immutable : bool) (tl : option (list Context))
  : res Context :=
  match _peek_thread_local tl with
  | None => Raise NoContextException
  | Some ctx => Ok (if immutable then Context_init (Some ctx) true else ctx)
  end.

(** [Context.__setattr__(name, value)]: only the three slots can be
    assigned. *)
Definition Context___setattr__ (c : Context) (name : string) : res unit :=
  if bool_decide (name ∉ Context_LOCAL)
  then Raise IncorrectUseOfContextException
  else Ok tt.

End ContextStack.

(** ** The escapes of ninja.py, character by character *)

Module Escapes.

(** Every [o] of [s] replaced by [new]: what [s.replace(o, new)] comes to
    for a one-character [o]. *)
Fixpoint subst_char (o : ascii) (new : string) (s : string) : string :=
  match s with
  | EmptyString => EmptyString
  | String a s' =>
      if Ascii.eqb a o then (new +:+ subst_char o new s')
      else String a (subst_char o new s')
  end.

(** A ['$'] before every space and every colon. *)
Fixpoint escape_path (s : string) : string :=
  match s with
  | EmptyString => EmptyString
  | String a s' =>
      if Ascii.eqb a " " then String "$" (String " " (escape_path s'))
      else if Ascii.eqb a ":" then String "$" (String ":" (escape_path s'))
      else String a (escape_path s')
  end.

End Escapes.

(** ** pkg_config/__init__.py *)

Module PkgConfig.
Import Contexts Ninja.

Definition DEFAULT_PKG_CONFIG_COMMAND : string := "pkg-config".

(** [configure_pkg_config(command, path)]. *)
Definition configure_pkg_config (command path : Value) : M unit :=
  with_current_context false (
    on_ctx (fun ctx =>
      Contexts.write ctx "pkg_config" "command"
        (if truthy command then command
         else VStr DEFAULT_PKG_CONFIG_COMMAND));;
    on_ctx (fun ctx => Contexts.write ctx "pkg_config" "path" path)).

(** The executors are not among the sources: a call made on the executor
    is recorded with its arguments. *)
Inductive call :=
| add_include_path (path : string)
| define (name : string) (value : option string)
| add_library_path (path : string)
| add_library (name : string).

(** [add_cflags_to_executor(executor, args)]: the calls made on the
    executor, in order, and how the loop ends. *)
Fixpoint add_cflags_to_executor (args : list string) : list call * res unit :=
  match args with
  | [] => ([], Ok tt)
  | value :: args' =>
      if Str.startswith value "-I" then
        let '(calls, r) := add_cflags_to_executor args' in
        (add_include_path (Str.from value 2) :: calls, r)
      else if Str.startswith value "-D" then
        let value := Str.from value 2 in
        if contains "=" value then
          match split value "=" 2 with
          | [k; v] =>
              let '(calls, r) := add_cflags_to_executor args' in
              (define k (Some v) :: calls, r)
          | _ => ([], Raise ValueError)
          end
        else
          let '(calls, r) := add_cflags_to_executor args' in
          (define value None :: calls, r)
      else add_cflags_to_executor args'
  end.

(** [add_libs_to_executor(executor, args)]. *)
Fixpoint add_libs_to_executor (args : list string) : list call :=
  match args with
  | [] => []
  | value :: args' =>
      if Str.startswith value "-L" then
        add_library_path (Str.from value 2) :: add_libs_to_executor args'
      else if Str.startswith value "-l" then
        add_library (Str.from value 2) :: add_libs_to_executor args'
      else add_libs_to_executor args'
  end.

(** The first block of [Package._parse]: the command and the path handed
    to [which] and [stringify], for a package built with [command] and
    [path] when the environment holds [PKG_CONFIG] or not. *)
Definition parse_settings (command path : Value) (PKG_CONFIG : option string)
  : M (Value * Value) :=
  with_current_context true (
    let default := default DEFAULT_PKG_CONFIG_COMMAND PKG_CONFIG in
    pkg_config_command ← on_ctx (fun ctx =>
      Contexts.fallback ctx command "pkg_config.command" (VStr default));
    pkg_config_path ← on_ctx (fun ctx =>
      Contexts.fallback ctx path "pkg_config.path" VNone);
    mret (pkg_config_command, pkg_config_path)).

(** The flags [Package.apply_to_executor_gcc_link] passes to [_parse]. *)
Definition link_flags (static : Value) : list string :=
  ["--libs"] ++ (if truthy static then ["--static"] else []).

End PkgConfig.

(** ** Contexts whose namespace names are attribute names *)

Module Names.
Import Contexts.

(** No namespace of the chain has a dot in its name: the namespaces were
    reached as attributes, [ctx.name], or through [get]. *)
Fixpoint plain_names (c : Context) : Prop :=
  map_Forall (fun n (_ : Namespace) => contains "." n = false) (_namespaces c)
  ∧ match _parent c with
    | Some p => plain_names p
    | None => True
    end.

End Names.
(** * Properties *)

Ltac by_compute := apply (bool_decide_unpack _); vm_compute; exact I.

Section ContextFacts.
Import Contexts.

Lemma wfb_wf c : wfb c = true -> wf c.
Proof.
  induction c as [imm nss|p imm nss IH] using chain_ind; simpl;
    rewrite andb_true_iff, bool_decide_eq_true; intuition.
Qed.

Lemma slots_ok_init n : slots_ok n (Namespace_init n).
Proof. split; reflexivity. Qed.

(** The namespace a context answers with is well formed whether it was
    registered or is created on the spot. *)
Lemma slots_ok_default (nss : gmap string Namespace) n :
  map_Forall slots_ok nss ->
  slots_ok n (default (Namespace_init n) (nss !! n)).
Proof.
  intros H. destruct (nss !! n) as [ns|] eqn:E; simpl.
  - exact (H _ _ E).
  - apply slots_ok_init.
Qed.

Lemma default_register (nss : gmap string Namespace) n n' :
  default (Namespace_init n')
    ((match nss !! n with
      | Some _ => nss
      | None => <[n := default (Namespace_init n) (nss !! n)]> nss
      end) !! n')
  = default (Namespace_init n') (nss !! n').
Proof.
  destruct (nss !! n) eqn:E; [done|].
  destruct (decide (n = n')) as [->|Hne].
  - by rewrite lookup_insert_eq, E.
  - by rewrite lookup_insert_ne.
Qed.

Lemma wf_register (nss : gmap string Namespace) n :
  map_Forall slots_ok nss ->
  map_Forall slots_ok (match nss !! n with
                       | Some _ => nss
                       | None => <[n := default (Namespace_init n) (nss !! n)]> nss
                       end).
Proof.
  intros H. destruct (nss !! n) eqn:E; [done|].
  apply map_Forall_insert_2; [apply slots_ok_init|done].
Qed.

(** What [read] returns and what it leaves behind. *)
Lemma read_spec c n key :
  wf c -> n ∉ Context_attrs -> key ∉ Namespace_class_attrs ->
  (read c n key).1 =
    match nearest c n key with
    | Some v => Ok v
    | None => Raise (NotInContextException key)
    end
  ∧ wf (read c n key).2
  ∧ _immutable (read c n key).2 = _immutable c
  ∧ (∀ n' k', local (read c n key).2 n' k' = local c n' k')
  ∧ (∀ n' k', nearest (read c n key).2 n' k' = nearest c n' k').
Proof.
  intros Hwf Hn Hkey. revert Hwf.
  assert (HL : n ∉ Context_LOCAL).
  { intros HL. apply Hn. unfold Context_attrs. apply elem_of_app. by left. }
  induction c as [imm nss|p imm nss IH] using chain_ind; intros [Hns Hp];
    cbn [_namespaces _parent] in Hns, Hp; cbn [read];
    rewrite (bool_decide_eq_false_2 _ Hn), (bool_decide_eq_false_2 _ HL),
      (bool_decide_eq_false_2 _ Hkey);
    pose proof (slots_ok_default nss n Hns) as [Hname Hctx];
    cbn [nearest _parent]; unfold local at 1; cbn [_namespaces];
    (destruct (default (Namespace_init n) (nss !! n) !! key) as [v|] eqn:Ek;
     [|assert (HkL : key ∉ Namespace_LOCAL);
       [unfold Namespace_LOCAL; intros HkL;
        apply elem_of_cons in HkL as [->|HkL]; [congruence|];
        apply list_elem_of_singleton in HkL as ->; congruence|];
       rewrite (bool_decide_eq_false_2 _ HkL), Hctx]).
  1,2,3: cbn [fst snd _immutable];
    (split; [done|]; split; [split; [by apply wf_register|done]|];
     split; [done|]; split; intros; cbn [nearest _parent]; unfold local;
     cbn [_namespaces]; by rewrite default_register).
  rewrite Hname. specialize (IH Hp) as (IH1 & IH2 & IH3 & IH4 & IH5).
  destruct (read p n key) as [r p'] eqn:Er. cbn [fst snd _immutable] in *.
  split; [done|]; split; [split; [by apply wf_register|done]|].
  split; [done|]; split; intros; cbn [nearest _parent]; unfold local;
    cbn [_namespaces]; rewrite default_register; [done|].
  by rewrite IH5.
Qed.

Lemma agree_refl c : agree c c.
Proof.
  induction c as [imm nss|p imm nss IH] using chain_ind; simpl; auto.
Qed.

Lemma agree_trans c1 c2 c3 : agree c1 c2 -> agree c2 c3 -> agree c1 c3.
Proof.
  revert c2 c3.
  induction c1 as [imm nss|p imm nss IH] using chain_ind;
    intros [[p2|] i2 n2] [[p3|] i3 n3]; simpl;
    intros (? & H12 & ?) (? & H23 & ?); try done;
    (split; [congruence|]; split; [intros; by rewrite H12, H23|]); eauto.
Qed.

Lemma agree_nearest c c' n k : agree c c' -> nearest c n k = nearest c' n k.
Proof.
  revert c'.
  induction c as [imm nss|p imm nss IH] using chain_ind;
    intros [[p'|] i' n']; simpl; intros (_ & Hl & Hp); try done;
    rewrite Hl; [done|]. by rewrite (IH _ Hp).
Qed.

(** A read leaves a chain that agrees with the one it started from. *)
Lemma read_agree c n key :
  wf c -> n ∉ Context_attrs -> key ∉ Namespace_class_attrs ->
  agree c (read c n key).2.
Proof.
  intros Hwf Hn Hkey. revert Hwf.
  assert (HL : n ∉ Context_LOCAL).
  { intros HL. apply Hn. unfold Context_attrs. apply elem_of_app. by left. }
  induction c as [imm nss|p imm nss IH] using chain_ind; intros [Hns Hp];
    cbn [_namespaces _parent] in Hns, Hp; cbn [read];
    rewrite (bool_decide_eq_false_2 _ Hn), (bool_decide_eq_false_2 _ HL),
      (bool_decide_eq_false_2 _ Hkey);
    pose proof (slots_ok_default nss n Hns) as [Hname Hctx];
    (destruct (default (Namespace_init n) (nss !! n) !! key) as [v|] eqn:Ek;
     [|assert (HkL : key ∉ Namespace_LOCAL);
       [unfold Namespace_LOCAL; intros HkL;
        apply elem_of_cons in HkL as [->|HkL]; [congruence|];
        apply list_elem_of_singleton in HkL as ->; congruence|];
       rewrite (bool_decide_eq_false_2 _ HkL), Hctx]).
  1,2,3: cbn [snd agree _immutable _parent];
    (split; [done|]; split; [|try done; apply agree_refl];
     intros; unfold local; cbn [_namespaces]; by rewrite default_register).
  rewrite Hname. specialize (IH Hp).
  destruct (read p n key) as [r p'] eqn:Er.
  cbn [snd agree _immutable _parent] in *.
  split; [done|]; split; [|done].
  intros; unfold local; cbn [_namespaces]; by rewrite default_register.
Qed.

(** *** Dotted names *)

Lemma str_app_nil (k : string) : "" +:+ k = k.
Proof. reflexivity. Qed.

Lemma str_app_cons x (s k : string) : String x s +:+ k = String x (s +:+ k).
Proof. reflexivity. Qed.

Lemma str_app_empty_r (s : string) : s +:+ "" = s.
Proof.
  induction s as [|x s IH]; [done|]. by rewrite str_app_cons, IH.
Qed.

Lemma str_app_snoc (s : string) x k :
  (s +:+ String x "") +:+ k = s +:+ String x k.
Proof.
  induction s as [|y s IH]; [done|]. by rewrite !str_app_cons, IH.
Qed.

Lemma contains_app ch a b :
  contains ch (a +:+ b) = contains ch a || contains ch b.
Proof.
  induction a as [|x a IH]; [done|].
  rewrite str_app_cons. cbn [contains]. by rewrite IH, orb_assoc.
Qed.

Lemma split_go_plain sep m acc k :
  contains sep k = false -> split_go sep m acc k = [acc +:+ k].
Proof.
  revert acc. induction k as [|x k IH]; intros acc Hk; cbn [split_go].
  - by rewrite str_app_empty_r.
  - cbn [contains] in Hk. apply orb_false_iff in Hk as [Hx Hk].
    destruct m as [|m]; [done|]. rewrite Hx, IH by done.
    by rewrite str_app_snoc.
Qed.

Lemma split_go_sep sep m acc a rest :
  contains sep a = false ->
  split_go sep (S m) acc (a +:+ String sep rest)
  = (acc +:+ a) :: split_go sep m "" rest.
Proof.
  revert acc. induction a as [|x a IH]; intros acc Ha.
  - rewrite str_app_nil. cbn [split_go].
    by rewrite Ascii.eqb_refl, str_app_empty_r.
  - cbn [contains] in Ha. apply orb_false_iff in Ha as [Hx Ha].
    rewrite str_app_cons. cbn [split_go].
    rewrite Hx, IH by done. by rewrite str_app_snoc.
Qed.

Lemma split_dotted n key :
  contains "." n = false -> contains "." key = false ->
  contains "." (n +:+ "." +:+ key) = true
  ∧ split (n +:+ "." +:+ key) "." 2 = [n; key].
Proof.
  intros Hn Hk. split.
  - rewrite contains_app. change ("." +:+ key) with (String "." key).
    cbn [contains]. by rewrite Ascii.eqb_refl, orb_true_r.
  - unfold split. change ("." +:+ key) with (String "." key).
    rewrite split_go_sep by done. rewrite str_app_nil.
    by rewrite split_go_plain.
Qed.

Lemma split_two_dots a b rest :
  contains "." a = false -> contains "." b = false ->
  contains "." (a +:+ "." +:+ b +:+ "." +:+ rest) = true
  ∧ split (a +:+ "." +:+ b +:+ "." +:+ rest) "." 2 = [a; b; rest].
Proof.
  intros Ha Hb.
  change ("." +:+ b +:+ "." +:+ rest) with (String "." (b +:+ String "." rest)).
  split.
  - rewrite contains_app. cbn [contains].
    by rewrite Ascii.eqb_refl, orb_true_r.
  - unfold split. rewrite split_go_sep by done.
    rewrite split_go_sep by done. rewrite !str_app_nil.
    by destruct rest.
Qed.

(** [get] on a well-formed dotted name: the nearest value or the default. *)
Lemma get_spec c n key d :
  wf c -> n ∉ Context_attrs -> key ∉ Namespace_class_attrs ->
  contains "." n = false -> contains "." key = false ->
  (get c (n +:+ "." +:+ key) d).1 = Ok (default d (nearest c n key))
  ∧ wf (get c (n +:+ "." +:+ key) d).2
  ∧ agree c (get c (n +:+ "." +:+ key) d).2.
Proof.
  intros Hwf Hn Hkey Hdn Hdk.
  destruct (split_dotted n key Hdn Hdk) as [Hc Hs].
  destruct (read_spec c n key Hwf Hn Hkey) as (H1 & H2 & _).
  pose proof (read_agree c n key Hwf Hn Hkey) as H3.
  unfold get. rewrite Hc, Hs. simpl negb. cbv iota.
  destruct (read c n key) as [r c'] eqn:Er. cbn [fst snd] in *. subst r.
  destruct (nearest c n key); cbn [fst snd default]; done.
Qed.

(** C1: in a chain of nested contexts a namespace attribute read resolves
    to the nearest context that holds the key.  The read gives the value
    found by walking from the context to the root; a value the context holds
    itself shadows those of its ancestors; a key only an ancestor holds is
    answered from the ancestor; and [get] on a key no context of the chain
    holds returns the default it was given and does not raise. *)
Theorem C1_read_resolves_to_nearest (c : Context) (n key : string) (d : Value)
  (Hwf : wf c) (Hn : n ∉ Context_attrs) (Hkey : key ∉ Namespace_class_attrs)
  (Hdn : contains "." n = false) (Hdk : contains "." key = false) :
  (read c n key).1 =
    match nearest c n key with
    | Some v => Ok v
    | None => Raise (NotInContextException key)
    end
  ∧ (∀ v, local c n key = Some v -> (read c n key).1 = Ok v)
  ∧ (∀ p v, _parent c = Some p -> local c n key = None ->
            nearest p n key = Some v -> (read c n key).1 = Ok v)
  ∧ (nearest c n key = None -> (get c (n +:+ "." +:+ key) d).1 = Ok d)
  ∧ (∀ v, nearest c n key = Some v -> (get c (n +:+ "." +:+ key) d).1 = Ok v).
Proof.
  destruct (read_spec c n key Hwf Hn Hkey) as (H1 & _).
  destruct (get_spec c n key d Hwf Hn Hkey Hdn Hdk) as (G1 & _).
  split; [done|]. split; [|split; [|split]].
  - intros v Hv. rewrite H1. destruct c; cbn [nearest]. by rewrite Hv.
  - intros p v Hp Hl Hv. rewrite H1. destruct c as [q imm nss].
    cbn [nearest _parent] in *. rewrite Hl. subst q. by rewrite Hv.
  - intros Hnone. by rewrite G1, Hnone.
  - intros v Hv. by rewrite G1, Hv.
Qed.

(** C5: [get] splits the name with [split('.', 2)] and unpacks two names,
    so a name with two dots or more raises [ValueError] instead of giving
    the default. *)
Theorem C5_get_two_dots_raises (c : Context) (a b rest : string) (d : Value)
  (Ha : contains "." a = false) (Hb : contains "." b = false) :
  get c (a +:+ "." +:+ b +:+ "." +:+ rest) d = (Raise ValueError, c).
Proof.
  destruct (split_two_dots a b rest Ha Hb) as [Hc Hs].
  unfold get. by rewrite Hc, Hs.
Qed.

(** A name without a dot gives the default. *)
Lemma get_no_dot c name d :
  contains "." name = false -> get c name d = (Ok d, c).
Proof. intros H. unfold get. by rewrite H. Qed.

(** *** Writing *)


(** [_Namespace.__setattr__] on an immutable context: the check precedes
    the store, so nothing is written. *)
Lemma write_immutable_refused (c : Context) (n key : string) (v : Value)
  (Hwf : wf c) (Himm : _immutable c = true) (Hn : n ∉ Context_attrs)
  (Hkey : key ∉ Namespace_LOCAL) :
  (write c n key v).1 = Raise ImmutableContextException
  ∧ (∀ n' k', local (write c n key v).2 n' k' = local c n' k')
  ∧ (∀ n' k', nearest (write c n key v).2 n' k' = nearest c n' k')
  ∧ _parent (write c n key v).2 = _parent c
  ∧ _immutable (write c n key v).2 = true.
Proof.
  assert (HL : n ∉ Context_LOCAL).
  { intros HL. apply Hn. unfold Context_attrs. apply elem_of_app. by left. }
  destruct c as [p imm nss]. cbn [_immutable] in Himm. subst imm.
  destruct Hwf as [Hns Hp]. cbn [_namespaces] in Hns.
  unfold write, Context_getattr, Context___getattr__.
  rewrite (bool_decide_eq_false_2 _ Hn), (bool_decide_eq_false_2 _ HL).
  cbn [_namespaces _parent _immutable].
  rewrite (bool_decide_eq_false_2 _ Hkey).
  destruct (nss !! n) as [ns|] eqn:E.
  - destruct (Hns _ _ E) as [_ Hctx]. rewrite Hctx. cbn. done.
  - destruct (slots_ok_init n) as [_ Hctx]. rewrite Hctx.
    cbn [_immutable fst snd _parent].
    split; [done|]. split; [|split; [|done]].
    + intros n' k'. unfold local. cbn [_namespaces].
      destruct (decide (n = n')) as [->|Hne].
      * by rewrite lookup_insert_eq, E.
      * by rewrite lookup_insert_ne.
    + intros n' k'. cbn [nearest _parent]. unfold local. cbn [_namespaces].
      destruct (decide (n = n')) as [->|Hne].
      * by rewrite lookup_insert_eq, E.
      * by rewrite lookup_insert_ne.
Qed.


End ContextFacts.

Section SettingsFacts.
Import Contexts Projects Ninja.

(** Running a sequence of steps. *)
Lemma bind_Ok {A B} (m : M A) (k : A -> M B) st a st' :
  m st = Ok (a, st') -> (m ≫= k) st = k a st'.
Proof. intros H. unfold mbind, M_bind. by rewrite H. Qed.

Lemma bind_Raise {A B} (m : M A) (k : A -> M B) st e :
  m st = Raise e -> (m ≫= k) st = Raise e.
Proof. intros H. unfold mbind, M_bind. by rewrite H. Qed.

Lemma bind_inv {A B} (m : M A) (k : A -> M B) st b st' :
  (m ≫= k) st = Ok (b, st') ->
  ∃ a st1, m st = Ok (a, st1) ∧ k a st1 = Ok (b, st').
Proof.
  unfold mbind, M_bind. destruct (m st) as [[a st1]| | |]; try done. eauto.
Qed.

(** The state with its stack replaced. *)
Lemma set_stack_eq f st : set_stack f st = set_stack (fun _ => f (stack st)) st.
Proof. reflexivity. Qed.

Lemma set_top_snoc c (l : list Context) x : set_top c (l ++ [x]) = l ++ [c].
Proof.
  unfold set_top. rewrite removelast_last. by destruct l.
Qed.

Lemma on_ctx_snoc {A} (f : Context -> res A * Context) st l c :
  stack st = l ++ [c] ->
  on_ctx f st =
    (a ← (f c).1; Ok (a, set_stack (fun _ => l ++ [(f c).2]) st)).
Proof.
  intros Hst. unfold on_ctx. rewrite Hst, last_snoc.
  destruct (f c) as [r c']. cbn [fst snd].
  destruct r; cbn; try done. f_equal. f_equal.
  unfold set_stack. by rewrite Hst, set_top_snoc.
Qed.

(** A fresh immutable child answers every key of a namespace from its
    parent. *)
Lemma nearest_child top n key :
  key ∉ Namespace_LOCAL ->
  nearest (Context_init (Some top) true) n key = nearest top n key.
Proof.
  intros Hk. cbn [nearest Context_init _parent]. unfold local.
  cbn [_namespaces]. rewrite lookup_empty. cbn [default].
  unfold Namespace_init.
  rewrite lookup_insert_ne, lookup_insert_ne, lookup_empty; [done|..];
    intros <-; apply Hk; unfold Namespace_LOCAL; repeat constructor.
Qed.

Lemma wf_child top : wf top -> wf (Context_init (Some top) true).
Proof. intros H. split; [apply map_Forall_empty|done]. Qed.

Lemma agree_child top c' :
  agree (Context_init (Some top) true) c' -> wf c' ->
  ∃ top', _parent c' = Some top' ∧ agree top top' ∧ wf top'.
Proof.
  destruct c' as [[p'|] i' n']; simpl; intros (_ & _ & Hp) [_ Hwf]; [|done].
  eauto.
Qed.

(** [ctx.get(name, default)] inside a [with] block. *)
Lemma on_ctx_get st l c n key d :
  stack st = l ++ [c] -> wf c ->
  n ∉ Context_attrs -> key ∉ Namespace_class_attrs ->
  contains "." n = false -> contains "." key = false ->
  ∃ c', on_ctx (fun ctx => get ctx (n +:+ "." +:+ key) d) st
        = Ok (default d (nearest c n key), set_stack (fun _ => l ++ [c']) st)
        ∧ wf c' ∧ agree c c'.
Proof.
  intros Hst Hwf Hn Hk Hdn Hdk.
  destruct (get_spec c n key d Hwf Hn Hk Hdn Hdk) as (H1 & H2 & H3).
  exists (get c (n +:+ "." +:+ key) d).2. split; [|done].
  rewrite (on_ctx_snoc _ st l c Hst), H1. reflexivity.
Qed.

(** Leaving a [with current_context()] block. *)
Lemma with_current_true {A} (body : M A) st l top a st' c' top' :
  stack st = l ++ [top] ->
  body (set_stack (fun _ => (l ++ [top]) ++ [Context_init (Some top) true]) st)
    = Ok (a, st') ->
  stack st' = (l ++ [top]) ++ [c'] -> _parent c' = Some top' ->
  with_current_context true body st
    = Ok (a, set_stack (fun _ => l ++ [top']) st').
Proof.
  intros Hst Hb Hst' Hp. unfold with_current_context.
  rewrite Hst, last_snoc. cbn [mbind].
  replace (set_stack (λ l0 : list Context, l0 ++ [Context_init (Some top) true]) st)
    with (set_stack (λ _, (l ++ [top]) ++ [Context_init (Some top) true]) st)
    by (unfold set_stack; by rewrite Hst).
  rewrite Hb. cbn. rewrite Hst', last_snoc, Hp. cbn [default].
  f_equal. f_equal. unfold set_stack. cbn.
  by rewrite Hst', removelast_last, set_top_snoc.
Qed.

Lemma with_current_fail {A} (body : M A) st l top :
  stack st = l ++ [top] ->
  (∀ a st', body (set_stack (fun _ => (l ++ [top]) ++ [Context_init (Some top) true]) st)
            ≠ Ok (a, st')) ->
  outcome (with_current_context true body st)
  = outcome (body (set_stack (fun _ => (l ++ [top]) ++ [Context_init (Some top) true]) st)).
Proof.
  intros Hst Hb. unfold with_current_context.
  rewrite Hst, last_snoc. cbn [mbind].
  replace (set_stack (λ l0 : list Context, l0 ++ [Context_init (Some top) true]) st)
    with (set_stack (λ _, (l ++ [top]) ++ [Context_init (Some top) true]) st)
    by (unfold set_stack; by rewrite Hst).
  destruct (body _) as [[a st']| | |] eqn:E; try done.
  by destruct (Hb a st').
Qed.

Lemma write_settings_spec nf st l top :
  stack st = l ++ [top] -> wf top ->
  nf_columns nf = VNone -> nf_strict nf = VNone ->
  ∃ top', write_settings nf st
          = Ok (settings_from top, set_stack (fun _ => l ++ [top']) st)
          ∧ wf top' ∧ agree top top'.
Proof.
  intros Hst Hwf Hc Hs. unfold write_settings. rewrite Hc, Hs.
  cbn [fallback].
  set (st1 := set_stack (fun _ => (l ++ [top]) ++ [Context_init (Some top) true]) st).
  destruct (on_ctx_get st1 (l ++ [top]) (Context_init (Some top) true)
              "ninja" "file_columns" (VInt DEFAULT_COLUMNS) eq_refl
              (wf_child _ Hwf) ltac:(by_compute) ltac:(by_compute) eq_refl eq_refl)
    as (c1 & E1 & Hwf1 & Ha1).
  set (st2 := set_stack (fun _ => (l ++ [top]) ++ [c1]) st1) in E1.
  destruct (on_ctx_get st2 (l ++ [top]) c1
              "ninja" "file_columns_strict" (VBool false) eq_refl
              Hwf1 ltac:(by_compute) ltac:(by_compute) eq_refl eq_refl)
    as (c2 & E2 & Hwf2 & Ha2).
  destruct (agree_child top c2 (agree_trans _ _ _ Ha1 Ha2) Hwf2)
    as (top' & Hp & Hat & Hwt).
  exists top'. split; [|done].
  rewrite (with_current_true _ st l top (settings_from top)
             (set_stack (fun _ => (l ++ [top]) ++ [c2]) st2) c2 top' Hst);
    [reflexivity| |reflexivity|exact Hp].
  fold st1.
  change ("ninja.file_columns") with ("ninja" +:+ "." +:+ "file_columns").
  rewrite (bind_Ok _ _ _ _ _ E1).
  change ("ninja.file_columns_strict") with ("ninja" +:+ "." +:+ "file_columns_strict").
  rewrite (bind_Ok _ _ _ _ _ E2). unfold mret, M_ret.
  unfold settings_from.
  rewrite <- (agree_nearest _ _ "ninja" "file_columns_strict" Ha1).
  rewrite !nearest_child by by_compute.
  reflexivity.
Qed.

(** A write on a well-formed context: refused when the context is
    immutable, stored in the namespace of the context itself otherwise. *)
Lemma write_spec c n key v :
  wf c -> n ∉ Context_attrs ->
  key ∉ Namespace_LOCAL -> key ∉ Namespace_class_attrs ->
  if _immutable c
  then (Contexts.write c n key v).1 = Raise ImmutableContextException
  else (Contexts.write c n key v).1 = Ok tt
       ∧ wf (Contexts.write c n key v).2
       ∧ _immutable (Contexts.write c n key v).2 = false
       ∧ _parent (Contexts.write c n key v).2 = _parent c
       ∧ (∀ n' k', local (Contexts.write c n key v).2 n' k' =
                   if bool_decide (n' = n ∧ k' = key) then Some v
                   else local c n' k').
Proof.
  intros Hwf Hn HkL Hkc.
  destruct (_immutable c) eqn:Himm.
  { by destruct (write_immutable_refused c n key v Hwf Himm Hn HkL). }
  assert (HL : n ∉ Context_LOCAL).
  { intros HL. apply Hn. unfold Context_attrs. apply elem_of_app. by left. }
  destruct c as [p imm nss]. cbn [_immutable] in Himm. subst imm.
  destruct Hwf as [Hns Hp]. cbn [_namespaces _parent] in Hns, Hp.
  unfold Contexts.write, Context_getattr, Context___getattr__.
  rewrite (bool_decide_eq_false_2 _ Hn), (bool_decide_eq_false_2 _ HL).
  cbn [_namespaces _parent _immutable].
  rewrite (bool_decide_eq_false_2 _ HkL), (bool_decide_eq_false_2 _ Hkc).
  assert (Hslot : ∀ ns, slots_ok n ns -> slots_ok n (<[key := v]> ns)).
  { intros ns [H1 H2]. split; rewrite lookup_insert_ne; try done;
      intros ->; apply HkL; unfold Namespace_LOCAL; repeat constructor. }
  destruct (nss !! n) as [ns|] eqn:E.
  - destruct (Hns _ _ E) as [Hname Hctx]. rewrite Hctx.
    cbn [_immutable fst snd _parent _namespaces].
    split; [done|]. split; [|split; [done|split; [done|]]].
    + split; [|done]. cbn [_namespaces].
      apply map_Forall_insert_2; [|done]. apply Hslot. by split.
    + intros n' k'. unfold local. cbn [_namespaces].
      case_bool_decide as Hd.
      * destruct Hd as [-> ->]. rewrite lookup_insert_eq. cbn [from_option id]. by rewrite lookup_insert_eq.
      * destruct (decide (n = n')) as [<-|Hne].
        -- rewrite lookup_insert_eq, E. cbn [from_option id].
           rewrite lookup_insert_ne; [done|]. intros <-. by apply Hd.
        -- by rewrite lookup_insert_ne.
  - destruct (slots_ok_init n) as [Hname Hctx]. rewrite Hctx.
    cbn [_immutable fst snd _parent _namespaces].
    split; [done|]. split; [|split; [done|split; [done|]]].
    + split; [|done]. cbn [_namespaces].
      apply map_Forall_insert_2.
      * apply Hslot, slots_ok_init.
      * apply map_Forall_insert_2; [apply slots_ok_init|done].
    + intros n' k'. unfold local. cbn [_namespaces].
      case_bool_decide as Hd.
      * destruct Hd as [-> ->]. rewrite lookup_insert_eq. cbn [from_option id]. by rewrite lookup_insert_eq.
      * destruct (decide (n = n')) as [<-|Hne].
        -- rewrite lookup_insert_eq, E. cbn [from_option id].
           rewrite lookup_insert_ne; [done|]. intros <-. by apply Hd.
        -- by rewrite !lookup_insert_ne.
Qed.

Lemma nearest_unfold c n k :
  nearest c n k = match local c n k with
                  | Some v => Some v
                  | None => match _parent c with
                            | Some p => nearest p n k
                            | None => None
                            end
                  end.
Proof. by destruct c. Qed.

Lemma on_ctx_write st l c n key v :
  stack st = l ++ [c] -> wf c -> _immutable c = false ->
  n ∉ Context_attrs -> key ∉ Namespace_LOCAL -> key ∉ Namespace_class_attrs ->
  ∃ c', on_ctx (fun ctx => Contexts.write ctx n key v) st
        = Ok (tt, set_stack (fun _ => l ++ [c']) st)
        ∧ wf c' ∧ _immutable c' = false ∧ _parent c' = _parent c
        ∧ (∀ n' k', local c' n' k' =
                    if bool_decide (n' = n ∧ k' = key) then Some v
                    else local c n' k').
Proof.
  intros Hst Hwf Himm Hn HkL Hkc.
  pose proof (write_spec c n key v Hwf Hn HkL Hkc) as H. rewrite Himm in H.
  destruct H as (H1 & H2).
  exists (Contexts.write c n key v).2. split; [|done].
  rewrite (on_ctx_snoc _ st l c Hst), H1. reflexivity.
Qed.

Lemma with_current_false {A} (body : M A) st l top a st' c' :
  stack st = l ++ [top] ->
  body (set_stack (fun _ => (l ++ [top]) ++ [top]) st) = Ok (a, st') ->
  stack st' = (l ++ [top]) ++ [c'] ->
  with_current_context false body st
    = Ok (a, set_stack (fun _ => l ++ [c']) st').
Proof.
  intros Hst Hb Hst'. unfold with_current_context.
  rewrite Hst, last_snoc. cbn [mbind].
  replace (set_stack (λ l0 : list Context, l0 ++ [top]) st)
    with (set_stack (λ _, (l ++ [top]) ++ [top]) st)
    by (unfold set_stack; by rewrite Hst).
  rewrite Hb. cbn. rewrite Hst', last_snoc.
  f_equal. f_equal. unfold set_stack. cbn.
  by rewrite Hst', removelast_last, set_top_snoc.
Qed.

Lemma with_current_false_Raise {A} (body : M A) st l top e :
  stack st = l ++ [top] ->
  body (set_stack (fun _ => (l ++ [top]) ++ [top]) st) = Raise e ->
  with_current_context false body st = Raise e.
Proof.
  intros Hst Hb. unfold with_current_context.
  rewrite Hst, last_snoc. cbn [mbind].
  replace (set_stack (λ l0 : list Context, l0 ++ [top]) st)
    with (set_stack (λ _, (l ++ [top]) ++ [top]) st)
    by (unfold set_stack; by rewrite Hst).
  by rewrite Hb.
Qed.

(** [configure_ninja] on a mutable context stores its four arguments in the
    namespace [ninja]; the strict argument goes under [file_strict]. *)
Lemma configure_ninja_spec command file_name columns strict st l top :
  stack st = l ++ [top] -> wf top -> _immutable top = false ->
  ∃ top', configure_ninja command file_name columns strict st
          = Ok (tt, set_stack (fun _ => l ++ [top']) st)
          ∧ wf top'
          ∧ nearest top' "ninja" "file_columns" = Some columns
          ∧ nearest top' "ninja" "file_strict" = Some strict
          ∧ nearest top' "ninja" "file_columns_strict"
            = nearest top "ninja" "file_columns_strict".
Proof.
  intros Hst Hwf Himm. unfold configure_ninja.
  set (st0 := set_stack (fun _ => (l ++ [top]) ++ [top]) st).
  destruct (on_ctx_write st0 (l ++ [top]) top "ninja" "command" command
              eq_refl Hwf Himm ltac:(by_compute) ltac:(by_compute) ltac:(by_compute))
    as (c1 & E1 & W1 & I1 & P1 & L1).
  set (st1 := set_stack (fun _ => (l ++ [top]) ++ [c1]) st0) in E1.
  destruct (on_ctx_write st1 (l ++ [top]) c1 "ninja" "file_name" file_name
              eq_refl W1 I1 ltac:(by_compute) ltac:(by_compute) ltac:(by_compute))
    as (c2 & E2 & W2 & I2 & P2 & L2).
  set (st2 := set_stack (fun _ => (l ++ [top]) ++ [c2]) st1) in E2.
  destruct (on_ctx_write st2 (l ++ [top]) c2 "ninja" "file_columns" columns
              eq_refl W2 I2 ltac:(by_compute) ltac:(by_compute) ltac:(by_compute))
    as (c3 & E3 & W3 & I3 & P3 & L3).
  set (st3 := set_stack (fun _ => (l ++ [top]) ++ [c3]) st2) in E3.
  destruct (on_ctx_write st3 (l ++ [top]) c3 "ninja" "file_strict" strict
              eq_refl W3 I3 ltac:(by_compute) ltac:(by_compute) ltac:(by_compute))
    as (c4 & E4 & W4 & I4 & P4 & L4).
  exists c4. split; [|split; [done|]].
  - rewrite (with_current_false _ st l top tt
               (set_stack (fun _ => (l ++ [top]) ++ [c4]) st3) c4 Hst);
      [reflexivity| |reflexivity].
    fold st0.
    rewrite (bind_Ok _ _ _ _ _ E1), (bind_Ok _ _ _ _ _ E2),
      (bind_Ok _ _ _ _ _ E3). exact E4.
  - rewrite !(nearest_unfold c4), !L4, !L3, !L2, !L1, P4, P3, P2, P1.
    rewrite (nearest_unfold top _ "file_columns_strict").
    done.
Qed.

Lemma configure_ninja_immutable command file_name columns strict st l top :
  stack st = l ++ [top] -> wf top -> _immutable top = true ->
  configure_ninja command file_name columns strict st
  = Raise ImmutableContextException.
Proof.
  intros Hst Hwf Himm. unfold configure_ninja.
  apply (with_current_false_Raise _ st l top _ Hst).
  apply bind_Raise.
  rewrite (on_ctx_snoc _ (set_stack (fun _ => (l ++ [top]) ++ [top]) st)
             (l ++ [top]) top eq_refl).
  destruct (write_immutable_refused top "ninja" "command" command Hwf Himm
              ltac:(by_compute) ltac:(by_compute)) as [-> _].
  reflexivity.
Qed.

(** C10: the writer's settings come only from the context keys
    [ninja.file_columns] and [ninja.file_columns_strict].  [NinjaFile.__init__]
    sets [command], [columns] and [strict] to [None] whatever it is given;
    [write] then takes the two settings from the context.  On a mutable
    context [configure_ninja] returns and has stored its strict argument
    under [ninja.file_strict], where it reads back, and left
    [ninja.file_columns_strict] as it was: the strict flag [write] uses
    next is the one the context held before, with the columns just
    stored.  On an immutable context [configure_ninja] raises.  So two
    calls that differ only in the strict argument give the same
    settings. *)
Theorem C10_settings_ignore_arguments (P : Project)
  (command columns strict : Value) (file_name : option string)
  (cmd fn cols s1 s2 : Value) (st : State) (l : list Context) (top : Context)
  (Hst : stack st = l ++ [top]) (Hwf : wf top) :
  let nf := NinjaFile_init P command file_name columns strict in
  let strict0 := default (VBool false)
                   (nearest top "ninja" "file_columns_strict") in
  (nf_command nf = VNone ∧ nf_columns nf = VNone ∧ nf_strict nf = VNone)
  ∧ outcome (write_settings nf st) = Ok (settings_from top)
  ∧ outcome ((configure_ninja cmd fn cols s1 ≫= fun _ => write_settings nf) st)
    = outcome ((configure_ninja cmd fn cols s2 ≫= fun _ => write_settings nf) st)
  ∧ (_immutable top = false ->
     ∃ top', configure_ninja cmd fn cols s1 st
             = Ok (tt, set_stack (fun _ => l ++ [top']) st)
       ∧ nearest top' "ninja" "file_strict" = Some s1
       ∧ nearest top' "ninja" "file_columns" = Some cols
       ∧ nearest top' "ninja" "file_columns_strict"
         = nearest top "ninja" "file_columns_strict"
       ∧ outcome (write_settings nf (set_stack (fun _ => l ++ [top']) st))
         = Ok (clamp_columns cols strict0, strict0))
  ∧ (_immutable top = true ->
     configure_ninja cmd fn cols s1 st = Raise ImmutableContextException).
Proof.
  intros nf strict0. split; [done|]. split; [|split; [|split]].
  - destruct (write_settings_spec nf st l top Hst Hwf eq_refl eq_refl)
      as (top' & -> & _). reflexivity.
  - destruct (_immutable top) eqn:Himm.
    + rewrite !(bind_Raise _ _ _ ImmutableContextException);
        [done|by eapply configure_ninja_immutable..].
    + destruct (configure_ninja_spec cmd fn cols s1 st l top Hst Hwf Himm)
        as (t1 & E1 & W1 & C1 & _ & S1).
      destruct (configure_ninja_spec cmd fn cols s2 st l top Hst Hwf Himm)
        as (t2 & E2 & W2 & C2 & _ & S2).
      rewrite (bind_Ok _ _ _ _ _ E1), (bind_Ok _ _ _ _ _ E2).
      destruct (write_settings_spec nf (set_stack (fun _ => l ++ [t1]) st) l t1
                  eq_refl W1 eq_refl eq_refl)
        as (t1' & -> & _).
      destruct (write_settings_spec nf (set_stack (fun _ => l ++ [t2]) st) l t2
                  eq_refl W2 eq_refl eq_refl)
        as (t2' & -> & _).
      cbn [outcome]. unfold settings_from. by rewrite C1, C2, S1, S2.
  - intros Himm.
    destruct (configure_ninja_spec cmd fn cols s1 st l top Hst Hwf Himm)
      as (t1 & E1 & W1 & C1 & F1 & S1).
    exists t1. split; [exact E1|]. split; [exact F1|]. split; [exact C1|].
    split; [exact S1|].
    destruct (write_settings_spec nf (set_stack (fun _ => l ++ [t1]) st) l t1
                eq_refl W1 eq_refl eq_refl)
      as (t1' & -> & _).
    cbn [outcome]. unfold settings_from. by rewrite C1, S1.
  - intros Himm. by eapply configure_ninja_immutable.
Qed.

End SettingsFacts.

Section OrderedDictFacts.
Import Contexts.

(** *** Ordered dictionaries *)

Lemma od_set_keys r k v :
  (od_set r k v).*1 = if bool_decide (k ∈ r.*1) then r.*1 else r.*1 ++ [k].
Proof.
  induction r as [|[k' v'] r IH]; cbn [od_set fmap list_fmap fst].
  - by rewrite bool_decide_eq_false_2 by apply not_elem_of_nil.
  - destruct (decide (k' = k)) as [->|Hne]; cbn [fmap list_fmap fst].
    + by rewrite bool_decide_eq_true_2 by apply list_elem_of_here.
    + fold (fmap (M:=list) (@fst string Value)). rewrite IH.
      case_bool_decide as H1; case_bool_decide as H2; try done.
      * exfalso. apply H2. by apply list_elem_of_further.
      * exfalso. apply elem_of_cons in H2 as [->|H2]; done.
Qed.

Lemma od_set_get r k v k' :
  od_get (od_set r k v) k' = if decide (k = k') then Some v else od_get r k'.
Proof.
  induction r as [|[k0 v0] r IH]; cbn [od_set od_get].
  - done.
  - destruct (decide (k0 = k)) as [->|Hne]; cbn [od_get].
    + destruct (decide (k = k')); done.
    + rewrite IH. destruct (decide (k0 = k')) as [->|]; [|done].
      by rewrite decide_False by congruence.
Qed.

Lemma od_set_NoDup r k v : NoDup r.*1 -> NoDup (od_set r k v).*1.
Proof.
  intros H. rewrite od_set_keys. case_bool_decide as Hk; [done|].
  apply NoDup_app. split; [done|]. split.
  - intros x Hx ->%list_elem_of_singleton. done.
  - apply NoDup_singleton.
Qed.

Lemma od_update_app r a b : od_update r (a ++ b) = od_update (od_update r a) b.
Proof. unfold od_update. by rewrite foldl_app. Qed.

Lemma od_update_NoDup r items : NoDup r.*1 -> NoDup (od_update r items).*1.
Proof.
  revert r. induction items as [|[k v] items IH]; intros r H; [done|].
  apply IH. by apply od_set_NoDup.
Qed.

Lemma od_update_prefix r items :
  ∃ tail, (od_update r items).*1 = r.*1 ++ tail.
Proof.
  revert r. induction items as [|[k v] items IH]; intros r.
  - exists []. by rewrite app_nil_r.
  - destruct (IH (od_set r k v)) as [tail Ht]. cbn [od_update foldl] in *.
    unfold od_update in Ht. cbn [fst snd]. rewrite Ht, od_set_keys.
    case_bool_decide; [by eexists|]. rewrite <- app_assoc. by eexists.
Qed.

(** The value under a key after an update: the last item with that key,
    or else what was there before. *)
Lemma od_update_get r items k :
  od_get (od_update r items) k =
    match od_get (reverse items) k with
    | Some v => Some v
    | None => od_get r k
    end.
Proof.
  revert r. induction items as [|[k0 v0] items IH]; intros r; [done|].
  cbn [od_update foldl fst snd]. fold (od_update (od_set r k0 v0) items).
  rewrite IH, reverse_cons, od_set_get.
  assert (Happ : ∀ l1 l2, od_get (l1 ++ l2) k =
            match od_get l1 k with Some v => Some v | None => od_get l2 k end).
  { clear. induction l1 as [|[a b] l1 IH1]; intros l2; cbn [app od_get]; [done|].
    destruct (decide (a = k)); [done|apply IH1]. }
  rewrite Happ. destruct (od_get (reverse items) k); [done|].
  cbn [od_get]. destruct (decide (k0 = k)); done.
Qed.

Lemma od_update_nil_NoDup items : NoDup items.*1 -> od_update [] items = items.
Proof.
  assert (H : ∀ r, NoDup (r ++ items).*1 -> od_update r items = r ++ items).
  { induction items as [|[k v] items IH]; intros r Hnd.
    - by rewrite app_nil_r.
    - cbn [od_update foldl fst snd]. fold (od_update (od_set r k v) items).
      assert (Hk : k ∉ r.*1).
      { rewrite fmap_app in Hnd. apply NoDup_app in Hnd as (_ & Hd & _).
        intros Hk. apply (Hd k Hk). cbn. apply list_elem_of_here. }
      assert (Hs : od_set r k v = r ++ [(k, v)]).
      { clear -Hk. induction r as [|[a b] r IHr]; [done|].
        cbn [od_set]. cbn in Hk. rewrite not_elem_of_cons in Hk.
        destruct Hk as [Hak Hk]. rewrite decide_False by done.
        cbn. by rewrite IHr. }
      rewrite Hs, IH; rewrite <- app_assoc; done. }
  intros Hnd. by apply (H []).
Qed.

End OrderedDictFacts.

Section SortingFacts.
Import Contexts.

#[local] Instance key_le_total {A} : Total (@key_le A).
Proof. intros x y. unfold key_le. apply total, _. Qed.
#[local] Instance key_le_trans {A} : Transitive (@key_le A).
Proof. intros x y z. unfold key_le. apply transitivity. Qed.

Lemma sorted_perm {A} (l : list (string * A)) : sorted l ≡ₚ l.
Proof. apply merge_sort_Permutation. Qed.

Lemma sorted_keys_sorted {A} (l : list (string * A)) :
  StronglySorted String.le (sorted l).*1.
Proof.
  pose proof (StronglySorted_merge_sort (@key_le A) l) as H.
  fold (sorted l) in H. induction H as [|x l' H IH Hall]; cbn; constructor.
  - done.
  - apply Forall_fmap. eapply Forall_impl; [exact Hall|]. done.
Qed.

(** The two loops of [Context._all] are one update with the items of the
    context. *)
Lemma Context__all_update c :
  Context__all c = od_update (parent_items c) (local_items c).
Proof.
  destruct c as [p imm nss]. cbn [Context__all]. unfold local_items, parent_items.
  cbn [_parent _namespaces].
  generalize (match p with Some p0 => od_update [] (Context__all p0) | None => [] end).
  induction (sorted (map_to_list nss)) as [|[n ns] l IH]; intros r; [done|].
  cbn [foldl mbind list_bind]. rewrite od_update_app, IH. f_equal.
  cbn [fst snd]. clear. revert r.
  induction (sorted (Namespace__all_local ns)) as [|[k v] items IH]; intros r; [done|].
  cbn [foldl fmap list_fmap od_update fst snd]. apply IH.
Qed.

(** [_all_local] keeps the attributes that are neither slots nor private. *)
Lemma all_local_filter (ns : gmap string Value) :
  Namespace__all_local ns =
    filter (fun kv => (kv.1 ∉ Namespace_LOCAL) ∧ String.prefix "_" kv.1 = false)
           (sorted (map_to_list ns)).
Proof.
  unfold Namespace__all_local.
  assert (Hnd : NoDup (sorted (map_to_list ns)).*1).
  { rewrite sorted_perm. apply NoDup_fst_map_to_list. }
  revert Hnd.
  assert (H : ∀ l r, NoDup (r ++ l).*1 ->
    foldl (fun r kv =>
             if bool_decide (kv.1 ∉ Namespace_LOCAL) && negb (String.prefix "_" kv.1)
             then od_set r kv.1 kv.2 else r) r l
    = r ++ filter (fun kv => (kv.1 ∉ Namespace_LOCAL) ∧ String.prefix "_" kv.1 = false) l).
  { induction l as [|[k v] l IH]; intros r Hnd; cbn [foldl].
    - by rewrite app_nil_r.
    - cbn [fst snd].
      assert (Hk : k ∉ r.*1).
      { rewrite fmap_app in Hnd. apply NoDup_app in Hnd as (_ & Hd & _).
        intros Hk. apply (Hd k Hk). cbn. apply list_elem_of_here. }
      assert (Hnd' : NoDup (r ++ l).*1).
      { rewrite fmap_app in *. cbn in Hnd.
        apply NoDup_app in Hnd as (H1 & H2 & H3). apply NoDup_app.
        split; [done|]. split; [|by inversion H3].
        intros x Hx Hx'. apply (H2 x Hx). by apply list_elem_of_further. }
      destruct (decide ((k ∉ Namespace_LOCAL) ∧ String.prefix "_" k = false)) as [[H1 H2]|Hn].
      + rewrite filter_cons_True by done.
        rewrite (bool_decide_eq_true_2 _ H1), H2. cbn [negb andb].
        assert (Hs : od_set r k v = r ++ [(k, v)]).
        { clear -Hk. induction r as [|[a b] r IHr]; [done|].
          cbn [od_set]. cbn in Hk. rewrite not_elem_of_cons in Hk.
          destruct Hk as [Hak Hk]. rewrite decide_False by done.
          cbn. by rewrite IHr. }
        rewrite Hs, IH.
        * by rewrite <- app_assoc.
        * rewrite <- app_assoc. exact Hnd.
      + rewrite filter_cons_False by done.
        destruct (bool_decide (k ∉ Namespace_LOCAL)) eqn:E1;
          destruct (String.prefix "_" k) eqn:E2; cbn [negb andb];
          try (by apply IH).
        exfalso. apply Hn. split; [|done]. by apply bool_decide_eq_true in E1. }
  intros Hnd. by rewrite (H _ []).
Qed.

Lemma all_local_elem (ns : gmap string Value) k v :
  (k, v) ∈ Namespace__all_local ns ↔
  ns !! k = Some v ∧ (k ∉ Namespace_LOCAL) ∧ String.prefix "_" k = false.
Proof.
  rewrite all_local_filter, list_elem_of_filter, sorted_perm, elem_of_map_to_list.
  cbn [fst]. tauto.
Qed.

End SortingFacts.

Section SerializationFacts.
Import Contexts.

Lemma write_items_lines items lines :
  write_items items = Ok lines -> lines = omap line_of items.
Proof.
  revert lines. induction items as [|[k v] items IH]; intros lines H.
  - cbn in H. by injection H as <-.
  - cbn [write_items] in H. cbn [omap list_omap]. unfold line_of at 1. cbn [fst snd].
    destruct (String.prefix "_" k); cbn [negb] in H.
    + by apply IH.
    + destruct (str_of_Value v) as [sv|]; [|done]. cbn [fmap option_fmap option_map].
      unfold mbind, res_bind in H.
      destruct (write_items items) as [rest| | |]; try done.
      injection H as <-. f_equal. by apply IH.
Qed.

Lemma Context__all_NoDup c : NoDup (Context__all c).*1.
Proof.
  rewrite Context__all_update. apply od_update_NoDup.
  unfold parent_items. destruct (_parent c).
  - apply od_update_NoDup. constructor.
  - constructor.
Qed.

Lemma parent_items_eq c :
  parent_items c = from_option Context__all [] (_parent c).
Proof.
  unfold parent_items. destruct (_parent c) as [p|]; [|done].
  apply od_update_nil_NoDup, Context__all_NoDup.
Qed.

(** C7, as stated, fails: the lines of a chain are not sorted by namespace.
    The child of [chain_z_a] adds the namespace [a] to a parent that holds
    [z]; the parent's line comes first. *)
Lemma C7_lines_not_sorted :
  Context__write chain_z_a
    = Ok ["z.a=1" +:+ String "010" ""; "a.b=2" +:+ String "010" ""]
  ∧ ¬ (∀ c lines, Context__write c = Ok lines -> StronglySorted String.le lines).
Proof.
  assert (H : Context__write chain_z_a
    = Ok ["z.a=1" +:+ String "010" ""; "a.b=2" +:+ String "010" ""])
    by (vm_compute; reflexivity).
  split; [exact H|]. intros Hs. specialize (Hs _ _ H).
  inversion Hs as [|x l _ Hall]; subst.
  apply Forall_cons in Hall as [Hle _]. vm_compute in Hle. exact Hle.
Qed.

(** C7, amended: [Context._all] merges the chain parent first and self
    last by dictionary update.  The items start as the parent's items; the
    context then adds its own, namespace by namespace in increasing name
    order and key by key in increasing order within a namespace, leaving out
    the slots and the keys that start with an underscore.  A key the parent
    already listed keeps its place and takes the child's value; a new key
    goes to the end.  Keys are listed once, and one line [key=value] is
    written per item whose dotted key does not start with an underscore.
    Without a parent the items are exactly the context's own, in their
    sorted order. *)
Theorem C7_serialization_parent_first (c : Context) (lines : list string)
  (Hw : Context__write c = Ok lines) :
  Context__all c = od_update (parent_items c) (local_items c)
  ∧ parent_items c = from_option Context__all [] (_parent c)
  ∧ NoDup (Context__all c).*1
  ∧ (∃ tail, (Context__all c).*1 = (parent_items c).*1 ++ tail)
  ∧ (∀ k, od_get (Context__all c) k =
          match od_get (reverse (local_items c)) k with
          | Some v => Some v
          | None => od_get (parent_items c) k
          end)
  ∧ StronglySorted String.le (sorted (map_to_list (_namespaces c))).*1
  ∧ (∀ ns : gmap string Value,
       StronglySorted String.le (sorted (Namespace__all_local ns)).*1)
  ∧ (∀ (ns : gmap string Value) k v,
       (k, v) ∈ sorted (Namespace__all_local ns) ↔
       ns !! k = Some v ∧ (k ∉ Namespace_LOCAL) ∧ String.prefix "_" k = false)
  ∧ lines = omap line_of (Context__all c)
  ∧ (_parent c = None -> NoDup (local_items c).*1 ->
     Context__all c = local_items c).
Proof.
  split; [apply Context__all_update|].
  split; [apply parent_items_eq|].
  split; [apply Context__all_NoDup|].
  split; [rewrite Context__all_update; apply od_update_prefix|].
  split; [intros k; rewrite Context__all_update; apply od_update_get|].
  split; [apply sorted_keys_sorted|].
  split; [intros ns; apply sorted_keys_sorted|].
  split; [intros ns k v; rewrite sorted_perm; apply all_local_elem|].
  split; [by apply write_items_lines|].
  intros Hp Hnd. rewrite Context__all_update. unfold parent_items.
  rewrite Hp. by apply od_update_nil_NoDup.
Qed.

(** The chain [chain_z_a] serializes, so C7 applies to it. *)
Lemma C7_serialization_witness :
  Context__write chain_z_a
    = Ok ["z.a=1" +:+ String "010" ""; "a.b=2" +:+ String "010" ""]
  ∧ Context__all chain_z_a
    = od_update (parent_items chain_z_a) (local_items chain_z_a).
Proof.
  assert (H : Context__write chain_z_a
    = Ok ["z.a=1" +:+ String "010" ""; "a.b=2" +:+ String "010" ""])
    by (vm_compute; reflexivity).
  split; [exact H|].
  exact (proj1 (C7_serialization_parent_first chain_z_a _ H)).
Defined.

End SerializationFacts.

Section WriterFacts.

(** C4: the writer does break at an escaped space.  [_is_unescaped] stops
    its count of ['$'] at index 1 ([dollar_index > 0]), so a space at index 1
    behind a ['$'] at index 0 counts as un-escaped.  After the first break
    the rest of a build line can start with such a pair, and the next break
    falls on the escaped space: the second string written is the
    indentation, the lone ['$'], and the continuation marker.  This happens
    in non-strict mode (20 columns) and in strict mode (30 columns). *)
Theorem C4_break_at_escaped_space :
  (∀ rest, Writer._is_unescaped ("$ " +:+ rest) 1 = true
           ∧ Writer.spec_escaped ("$ " +:+ rest) 1 = true)
  ∧ Writer.spec_escaped "build out.o: cc $ file_with_space.c" 17 = true
  ∧ Writer.line (Some 20) false "build out.o: cc $ file_with_space.c" 0
    = Some ["build out.o: cc $" +:+ Str.nl;
            "  $ $" +:+ Str.nl;
            "  file_with_space.c" +:+ Str.nl]
  ∧ Writer.line (Some 30) true "build o: cc $ file_with_a_leading_space.c" 0
    = Some ["build o: cc $" +:+ Str.nl;
            "  $ $" +:+ Str.nl;
            "  file_with_a_leading_space.c" +:+ Str.nl].
Proof.
  split; [intros rest; split; reflexivity|].
  split; [reflexivity|]. split; vm_compute; reflexivity.
Qed.

End WriterFacts.

Section InputFacts.
Import Contexts Projects Ninja.

(** The loop of [dedup] against the recursive reading of the spec. *)
Lemma dedup_loop (l r : list string) :
  foldl (fun r v => if bool_decide (v ∈ r) then r else r ++ [v]) r l
  = r ++ filter (fun x => x ∉ r) (spec_dedup l).
Proof.
  revert r. induction l as [|x l IH]; intros r; cbn [foldl spec_dedup].
  - by rewrite app_nil_r.
  - case_bool_decide as Hx.
    + rewrite IH, filter_cons_False by (intros H; by apply H).
      f_equal. rewrite list_filter_filter. apply list_filter_iff.
      intros y. split; [|tauto]. intros Hy. split; [done|]. by intros ->.
    + rewrite IH, filter_cons_True by done. rewrite <- app_assoc. cbn [app].
      f_equal. f_equal. rewrite list_filter_filter. apply list_filter_iff.
      intros y. rewrite elem_of_app, list_elem_of_singleton. tauto.
Qed.

Lemma dedup_spec l : dedup l = spec_dedup l.
Proof.
  unfold dedup. rewrite dedup_loop. cbn [app].
  induction (spec_dedup l) as [|x k IH]; [done|].
  rewrite filter_cons_True by apply not_elem_of_nil. by rewrite IH.
Qed.

Lemma spec_dedup_elem l x : x ∈ spec_dedup l ↔ x ∈ l.
Proof.
  induction l as [|y l IH]; cbn [spec_dedup]; [done|].
  rewrite !elem_of_cons, list_elem_of_filter, IH.
  destruct (decide (x = y)); tauto.
Qed.

Lemma spec_dedup_NoDup l : NoDup (spec_dedup l).
Proof.
  induction l as [|y l IH]; cbn [spec_dedup]; constructor.
  - rewrite list_elem_of_filter. tauto.
  - by apply NoDup_filter.
Qed.

(** The loop [inputs += all_phase_outputs[name]]: the list object of the
    phase grows by the outputs of each named phase, in order; nothing else
    of the state changes. *)
Lemma extend_inputs_lists phase names outs st :
  Forall2 (fun n o => all_phase_outputs st !! n = Some o) names outs ->
  ∃ st', extend_inputs phase names st = Ok (tt, st')
         ∧ heap st' = heap st
         ∧ (∀ i, lists st' i
                 = if decide (i = inputs (heap st phase))
                   then lists st i ++ mjoin outs else lists st i)
         ∧ all_phase_outputs st' = all_phase_outputs st
         ∧ stack st' = stack st ∧ io st' = io st ∧ written st' = written st
         ∧ results st' = results st.
Proof.
  intros H. revert st outs H.
  induction names as [|n names IH]; intros st outs H.
  - apply Forall2_nil_inv_l in H as ->. exists st. split; [done|].
    split; [done|]. split; [|done].
    intros i. cbn. rewrite app_nil_r. by destruct (decide _).
  - apply Forall2_cons_inv_l in H as (o & outs' & Ho & H & ->).
    cbn [extend_inputs]. unfold gets, modify, mbind, M_bind. rewrite Ho.
    match goal with
    | |- context [extend_inputs _ _ ?s] =>
        destruct (IH s outs' H) as (st' & E & Hh & Hl & Ha & Hs & Hio & Hw & Hr)
    end.
    exists st'. rewrite E. split; [done|]. split; [done|]. split; [|done].
    intros i. rewrite Hl. cbn [heap lists set_lists].
    destruct (decide (i = inputs (heap st phase))) as [->|Hne].
    + rewrite fn_lookup_insert. cbn [mjoin list_join].
      by rewrite <- app_assoc.
    + by rewrite fn_lookup_insert_ne.
Qed.

Lemma extend_inputs_spec phase names outs st :
  Forall2 (fun n o => all_phase_outputs st !! n = Some o) names outs ->
  ∃ st', extend_inputs phase names st = Ok (tt, st')
         ∧ inputs_of st' phase = inputs_of st phase ++ mjoin outs
         ∧ all_phase_outputs st' = all_phase_outputs st
         ∧ (∀ q, inputs_from (heap st' q) = inputs_from (heap st q))
         ∧ stack st' = stack st ∧ io st' = io st ∧ written st' = written st
         ∧ results st' = results st.
Proof.
  intros H.
  destruct (extend_inputs_lists phase names outs st H)
    as (st' & E & Hh & Hl & Ha & Hs & Hio & Hw & Hr).
  exists st'. split; [done|]. split.
  - unfold inputs_of. by rewrite Hh, Hl, decide_True.
  - split; [done|]. split; [|done]. intros q. by rewrite Hh.
Qed.

(** X24: the inputs [_write_rule] resolves for a phase are the elements
    the list object of the phase holds when the rule is written, followed
    by the outputs recorded for each input-source phase, in order, with
    only the first occurrence of each value kept; [[a, b, a, c]] gives
    [[a, b, c]]. *)
Theorem X24_resolved_inputs_at_call (st : State) (phase : PhaseId)
  (names : list string) (outs : list (list string))
  (Hn : Forall2 (fun n o => all_phase_outputs st !! n = Some o) names outs) :
  let all := inputs_of st phase ++ mjoin outs in
  outcome (resolve_inputs phase names st) = Ok (spec_dedup all)
  ∧ dedup all = spec_dedup all
  ∧ NoDup (dedup all)
  ∧ (∀ x, x ∈ dedup all ↔ x ∈ all)
  ∧ (∀ a b c : string, a ≠ b -> a ≠ c -> b ≠ c ->
       dedup [a; b; a; c] = [a; b; c]).
Proof.
  intros all.
  destruct (extend_inputs_spec phase names outs st Hn)
    as (st' & E & Hi & _).
  split.
  { unfold resolve_inputs. rewrite (bind_Ok _ _ _ _ _ E).
    unfold gets, mbind, M_bind, mret, M_ret. cbn [outcome].
    by rewrite Hi, dedup_spec. }
  split; [apply dedup_spec|].
  split; [rewrite dedup_spec; apply spec_dedup_NoDup|].
  split; [intros x; rewrite dedup_spec; apply spec_dedup_elem|].
  intros a b c Hab Hac Hbc. rewrite dedup_spec. cbn [spec_dedup].
  rewrite !filter_cons, !filter_nil.
  repeat (rewrite ?decide_True, ?decide_False by congruence;
          rewrite ?filter_cons, ?filter_nil).
  done.
Qed.

(** C9: the resolved inputs are not always the declared inputs of the
    phase followed by the outputs of its input sources.  [inputs += ...]
    extends the list object of the phase in place.  With one list
    [['/lib/rt.o']] bound to the [inputs] of two link phases, the second
    is linked with the object of the first program as well: its declared
    inputs and the outputs of its one input source give
    [/lib/rt.o /out/obj/b.o], the build line written has
    [/lib/rt.o /out/obj/a.o /out/obj/b.o], and after the run the declared
    list holds all three.  And a phase resolved a second time, after the
    outputs of its input source changed, keeps the outputs of the first
    time. *)
Theorem C9_declared_inputs_not_kept :
  (∃ st',
     write Examples.join_path Examples.change_extension Examples.wrap
       Examples.utcnow Examples.shared_project
       (NinjaFile_init Examples.shared_project VNone None VNone VNone) 5
       Examples.shared_start = Ok (tt, st')
     ∧ inputs_of Examples.shared_start 3%nat = ["/lib/rt.o"]
     ∧ inputs_from (heap Examples.shared_start 3%nat) = [FromPhase 2%nat]
     ∧ all_phase_outputs st' !! "compile_b" = Some ["/out/obj/b.o"]
     ∧ spec_dedup (inputs_of Examples.shared_start 3%nat ++ ["/out/obj/b.o"])
       = ["/lib/rt.o"; "/out/obj/b.o"]
     ∧ last (io st')
       = Some ("build /out/bin/b: link_b /lib/rt.o /out/obj/a.o /out/obj/b.o"
               +:+ Str.nl)
     ∧ inputs_of st' 3%nat = ["/lib/rt.o"; "/out/obj/a.o"; "/out/obj/b.o"])
  ∧ (∃ r st1,
       inputs_of Examples.compiled 1%nat = []
       ∧ resolve_inputs 1%nat ["compile"] Examples.compiled = Ok (r, st1)
       ∧ outcome (resolve_inputs 1%nat ["compile"]
                    (set_outputs (<["compile" := ["/out/obj/c.o"]]>) st1))
         = Ok ["/out/obj/a.o"; "/out/obj/b.o"; "/out/obj/c.o"]).
Proof.
  split.
  - eexists. split; [vm_compute; reflexivity|].
    repeat split; vm_compute; reflexivity.
  - eexists _, _. split; [reflexivity|].
    split; [vm_compute; reflexivity|]. vm_compute. reflexivity.
Qed.

End InputFacts.

Section FanOutFacts.
Import Contexts Projects Ninja.

Variable join_path : string -> option string -> string.
Variable change_extension : string -> option string -> string.

Lemma prefix_app (p s : string) : String.prefix p (p +:+ s) = true.
Proof.
  induction p as [|a p IH]; [by destruct s|].
  rewrite str_app_cons. cbn [String.prefix].
  destruct (ascii_dec a a); [done|congruence].
Qed.

Lemma drop_app (p s : string) : Str.drop (String.length p) (p +:+ s) = s.
Proof.
  induction p as [|a p IH]; [by destruct s|].
  rewrite str_app_cons. cbn [String.length Str.drop]. exact IH.
Qed.

Lemma length_app (p s : string) :
  String.length (p +:+ s) = (String.length p + String.length s)%nat.
Proof.
  induction p as [|a p IH]; [done|].
  rewrite str_app_cons. cbn [String.length]. by rewrite IH.
Qed.

Lemma from_app (p s : string) : Str.from (p +:+ s) (Str.len p) = s.
Proof.
  unfold Str.from, Str.bound, Str.len.
  assert (H : (Z.of_nat (String.length p) <? 0)%Z = false)
    by (apply Z.ltb_ge; lia).
  rewrite H.
  rewrite Nat2Z.id, length_app, Nat.min_l by lia. apply drop_app.
Qed.

Lemma strip_root_app (root s : string) : strip_root root (root +:+ s) = s.
Proof.
  unfold strip_root, Str.startswith. by rewrite prefix_app, from_app.
Qed.

(** C8: for an input under the input root, the output of the fan-out mode
    with its output root stripped back off is the input relative to the
    input root with its extension changed. *)
Theorem C8_fan_out_round_trip
  (input_base output_base relative : string) (output_extension : option string)
  (Hjoin : ∀ a b, join_path a (Some b) = a +:+ os_sep +:+ b) :
  let input := input_base +:+ relative in
  let output :=
    fan_out join_path change_extension input_base output_base
      output_extension input in
  Str.startswith input input_base = true
  ∧ output = output_base +:+ os_sep +:+ change_extension relative output_extension
  ∧ strip_root (output_base +:+ os_sep) output
    = change_extension relative output_extension.
Proof.
  intros input output.
  assert (Ho : output = output_base +:+ os_sep
                        +:+ change_extension relative output_extension).
  { subst output input. unfold fan_out, Str.startswith.
    by rewrite prefix_app, from_app, Hjoin. }
  split; [apply prefix_app|]. split; [exact Ho|].
  rewrite Ho.
  replace (output_base +:+ os_sep +:+ change_extension relative output_extension)
    with ((output_base +:+ os_sep) +:+ change_extension relative output_extension).
  - apply strip_root_app.
  - clear. induction output_base as [|a s IH]; [done|].
    by rewrite !str_app_cons, IH.
Qed.

End FanOutFacts.

Section WriterTermination.

Lemma rfind_nat_range ch s stop i :
  Str.rfind_nat ch s stop = Some i -> (i < stop ∧ i < String.length s)%nat.
Proof.
  revert s i. induction stop as [|k IH]; intros [|a s] i H; cbn in H; try done.
  destruct (Str.rfind_nat ch s k) as [j|] eqn:E.
  - injection H as <-. destruct (IH _ _ E). cbn. lia.
  - destruct (Ascii.eqb a ch); [|done]. injection H as <-. cbn. lia.
Qed.

Lemma find_nat_range ch s start i :
  Str.find_nat ch s start = Some i -> (start <= i ∧ i < String.length s)%nat.
Proof.
  revert start i. induction s as [|a s IH]; intros start i H; cbn in H; [done|].
  destruct start as [|k].
  - destruct (Ascii.eqb a ch).
    + injection H as <-. cbn. lia.
    + destruct (Str.find_nat ch s 0) as [j|] eqn:E; [|done].
      injection H as <-. destruct (IH _ _ E). cbn. lia.
  - destruct (Str.find_nat ch s k) as [j|] eqn:E; [|done].
    injection H as <-. destruct (IH _ _ E). cbn. lia.
Qed.

Lemma bound_le len i : (Str.bound len i <= len)%nat.
Proof. unfold Str.bound. destruct (i <? 0)%Z eqn:E; lia. Qed.

Lemma bound_nonneg len i :
  (0 <= i)%Z -> Str.bound len i = Nat.min (Z.to_nat i) len.
Proof.
  intros H. unfold Str.bound.
  destruct (i <? 0)%Z eqn:E; [|done]. apply Z.ltb_lt in E. lia.
Qed.

Lemma rfind_range line ch stop :
  Str.rfind line ch stop = (-1)%Z
  ∨ (0 <= Str.rfind line ch stop
     ∧ Str.rfind line ch stop < Z.of_nat (Str.bound (String.length line) stop))%Z.
Proof.
  unfold Str.rfind.
  destruct (Str.rfind_nat _ _ _) as [i|] eqn:E; [right|by left].
  apply rfind_nat_range in E. lia.
Qed.

Lemma find_range line ch start :
  Str.find line ch start = (-1)%Z
  ∨ (Z.of_nat (Str.bound (String.length line) start) <= Str.find line ch start
     ∧ Str.find line ch start < Z.of_nat (String.length line))%Z.
Proof.
  unfold Str.find.
  destruct (Str.find_nat _ _ _) as [i|] eqn:E; [right|by left].
  apply find_nat_range in E. lia.
Qed.

(** The two searches finish and give [-1] or an index of the line. *)
Lemma first_try_total fuel line space :
  (Str.bound (String.length line) space < fuel)%nat ->
  ∃ r, Writer.first_try fuel line space = Some r
       ∧ (r = (-1)%Z ∨ (0 <= r < Z.of_nat (String.length line))%Z).
Proof.
  revert space. induction fuel as [|f IH]; intros space Hf; [lia|].
  cbn [Writer.first_try].
  pose proof (bound_le (String.length line) space) as Hb.
  destruct (rfind_range line " " space) as [Hr|Hr].
  - rewrite Hr. cbn. eauto.
  - set (r := Str.rfind line " " space) in *.
    destruct ((r <? 0)%Z || Writer._is_unescaped line r).
    + exists r. split; [done|]. right. lia.
    + apply IH. rewrite bound_nonneg by lia. lia.
Qed.

Lemma second_try_total fuel line space :
  (String.length line - Str.bound (String.length line) (space + 1) < fuel)%nat ->
  ∃ r, Writer.second_try fuel line space = Some r
       ∧ (r = (-1)%Z ∨ (0 <= r < Z.of_nat (String.length line))%Z).
Proof.
  revert space. induction fuel as [|f IH]; intros space Hf; [lia|].
  cbn [Writer.second_try].
  destruct (find_range line " " (space + 1)) as [Hr|Hr].
  - rewrite Hr. cbn. eauto.
  - set (r := Str.find line " " (space + 1)) in *.
    destruct ((r <? 0)%Z || Writer._is_unescaped line r).
    + exists r. split; [done|]. right. lia.
    + apply IH. rewrite bound_nonneg by lia. lia.
Qed.

Lemma length_drop n s :
  String.length (Str.drop n s) = (String.length s - n)%nat.
Proof.
  revert s. induction n as [|k IH]; intros [|a s]; cbn; try done.
  all: try apply IH; try lia.
Qed.

Lemma length_from s i :
  String.length (Str.from s i)
  = (String.length s - Str.bound (String.length s) i)%nat.
Proof. unfold Str.from. apply length_drop. Qed.

(** [_Writer.line] returns when, in strict mode, the columns leave room for
    the indentation of a continuation line. *)
Lemma line_loop_total fuel columns (strict : bool) indentation leading
  (broken : bool) line :
  (String.length line < fuel)%nat ->
  (0 <= leading)%Z ->
  (strict = true ->
   (leading + (if broken then 0 else 2) + 2 <= columns)%Z) ->
  is_Some (Writer.line_loop fuel columns strict indentation leading broken line).
Proof.
  revert indentation leading broken line.
  induction fuel as [|f IH]; intros indentation leading broken line Hf Hl Hs;
    [lia|].
  cbn [Writer.line_loop].
  destruct (leading + Str.len line >? columns)%Z eqn:Hc; [|by eexists].
  apply Z.gtb_lt in Hc. unfold Str.len in Hc.
  destruct (first_try_total (S (String.length line)) line (columns - leading - 2))
    as (r1 & -> & Hr1).
  { pose proof (bound_le (String.length line) (columns - leading - 2)). lia. }
  cbn [mbind option_bind].
  assert (∃ r, (if (r1 <? 0)%Z && negb strict
                then Writer.second_try (S (String.length line)) line
                       (columns - leading - 2 - 1)
                else Some r1) = Some r
               ∧ (r = (-1)%Z ∨ (0 <= r < Z.of_nat (String.length line))%Z))
    as (r & -> & Hr).
  { destruct ((r1 <? 0)%Z && negb strict); [|by eauto].
    apply second_try_total. lia. }
  cbn [mbind option_bind].
  destruct (negb (r =? -1)%Z) eqn:Er.
  - assert (Hr' : (0 <= r < Z.of_nat (String.length line))%Z).
    { destruct Hr as [->|]; [done|done]. }
    assert (Hlen : (String.length (Str.from line (r + 1)) < f)%nat).
    { rewrite length_from, bound_nonneg by lia. lia. }
    destruct broken.
    + destruct (IH indentation leading true (Str.from line (r + 1)) Hlen Hl Hs)
        as [x ->]. by eexists.
    + destruct (IH (indentation +:+ Writer._INDENT)
                  (leading + Str.len Writer._INDENT)%Z true
                  (Str.from line (r + 1)) Hlen) as [x ->].
      * unfold Str.len. lia.
      * intros Hst. specialize (Hs Hst). unfold Str.len. cbn. lia.
      * by eexists.
  - destruct strict; [|by eexists].
    specialize (Hs eq_refl).
    assert (Hlen : (String.length (Str.from line (columns - leading - 2 + 1)) < f)%nat).
    { rewrite length_from, bound_nonneg by (destruct broken; lia).
      destruct broken; lia. }
    destruct (IH indentation leading broken
                (Str.from line (columns - leading - 2 + 1)) Hlen Hl)
      as [x ->]; [done|]. by eexists.
Qed.

Lemma length_times s n :
  String.length (Str.times s n) = (n * String.length s)%nat.
Proof.
  induction n as [|k IH]; [done|]. cbn [Str.times].
  rewrite length_app, IH. lia.
Qed.

Lemma line_total columns (strict : bool) line indent :
  (indent <= 1)%nat ->
  (strict = true ->
   ∀ c, columns = Some c -> (Writer._MINIMUM_COLUMNS_STRICT <= c)%Z) ->
  is_Some (Writer.line columns strict line indent).
Proof.
  intros Hi Hs. unfold Writer.line. destruct columns as [c|]; [|by eexists].
  apply line_loop_total; [lia|unfold Str.len; lia|].
  intros Hst. specialize (Hs Hst c eq_refl).
  unfold Str.len. rewrite length_times. unfold Writer._MINIMUM_COLUMNS_STRICT in Hs.
  cbn. lia.
Qed.

End WriterTermination.

Section BodyFacts.
Import Contexts Projects Ninja.

Variable join_path : string -> option string -> string.
Variable change_extension : string -> option string -> string.
Variable P : Project.
Variable columns : option Z.
Variable strict : bool.
Variable top0 : Context.
Hypothesis Hconf : configured top0.
Hypothesis Hwriter : writer_ok columns strict.

Lemma cfg_nearest st l top n k :
  stack st = l ++ [top] -> cfg top0 st -> nearest top n k = nearest top0 n k.
Proof.
  intros Hst (l' & top' & Hst' & _ & Hag). rewrite Hst in Hst'.
  apply app_inj_tail in Hst' as [_ ->]. symmetry. by apply agree_nearest.
Qed.

(** [w.line] with an indent of 0 or 1 returns and only writes. *)
Lemma w_line_kept line indent st :
  cfg top0 st -> (indent <= 1)%nat ->
  ∃ st', w_line columns strict line indent st = Ok (tt, st')
         ∧ kept top0 st st' ∧ results st' = results st.
Proof.
  intros Hc Hi. unfold w_line.
  destruct (line_total columns strict line indent Hi Hwriter) as [chunks ->].
  eexists. split; [reflexivity|]. split; [|done]. by split.
Qed.

(** [with current_context() as ctx: ctx.get(name, default)]. *)
Lemma get_block n key d st :
  cfg top0 st ->
  n ∉ Context_attrs -> key ∉ Namespace_class_attrs ->
  key ∉ Namespace_LOCAL ->
  contains "." n = false -> contains "." key = false ->
  ∃ st', with_current_context true
           (on_ctx (fun ctx => Contexts.get ctx (n +:+ "." +:+ key) d)) st
         = Ok (default d (nearest top0 n key), st')
         ∧ kept top0 st st' ∧ results st' = results st.
Proof.
  intros (l & top & Hst & Hwf & Hag) Hn Hk HkL Hdn Hdk.
  set (st1 := set_stack (fun _ => (l ++ [top]) ++ [Context_init (Some top) true]) st).
  destruct (on_ctx_get st1 (l ++ [top]) (Context_init (Some top) true)
              n key d eq_refl (wf_child _ Hwf) Hn Hk Hdn Hdk)
    as (c1 & E1 & Hwf1 & Ha1).
  destruct (agree_child top c1 Ha1 Hwf1) as (top' & Hp & Hat & Hwt).
  exists (set_stack (fun _ => l ++ [top'])
            (set_stack (fun _ => (l ++ [top]) ++ [c1]) st1)).
  split.
  - rewrite (with_current_true _ st l top _ _ c1 top' Hst E1 eq_refl Hp).
    rewrite nearest_child by done. by rewrite (agree_nearest _ _ _ _ Hag).
  - split; [|done]. split; [|done].
    exists l, top'. split; [done|]. split; [done|]. by eapply agree_trans.
Qed.

(** The block "# Paths" succeeds in a configured context when the output
    type is one of the two that bind [output_base]. *)
Lemma paths_ok ph st :
  cfg top0 st ->
  (output_type (executor ph) = "object" ∨ output_type (executor ph) = "binary") ->
  ∃ st' ib ob, paths join_path P ph st = Ok ((ib, Some ob), st')
               ∧ kept top0 st st' ∧ results st' = results st.
Proof.
  intros (l & top & Hst & Hwf & Hag) Hty.
  destruct Hconf as (_ & (si & Hi) & (so & Ho) & (sb & Hb) & _).
  set (c0 := Context_init (Some top) true).
  set (st1 := set_stack (fun _ => (l ++ [top]) ++ [c0]) st).
  destruct (on_ctx_get st1 (l ++ [top]) c0 "paths" "input" VNone eq_refl
              (wf_child _ Hwf) ltac:(by_compute) ltac:(by_compute) eq_refl eq_refl)
    as (c1 & E1 & Hwf1 & Ha1).
  assert (Hn1 : ∀ k, k ∉ Namespace_LOCAL ->
            nearest c0 "paths" k = nearest top0 "paths" k).
  { intros k Hk. unfold c0. rewrite nearest_child by done.
    symmetry. by apply agree_nearest. }
  rewrite Hn1, Hi in E1 by by_compute. cbn [default from_option id] in E1.
  set (st2 := set_stack (fun _ => (l ++ [top]) ++ [c1]) st1) in *.
  assert (∃ c2 sv k, on_ctx (fun ctx => Contexts.get ctx ("paths" +:+ "." +:+ k) VNone) st2
            = Ok (VStr sv, set_stack (fun _ => (l ++ [top]) ++ [c2]) st2)
            ∧ wf c2 ∧ agree c0 c2
            ∧ ((output_type (executor ph) = "object" ∧ k = "object")
               ∨ (output_type (executor ph) = "binary" ∧ k = "binary")))
    as (c2 & sv & k & E2 & Hwf2 & Ha2 & Hk).
  { destruct Hty as [Hty|Hty].
    - destruct (on_ctx_get st2 (l ++ [top]) c1 "paths" "object" VNone eq_refl
                  Hwf1 ltac:(by_compute) ltac:(by_compute) eq_refl eq_refl)
        as (c2 & E2 & Hwf2 & Ha2).
      rewrite <- (agree_nearest _ _ _ _ Ha1), Hn1, Ho in E2 by by_compute.
      exists c2, so, "object". split; [exact E2|]. split; [done|].
      split; [by eapply agree_trans|]. by left.
    - destruct (on_ctx_get st2 (l ++ [top]) c1 "paths" "binary" VNone eq_refl
                  Hwf1 ltac:(by_compute) ltac:(by_compute) eq_refl eq_refl)
        as (c2 & E2 & Hwf2 & Ha2).
      rewrite <- (agree_nearest _ _ _ _ Ha1), Hn1, Hb in E2 by by_compute.
      exists c2, sb, "binary". split; [exact E2|]. split; [done|].
      split; [by eapply agree_trans|]. by right. }
  destruct (agree_child top c2 Ha2 Hwf2) as (top' & Hp & Hat & Hwt).
  exists (set_stack (fun _ => l ++ [top'])
            (set_stack (fun _ => (l ++ [top]) ++ [c2]) st2)).
  exists (if Str.endswith si os_sep then si else si +:+ os_sep), sv.
  split.
  - unfold paths.
    apply (with_current_true _ st l top _ _ c2 top' Hst); [|reflexivity|exact Hp].
    fold c0. fold st1.
    change "paths.input" with ("paths" +:+ "." +:+ "input").
    rewrite (bind_Ok _ _ _ _ _ E1). cbn [mret M_ret].
    unfold mret, M_ret at 1. unfold mbind at 1, M_bind at 1.
    destruct Hk as [[Hty' ->]|[Hty' ->]]; rewrite Hty'; cbn [String.eqb Ascii.eqb Bool.eqb];
      cbv iota.
    + change "paths.object" with ("paths" +:+ "." +:+ "object").
      unfold M_ret at 1. cbv beta iota.
      rewrite (bind_Ok _ _ _ _ _ (bind_Ok _ _ _ _ _ E2)). reflexivity.
    + change "paths.binary" with ("paths" +:+ "." +:+ "binary").
      unfold M_ret at 1. cbv beta iota.
      rewrite (bind_Ok _ _ _ _ _ (bind_Ok _ _ _ _ _ E2)). reflexivity.
  - split; [|done]. split; [|done].
    exists l, top'. split; [done|]. split; [done|]. by eapply agree_trans.
Qed.

Lemma modify_bind {B} f (k : unit -> M B) st :
  (modify f ≫= k) st = k tt (f st).
Proof. reflexivity. Qed.

Lemma gets_bind {A B} (f : State -> A) (k : A -> M B) st :
  (gets f ≫= k) st = k (f st) st.
Proof. reflexivity. Qed.

Lemma ret_bind {A B} (a : A) (k : A -> M B) st : (mret a ≫= k) st = k a st.
Proof. reflexivity. Qed.

Lemma kept_trans st1 st2 st3 :
  kept top0 st1 st2 -> kept top0 st2 st3 -> kept top0 st1 st3.
Proof.
  intros (_ & H1 & H2 & H3) (Hc & H4 & H5 & H6).
  split; [done|]. split; [congruence|]. split; congruence.
Qed.

(** The block "# Deps" only writes. *)
Lemma deps_kept (ph : Phase) st :
  cfg top0 st ->
  ∃ st', (if nonempty (_deps_file (executor ph)) then
            w_line columns strict
              ("depfile = " +:+ default "" (_deps_file (executor ph))) 1;;
            if nonempty (_deps_type (executor ph))
            then w_line columns strict
                   ("deps = " +:+ default "" (_deps_type (executor ph))) 1
            else mret tt
          else mret tt) st = Ok (tt, st')
         ∧ kept top0 st st' ∧ results st' = results st.
Proof.
  intros Hc. destruct (nonempty (_deps_file (executor ph))).
  - destruct (w_line_kept ("depfile = " +:+ default "" (_deps_file (executor ph)))
                1 st Hc (le_n _)) as (st1 & E1 & K1 & R1).
    rewrite (bind_Ok _ _ _ _ _ E1).
    destruct (nonempty (_deps_type (executor ph))).
    + destruct (w_line_kept ("deps = " +:+ default "" (_deps_type (executor ph)))
                  1 st1 (proj1 K1) (le_n _)) as (st2 & E2 & K2 & R2).
      exists st2. split; [done|]. split; [by eapply kept_trans|congruence].
    + exists st1. done.
  - exists st. split; [done|]. split; [|done]. by split.
Qed.

(** [phase_outputs.append(output)]. *)
Lemma append_output_spec name phase has_results o st :
  cfg top0 st ->
  ∃ st', append_output name phase has_results o st = Ok (tt, st')
         ∧ cfg top0 st' ∧ heap st' = heap st ∧ written st' = written st
         ∧ all_phase_outputs st'
           = <[name := default [] (all_phase_outputs st !! name) ++ [o]]>
               (all_phase_outputs st).
Proof.
  intros Hc. unfold append_output. rewrite modify_bind.
  destruct has_results; eexists; (split; [reflexivity|]); done.
Qed.

(** The loop "# Multiple outputs". *)
Lemma fan_out_loop_ok name phase has_results rule_name input_base ob ext
  inputs o0 st :
  cfg top0 st -> all_phase_outputs st !! name = Some o0 ->
  ∃ st' outs,
    fan_out_loop join_path change_extension columns strict name phase
      has_results rule_name input_base (Some ob) ext inputs st = Ok (tt, st')
    ∧ cfg top0 st' ∧ heap st' = heap st ∧ written st' = written st
    ∧ all_phase_outputs st' = <[name := o0 ++ outs]> (all_phase_outputs st).
Proof.
  revert o0 st. induction inputs as [|input inputs IH]; intros o0 st Hc Ho.
  - exists st, []. split; [done|]. split; [done|]. split; [done|].
    split; [done|]. rewrite app_nil_r. symmetry. by apply insert_id.
  - cbn [fan_out_loop]. cbn [bound]. rewrite ret_bind.
    match goal with
    | |- context [w_line columns strict ?ln 0] =>
        destruct (w_line_kept ln 0 st Hc (le_S _ _ (le_n _)))
          as (st1 & E1 & (C1 & H1 & A1 & W1) & _)
    end.
    rewrite (bind_Ok _ _ _ _ _ E1).
    match goal with
    | |- context [append_output name phase has_results ?o] =>
        destruct (append_output_spec name phase has_results o st1 C1)
          as (st2 & E2 & C2 & H2 & W2 & A2)
    end.
    rewrite (bind_Ok _ _ _ _ _ E2).
    rewrite A1, Ho in A2. cbn [default from_option id] in A2.
    match type of A2 with
    | _ = <[name := ?x]> _ =>
        destruct (IH x st2 C2) as (st3 & outs & E3 & C3 & H3 & W3 & A3)
    end.
    { rewrite A2. apply lookup_insert_eq. }
    exists st3. eexists. split; [exact E3|]. split; [done|].
    split; [congruence|]. split; [congruence|].
    rewrite A3, A2, insert_insert_eq, <- app_assoc. reflexivity.
Qed.

Lemma extend_inputs_heap phase names st st' :
  extend_inputs phase names st = Ok (tt, st') -> heap st' = heap st.
Proof.
  revert st. induction names as [|n names IH]; intros st H.
  - cbn in H. by injection H as <-.
  - cbn [extend_inputs] in H. rewrite gets_bind in H.
    destruct (all_phase_outputs st !! n) as [o|]; [|done].
    rewrite gets_bind, modify_bind in H. by rewrite (IH _ H).
Qed.

Lemma extend_inputs_executor phase names st st' :
  extend_inputs phase names st = Ok (tt, st') ->
  ∀ q, executor (heap st' q) = executor (heap st q).
Proof. intros H q. by rewrite (extend_inputs_heap _ _ _ _ H).
Qed.

(** Once the input phases are written, the rest of [_write_rule] returns:
    it logs the phase, records its outputs in the memo and leaves the
    references and executors of all phases as they were. *)
Lemma body_total name phase names st :
  cfg top0 st ->
  (output_type (executor (heap st phase)) = "object"
   ∨ output_type (executor (heap st phase)) = "binary") ->
  Forall (fun n => is_Some (all_phase_outputs st !! n)) names ->
  ∃ st' outs,
    write_rule_body join_path change_extension P columns strict
      name phase names st = Ok (tt, st')
    ∧ cfg top0 st'
    ∧ written st' = written st ++ [name]
    ∧ all_phase_outputs st' = <[name := outs]> (all_phase_outputs st)
    ∧ (∀ q, inputs_from (heap st' q) = inputs_from (heap st q)
            ∧ executor (heap st' q) = executor (heap st q)).
Proof.
  intros Hc Hty Hnames. unfold write_rule_body.
  rewrite modify_bind.
  set (st1 := set_outputs _ st).
  assert (C1 : cfg top0 st1) by exact Hc.
  (* results *)
  destruct (get_block "build" "_phase_results" VNone st1 C1
              ltac:(by_compute) ltac:(by_compute) ltac:(by_compute)
              eq_refl eq_refl) as (st2 & E2 & (C2 & H2 & A2 & W2) & _).
  change ("build" +:+ "." +:+ "_phase_results") with "build._phase_results" in E2.
  rewrite (bind_Ok _ _ _ _ _ E2).
  assert (∃ hr st3,
    (match default VNone (nearest top0 "build" "_phase_results") with
     | VNone => mret false
     | VResults =>
         modify (set_results (fun m =>
           match m !! phase with Some _ => m | None => <[phase := []]> m end));;
         mret true
     | _ => beyond
     end : M bool) st2 = Ok (hr, st3)
    ∧ cfg top0 st3 ∧ heap st3 = heap st2
    ∧ all_phase_outputs st3 = all_phase_outputs st2
    ∧ written st3 = written st2) as (hr & st3 & E3 & C3 & H3 & A3 & W3).
  { destruct Hconf as (_ & _ & _ & _ & [Hr|[Hr|Hr]] & _); rewrite Hr;
      cbn [default from_option id]; eexists _, _; (split; [reflexivity|]); done. }
  rewrite (bind_Ok _ _ _ _ _ E3).
  (* rule *)
  destruct (w_line_kept "" 0 st3 C3 (le_S _ _ (le_n _)))
    as (st4 & E4 & (C4 & H4 & A4 & W4) & _).
  rewrite (bind_Ok _ _ _ _ _ E4), modify_bind.
  set (st5 := set_written _ st4).
  assert (C5 : cfg top0 st5) by exact C4.
  match goal with
  | |- context [w_line columns strict ("rule " +:+ ?x) 0] =>
      destruct (w_line_kept ("rule " +:+ x) 0 st5 C5 (le_S _ _ (le_n _)))
        as (st6 & E6 & (C6 & H6 & A6 & W6) & _)
  end.
  rewrite (bind_Ok _ _ _ _ _ E6), gets_bind.
  assert (Hheap : heap st6 = heap st).
  { rewrite H6. unfold st5. cbn [heap set_written]. rewrite H4, H3, H2. reflexivity. }
  rewrite Hheap.
  set (ph := heap st phase) in *.
  (* description, command *)
  match goal with
  | |- context [w_line columns strict ("description = " +:+ ?x) 1] =>
      destruct (w_line_kept ("description = " +:+ x) 1 st6 C6 (le_n _))
        as (st7 & E7 & (C7 & H7 & A7 & W7) & _)
  end.
  rewrite (bind_Ok _ _ _ _ _ E7).
  match goal with
  | |- context [w_line columns strict ("command = " +:+ ?x) 1] =>
      destruct (w_line_kept ("command = " +:+ x) 1 st7 C7 (le_n _))
        as (st8 & E8 & (C8 & H8 & A8 & W8) & _)
  end.
  rewrite (bind_Ok _ _ _ _ _ E8).
  (* deps, paths *)
  destruct (deps_kept ph st8 C8) as (st9 & E9 & (C9 & H9 & A9 & W9) & _).
  rewrite (bind_Ok _ _ _ _ _ E9).
  destruct (paths_ok ph st9 C9 Hty)
    as (st10 & ib & ob & E10 & (C10 & H10 & A10 & W10) & _).
  rewrite (bind_Ok _ _ _ _ _ E10). cbv beta iota.
  (* single output? *)
  assert (∃ out,
    (if nonempty (output ph)
     then output_base' ← bound (Some ob);
          mret (Some (join_path output_base' (output ph)))
     else mret None : M (option string)) st10 = Ok (out, st10))
    as (out & E11).
  { destruct (nonempty (output ph)); eexists; reflexivity. }
  rewrite (bind_Ok _ _ _ _ _ E11).
  (* inputs *)
  assert (Hapo10 : all_phase_outputs st10 = <[name := []]> (all_phase_outputs st)).
  { rewrite A10, A9, A8, A7, A6. unfold st5.
    cbn [all_phase_outputs set_written]. rewrite A4, A3, A2. reflexivity. }
  assert (∃ outs, Forall2 (fun n o => all_phase_outputs st10 !! n = Some o)
                    names outs) as (os & Hos).
  { rewrite Hapo10. clear -Hnames.
    induction Hnames as [|n names [o Ho] _ [os IH]]; [by exists []|].
    destruct (decide (name = n)) as [->|Hne].
    - exists ([] :: os). constructor; [apply lookup_insert_eq|done].
    - exists (o :: os). constructor; [by rewrite lookup_insert_ne|done]. }
  destruct (extend_inputs_spec phase names os st10 Hos)
    as (st11 & E12 & Hi & A11 & Hf & S11 & _ & W11 & _).
  pose proof (extend_inputs_executor _ _ _ _ E12) as Hex.
  assert (C11 : cfg top0 st11).
  { destruct C10 as (l & top & Hst & Hw). exists l, top. by rewrite S11. }
  unfold resolve_inputs at 1.
  assert (Eri : resolve_inputs phase names st10
                = Ok (dedup (inputs_of st11 phase), st11)).
  { unfold resolve_inputs. rewrite (bind_Ok _ _ _ _ _ E12). reflexivity. }
  fold (resolve_inputs phase names). rewrite (bind_Ok _ _ _ _ _ Eri).
  set (ins := dedup (inputs_of st11 phase)).
  assert (Hframe : ∀ q, inputs_from (heap st11 q) = inputs_from (heap st q)
                        ∧ executor (heap st11 q) = executor (heap st q)).
  { intros q. rewrite Hf, Hex, H10, H9, H8, H7, Hheap. done. }
  assert (Hw11 : written st11 = written st ++ [name]).
  { rewrite W11, W10, W9, W8, W7, W6. unfold st5. cbn [written set_written].
    rewrite W4, W3, W2. reflexivity. }
  assert (Ha11 : all_phase_outputs st11 !! name = Some []).
  { rewrite A11, Hapo10. apply lookup_insert_eq. }
  (* the build lines *)
  destruct (nonempty out).
  - destruct (w_line_kept "" 0 st11 C11 (le_S _ _ (le_n _)))
      as (st12 & E13 & (C12 & H12 & A12 & W12) & _).
    rewrite (bind_Ok _ _ _ _ _ E13).
    assert (∃ ln, (match ins with
       | _ :: _ =>
           w_line columns strict
             ("build " +:+
              _pathify (default "" (output_prefix (executor ph)) +:+
                        change_extension (default "" out)
                          (output_extension (executor ph))) +:+ ": " +:+
              Str.replace name " " "_" +:+ " " +:+
              Str.join " " (_pathify <$> ins)) 0
       | [] =>
           w_line columns strict
             ("build " +:+
              _pathify (default "" (output_prefix (executor ph)) +:+
                        change_extension (default "" out)
                          (output_extension (executor ph))) +:+ ": " +:+
              Str.replace name " " "_") 0
       end) = w_line columns strict ln 0) as (ln & ->).
    { destruct ins; eexists; reflexivity. }
    destruct (w_line_kept ln 0 st12 C12 (le_S _ _ (le_n _)))
      as (st13 & E14 & (C13 & H13 & A13 & W13) & _).
    rewrite (bind_Ok _ _ _ _ _ E14).
    match goal with
    | |- context [append_output name phase hr ?o] =>
        destruct (append_output_spec name phase hr o st13 C13)
          as (st14 & E15 & C14 & H14 & W14 & A14)
    end.
    exists st14. eexists. split; [exact E15|]. split; [done|].
    split; [congruence|]. split.
    + rewrite A14, A13, A12, A11, Hapo10, insert_insert_eq. reflexivity.
    + intros q. rewrite H14, H13, H12. apply Hframe.
  - destruct ins as [|i ins'].
    + exists st11, []. split; [done|]. split; [done|]. split; [done|].
      split; [|done]. by rewrite A11, Hapo10.
    + destruct (w_line_kept "" 0 st11 C11 (le_S _ _ (le_n _)))
        as (st12 & E13 & (C12 & H12 & A12 & W12) & _).
      rewrite (bind_Ok _ _ _ _ _ E13).
      destruct (fan_out_loop_ok name phase hr (Str.replace name " " "_") ib ob
                  (output_extension (executor ph)) (i :: ins') [] st12 C12)
        as (st13 & outs & E14 & C13 & H13 & W13 & A13).
      { by rewrite A12. }
      exists st13, ([] ++ outs). split; [exact E14|]. split; [done|].
      split; [congruence|]. split.
      * rewrite A13, A12, A11, Hapo10, insert_insert_eq. reflexivity.
      * intros q. rewrite H13, H12. apply Hframe.
Qed.

End BodyFacts.

Section ProjectFacts.
Import Contexts Projects Ninja.

Lemma phases_get_elem l name p :
  phases_get l name = Some p -> (name, p) ∈ l.
Proof.
  induction l as [|[k v] l IH]; cbn; [done|].
  destruct (decide (k = name)) as [->|].
  - intros [= ->]. apply list_elem_of_here.
  - intros H. apply list_elem_of_further. by apply IH.
Qed.

Lemma elem_phases_get l name p :
  NoDup l.*1 -> (name, p) ∈ l -> phases_get l name = Some p.
Proof.
  induction l as [|[k v] l IH]; cbn; intros Hnd Hin.
  - by apply elem_of_nil in Hin.
  - apply NoDup_cons in Hnd as [Hk Hnd].
    apply elem_of_cons in Hin as [[= -> ->]|Hin].
    + by rewrite decide_True.
    + rewrite decide_False; [by apply IH|].
      intros ->. apply Hk. apply list_elem_of_fmap. by exists (name, p).
Qed.

Lemma get_phase_name_elem l q name :
  get_phase_name l q = Some name -> (name, q) ∈ l.
Proof.
  induction l as [|[k v] l IH]; cbn; [done|].
  destruct (decide (v = q)) as [->|].
  - intros [= ->]. apply list_elem_of_here.
  - intros H. apply list_elem_of_further. by apply IH.
Qed.

Lemma get_phase_name_None l p : get_phase_name l p = None ↔ p ∉ l.*2.
Proof.
  induction l as [|[k v] l IH]; cbn [get_phase_name fmap list_fmap snd].
  - split; [intros _; apply not_elem_of_nil|done].
  - rewrite not_elem_of_cons. destruct (decide (v = p)) as [->|Hne].
    + split; [done|]. by intros [? _].
    + rewrite IH. split; [by split|by intros [_ ?]].
Qed.

(** A reference that resolves names a phase of the project. *)
Lemma resolve_elem P v name q :
  resolve P v = Ok (name, q) -> (name, q) ∈ phases P.
Proof.
  destruct v as [q'|s]; cbn.
  - destruct (get_phase_name _ _) eqn:E; [|done].
    intros [= <- <-]. by apply get_phase_name_elem.
  - destruct (phases_get _ _) eqn:E; [|done].
    intros [= <- <-]. by apply phases_get_elem.
Qed.

Lemma resolve_Raise P v e :
  resolve P v = Raise e -> ∃ msg, e = AttributeError msg.
Proof.
  destruct v as [q'|s]; cbn.
  - destruct (get_phase_name _ _); [done|]. intros [= <-]. eauto.
  - destruct (phases_get _ _); [done|]. intros [= <-]. eauto.
Qed.

Lemma resolve_cases P v :
  (∃ name q, resolve P v = Ok (name, q)) ∨ (∃ e, resolve P v = Raise e).
Proof.
  destruct v as [q'|s]; cbn.
  - destruct (get_phase_name _ _); eauto.
  - destruct (phases_get _ _); eauto.
Qed.

Lemma before_app_r a b l k : before a b l -> before a b (l ++ k).
Proof.
  intros (l1 & l2 & l3 & ->). exists l1, l2, (l3 ++ k).
  rewrite <- !app_assoc. cbn. by rewrite <- app_assoc.
Qed.

Lemma before_snoc a b l : a ∈ l -> before a b (l ++ [b]).
Proof.
  intros (l1 & l2 & ->)%list_elem_of_split. exists l1, l2, [].
  by rewrite <- app_assoc.
Qed.

End ProjectFacts.

Section WalkFacts.
Import Contexts Projects Ninja.

Variable join_path : string -> option string -> string.
Variable change_extension : string -> option string -> string.
Variable P : Project.
Variable columns : option Z.
Variable strict : bool.
Variable top0 : Context.
Variable h0 : PhaseId -> Phase.
Variable rank : PhaseId -> nat.
Hypothesis Hconf : configured top0.
Hypothesis Hwriter : writer_ok columns strict.
Hypothesis Hnodup : NoDup (phases P).*1.
Hypothesis Hexec : executors_ok h0.
Hypothesis Hrank :
  ∀ name p v n q, (name, p) ∈ phases P -> v ∈ inputs_from (h0 p) ->
    resolve P v = Ok (n, q) -> q ≠ p -> (rank q < rank p)%nat.

Let write_rule := _write_rule join_path change_extension P columns strict.

(** The loop over the references of a phase, given that [_write_rule]
    with fuel [f] behaves on every phase of rank below [f]. *)
Lemma get_inputs_walk f pname p :
  (∀ name q st, walk_inv P top0 h0 st ->
     phases_get (phases P) name = Some q -> (rank q < f)%nat ->
     match write_rule f name q st with
     | Ok (_, st') =>
         walk_inv P top0 h0 st' ∧ name ∈ written st'
         ∧ ∃ w, written st' = written st ++ w
                ∧ ∀ n, n ∈ w -> ∃ r, phases_get (phases P) n = Some r
                                     ∧ (rank r <= rank q)%nat
     | Raise e => (∃ msg, e = AttributeError msg) ∧ ¬ valid_refs P h0
     | _ => False
     end) ->
  (pname, p) ∈ phases P -> (rank p <= f)%nat ->
  ∀ values names st, walk_inv P top0 h0 st ->
    (∀ v, v ∈ values -> v ∈ inputs_from (h0 p)) ->
    match _get_inputs_from_names P (write_rule f) p values names st with
    | Ok (names', st') =>
        walk_inv P top0 h0 st'
        ∧ (∃ w, written st' = written st ++ w
                ∧ ∀ n, n ∈ w -> ∃ r, phases_get (phases P) n = Some r
                                     ∧ (rank r < rank p)%nat)
        ∧ (∃ new, names' = names ++ new ∧ ∀ n, n ∈ new -> n ∈ written st')
        ∧ (∀ v, v ∈ values ->
             ∃ A q, resolve P v = Ok (A, q) ∧ q ≠ p ∧ A ∈ written st')
    | Raise e => (∃ msg, e = AttributeError msg) ∧ ¬ valid_refs P h0
    | _ => False
    end.
Proof.
  intros IHf Hp Hf values.
  induction values as [|v values IH]; intros names st Hinv Hvals.
  - cbn. split; [done|]. split; [exists []; split; [by rewrite app_nil_r|]|].
    { intros n Hn. by apply elem_of_nil in Hn. }
    split; [exists []; split; [by rewrite app_nil_r|]|].
    { intros n Hn. by apply elem_of_nil in Hn. }
    intros v Hv. by apply elem_of_nil in Hv.
  - assert (Hv : v ∈ inputs_from (h0 p)) by (apply Hvals, list_elem_of_here).
    cbn [_get_inputs_from_names].
    destruct (resolve_cases P v) as [(A & q & Hr)|(e & Hr)]; rewrite Hr.
    2:{ cbn. split; [by eapply resolve_Raise|].
        intros Hval. destruct (Hval pname p v Hp Hv) as (n' & q' & Hr' & _).
        congruence. }
    destruct (decide (q = p)) as [->|Hqp].
    { cbn. split; [eauto|].
      intros Hval. destruct (Hval pname p v Hp Hv) as (n' & q' & Hr' & Hne).
      congruence. }
    pose proof (resolve_elem _ _ _ _ Hr) as HA.
    pose proof (elem_phases_get _ _ _ Hnodup HA) as HgA.
    pose proof (Hrank pname p v A q Hp Hv Hr Hqp) as Hrk.
    specialize (IHf A q st Hinv HgA ltac:(lia)).
    unfold mbind at 1, M_bind at 1.
    destruct (write_rule f A q st) as [[[] st1]|e| |]; [|done..].
    destruct IHf as (Hinv1 & HA1 & w1 & Hw1 & Hrk1).
    specialize (IH (names ++ [A]) st1 Hinv1
                  (fun v' Hv' => Hvals v' (list_elem_of_further _ _ _ Hv'))).
    destruct (_get_inputs_from_names P (write_rule f) p values (names ++ [A]) st1)
      as [[names' st2]|e| |]; [|done..].
    destruct IH as (Hinv2 & (w2 & Hw2 & Hrk2) & (new & Hnew & Hnew') & Hall).
    split; [done|]. split; [|split].
    + exists (w1 ++ w2). split; [by rewrite Hw2, Hw1, app_assoc|].
      intros n [Hn|Hn]%elem_of_app; [|by apply Hrk2].
      destruct (Hrk1 n Hn) as (r & Hg & Hle). exists r. split; [done|lia].
    + exists (A :: new). split; [by rewrite Hnew, <- app_assoc|].
      intros n [->|Hn]%elem_of_cons; [|by apply Hnew'].
      rewrite Hw2. apply elem_of_app. by left.
    + intros v' [->|Hv']%elem_of_cons; [|by apply Hall].
      exists A, q. split; [done|]. split; [done|].
      rewrite Hw2. apply elem_of_app. by left.
Qed.

(** [_write_rule] on a phase of the project, with fuel above the rank of
    the phase: it returns with the phase written and the invariant kept, or
    it raises the declaration error of a reference that is not valid. *)
Lemma write_rule_walk fuel :
  ∀ name q st, walk_inv P top0 h0 st ->
    phases_get (phases P) name = Some q -> (rank q < fuel)%nat ->
    match write_rule fuel name q st with
    | Ok (_, st') =>
        walk_inv P top0 h0 st' ∧ name ∈ written st'
        ∧ ∃ w, written st' = written st ++ w
               ∧ ∀ n, n ∈ w -> ∃ r, phases_get (phases P) n = Some r
                                    ∧ (rank r <= rank q)%nat
    | Raise e => (∃ msg, e = AttributeError msg) ∧ ¬ valid_refs P h0
    | _ => False
    end.
Proof.
  induction fuel as [|f IHf]; intros name p st Hinv Hget Hf; [lia|].
  pose proof Hinv as (Hc & Hfr & Hnd & Hmemo & Hproj & Hord).
  unfold write_rule. cbn [_write_rule]. rewrite gets_bind.
  case_bool_decide as Hm.
  { cbn. split; [done|]. split; [by apply Hmemo|].
    exists []. split; [by rewrite app_nil_r|].
    intros n Hn. by apply elem_of_nil in Hn. }
  rewrite gets_bind.
  pose proof (phases_get_elem _ _ _ Hget) as Hp.
  pose proof (get_inputs_walk f name p IHf Hp ltac:(lia)
                (inputs_from (heap st p)) [] st Hinv) as Hloop.
  specialize (Hloop ltac:(intros v Hv; by rewrite <- (proj1 (Hfr p)))).
  unfold mbind at 1, M_bind at 1. fold write_rule.
  destruct (_get_inputs_from_names P (write_rule f) p (inputs_from (heap st p)) [] st)
    as [[names st1]|e| |]; [|done..].
  destruct Hloop as (Hinv1 & (w1 & Hw1 & Hrk1) & (new & Hnew & Hnew') & Hall).
  cbn [app] in Hnew. subst names.
  destruct Hinv1 as (Hc1 & Hfr1 & Hnd1 & Hmemo1 & Hproj1 & Hord1).
  assert (Hname1 : name ∉ written st1).
  { rewrite Hw1. intros [Hn|Hn]%elem_of_app.
    - apply Hm. by apply Hmemo.
    - destruct (Hrk1 name Hn) as (r & Hg & Hlt).
      rewrite Hget in Hg. injection Hg as <-. lia. }
  destruct (body_total join_path change_extension P columns strict top0
              Hconf Hwriter name p new st1 Hc1) as (st2 & outs & E & Hc2 & Hw2 & Ha2 & Hfr2).
  { rewrite (proj2 (Hfr1 p)). apply Hexec. }
  { apply Forall_forall. intros n Hn. apply Hmemo1. by apply Hnew'. }
  rewrite E. split; [|split].
  - split; [done|]. split.
    { intros r. destruct (Hfr2 r) as [-> ->]. apply Hfr1. }
    split.
    { rewrite Hw2. apply NoDup_app. split; [done|]. split.
      - intros x Hx ->%list_elem_of_singleton. done.
      - apply NoDup_singleton. }
    split.
    { intros n. rewrite Hw2, Ha2, elem_of_app, list_elem_of_singleton.
      destruct (decide (n = name)) as [->|Hne].
      - rewrite lookup_insert_eq. split; [by eexists|by right].
      - rewrite lookup_insert_ne by done. rewrite <- Hmemo1. tauto. }
    split.
    { intros n. rewrite Hw2, elem_of_app, list_elem_of_singleton.
      intros [Hn| ->]; [by apply Hproj1|by rewrite Hget]. }
    intros B pB v. rewrite Hw2, elem_of_app, list_elem_of_singleton.
    intros [HB| ->] HgB Hv.
    + destruct (Hord1 B pB v HB HgB Hv) as (A & r & Hr & Hne & Hbef).
      exists A, r. split; [done|]. split; [done|]. by apply before_app_r.
    + rewrite Hget in HgB. injection HgB as <-.
      destruct (Hall v) as (A & r & Hr & Hne & HA).
      { by rewrite (proj1 (Hfr p)). }
      exists A, r. split; [done|]. split; [done|]. by apply before_snoc.
  - rewrite Hw2. apply elem_of_app. right. by apply list_elem_of_singleton.
  - exists (w1 ++ [name]). split; [by rewrite Hw2, Hw1, app_assoc|].
    intros n [Hn| ->%list_elem_of_singleton]%elem_of_app.
    + destruct (Hrk1 n Hn) as (r & Hg & Hlt). exists r. split; [done|lia].
    + exists p. split; [done|lia].
Qed.

(** The loop of [write] over the phases of the project. *)
Lemma write_phases_walk fuel l :
  ∀ st, walk_inv P top0 h0 st ->
    (∀ name p, (name, p) ∈ l -> (name, p) ∈ phases P ∧ (rank p < fuel)%nat) ->
    match write_phases join_path change_extension P columns strict fuel l st with
    | Ok (_, st') =>
        walk_inv P top0 h0 st'
        ∧ (∀ name p, (name, p) ∈ l -> name ∈ written st')
        ∧ (∀ n, n ∈ written st -> n ∈ written st')
    | Raise e => (∃ msg, e = AttributeError msg) ∧ ¬ valid_refs P h0
    | _ => False
    end.
Proof.
  induction l as [|[name p] l IH]; intros st Hinv Hl.
  - cbn. split; [done|]. split; [|done].
    intros n q Hn. by apply elem_of_nil in Hn.
  - cbn [write_phases].
    destruct (Hl name p (list_elem_of_here _ _)) as [Hp Hrk].
    pose proof (write_rule_walk fuel name p st Hinv
                  (elem_phases_get _ _ _ Hnodup Hp) Hrk) as Hw.
    unfold mbind at 1, M_bind at 1. fold write_rule.
    destruct (write_rule fuel name p st) as [[[] st1]|e| |]; [|done..].
    destruct Hw as (Hinv1 & Hn1 & w & Hw & _).
    specialize (IH st1 Hinv1 (fun n q H => Hl n q (list_elem_of_further _ _ _ H))).
    destruct (write_phases _ _ _ _ _ fuel l st1) as [[[] st2]|e| |]; [|done..].
    destruct IH as (Hinv2 & Hall & Hmono).
    split; [done|]. split.
    + intros n q [[= -> ->]|Hn]%elem_of_cons; [by apply Hmono|by eapply Hall].
    + intros n Hn. apply Hmono. rewrite Hw. apply elem_of_app. by left.
Qed.

End WalkFacts.

Section WriteFacts.
Import Contexts Projects Ninja.

Variable join_path : string -> option string -> string.
Variable change_extension : string -> option string -> string.
Variable wrap : string -> Z -> bool -> list string.
Variable utcnow : string.
Variable P : Project.

(** [w.comment] returns when the columns leave a positive width. *)
Lemma w_comment_kept top0 columns strict line st :
  cfg top0 st ->
  match columns with Some c => (2 < c)%Z | None => True end ->
  ∃ st', w_comment wrap columns strict line st = Ok (tt, st')
         ∧ kept top0 st st' ∧ results st' = results st.
Proof.
  intros Hc Hcol. unfold w_comment. destruct columns as [c|].
  - assert ((c - 2 <=? 0)%Z = false) as -> by (apply Z.leb_gt; lia).
    eexists. split; [reflexivity|]. split; [|done]. by split.
  - eexists. split; [reflexivity|]. split; [|done]. by split.
Qed.

Lemma rank_bound (rank : PhaseId -> nat) (l : list (string * PhaseId)) :
  ∃ m, ∀ name p, (name, p) ∈ l -> (rank p < m)%nat.
Proof.
  induction l as [|[n q] l [m IH]].
  - exists O. intros name p H. by apply elem_of_nil in H.
  - exists (S (Nat.max m (rank q))).
    intros name p [[= -> ->]|H]%elem_of_cons; [lia|].
    specialize (IH name p H). lia.
Qed.

(** In strict mode the columns [write] settles on are at least the
    minimum. *)
Lemma settings_writer_ok top z :
  (settings_from top).1 = VInt z ->
  writer_ok (Some z) (truthy (settings_from top).2).
Proof.
  unfold settings_from. cbn [fst snd]. unfold clamp_columns.
  intros H Hs c [= <-]. rewrite Hs in H. cbn [andb] in H.
  destruct (default (VInt DEFAULT_COLUMNS) (nearest top "ninja" "file_columns"))
    as [|b|z0| | |]; try done.
  - injection H as <-. done.
  - destruct (z0 <? Writer._MINIMUM_COLUMNS_STRICT)%Z eqn:E;
      injection H as <-; [done|]. by apply Z.ltb_ge in E.
Qed.

(** The outcome of [write] in a configured context, with fuel above every
    rank: the phases are written in an order that respects the references,
    each once, or the declaration error of a reference that is not valid
    is raised. *)
Lemma write_outcome (command columns strict : Value) (file_name : option string)
  (st : State) (l : list Context) (top : Context) (rank : PhaseId -> nat)
  (fuel : nat) :
  stack st = l ++ [top] -> configured top ->
  NoDup (phases P).*1 -> executors_ok (heap st) ->
  (∀ name p v n q, (name, p) ∈ phases P -> v ∈ inputs_from (heap st p) ->
     resolve P v = Ok (n, q) -> q ≠ p -> (rank q < rank p)%nat) ->
  (∀ name p, (name, p) ∈ phases P -> (rank p < fuel)%nat) ->
  match write join_path change_extension wrap utcnow P
          (NinjaFile_init P command file_name columns strict) fuel st with
  | Ok (_, st') =>
      NoDup (written st')
      ∧ (∀ name p, (name, p) ∈ phases P -> name ∈ written st')
      ∧ (∀ B pB v, (B, pB) ∈ phases P -> v ∈ inputs_from (heap st pB) ->
           ∃ A q, resolve P v = Ok (A, q) ∧ q ≠ pB ∧ before A B (written st'))
  | Raise e => (∃ msg, e = AttributeError msg) ∧ ¬ valid_refs P (heap st)
  | _ => False
  end.
Proof.
  intros Hst Hconf Hnodup Hexec Hrank Hfuel.
  pose proof Hconf as (Hwf & _ & _ & _ & _ & Hcol).
  destruct (write_settings_spec (NinjaFile_init P command file_name columns strict)
              st l top Hst Hwf eq_refl eq_refl) as (top' & E & Hwf' & Hag).
  unfold write. rewrite (bind_Ok _ _ _ _ _ E).
  set (st1 := set_stack (fun _ => l ++ [top']) st).
  assert (C1 : cfg top st1) by (by exists l, top').
  pose proof (settings_writer_ok top) as Hwr.
  destruct (settings_from top) as [cv sv] eqn:Eset. cbn [fst snd] in *.
  assert (∃ cols, (match cols with Some c => (2 < c)%Z | None => True end)
                  ∧ writer_ok cols (truthy sv)
                  ∧ match cv with
                    | VNone =>
                        write_body join_path change_extension wrap utcnow P None
                          (truthy sv) fuel sv
                    | VInt z =>
                        write_body join_path change_extension wrap utcnow P
                          (Some z) (truthy sv) fuel sv
                    | VBool b =>
                        write_body join_path change_extension wrap utcnow P
                          (Some (if b then 1%Z else 0%Z)) (truthy sv) fuel sv
                    | _ => raise TypeError
                    end
                    = write_body join_path change_extension wrap utcnow P cols
                        (truthy sv) fuel sv) as (cols & Hcols & Hwok & ->).
  { destruct cv as [|b|z| | |]; try done.
    - exists None. split; [done|]. split; [|done]. by intros ? ? [=].
    - exists (Some z). split; [done|]. split; [|done]. by apply Hwr. }
  unfold write_body.
  destruct (w_comment_kept top cols (truthy sv) ("Ninja file for " +:+ Project_str P)
              st1 C1 Hcols) as (st2 & E2 & (C2 & H2 & A2 & W2) & _).
  rewrite (bind_Ok _ _ _ _ _ E2).
  destruct (w_comment_kept top cols (truthy sv) ("Generated by Ronin on " +:+ utcnow)
              st2 C2 Hcols) as (st3 & E3 & (C3 & H3 & A3 & W3) & _).
  rewrite (bind_Ok _ _ _ _ _ E3).
  assert (∃ st4, (match cols with
                  | Some n =>
                      w_comment wrap cols (truthy sv)
                        ("Columns: " +:+ pretty n +:+ " (" +:+
                         (if truthy sv then "strict" else "non-strict") +:+ ")")
                  | None => mret tt
                  end) st3 = Ok (tt, st4)
                 ∧ cfg top st4 ∧ heap st4 = heap st3 ∧ written st4 = written st3)
    as (st4 & E4 & C4 & H4 & W4).
  { destruct cols as [n|].
    - match goal with
      | |- context [w_comment wrap _ _ ?ln] =>
          destruct (w_comment_kept top (Some n) (truthy sv) ln st3 C3 Hcols)
            as (st4 & E4 & (C4 & H4 & A4 & W4) & _)
      end.
      by exists st4.
    - by exists st3. }
  rewrite (bind_Ok _ _ _ _ _ E4), modify_bind.
  set (st5 := set_written _ (set_outputs _ st4)).
  assert (Hh5 : heap st5 = heap st).
  { unfold st5. cbn [heap set_outputs set_written]. rewrite H4, H3, H2.
    reflexivity. }
  assert (Hw5 : written st5 = []) by reflexivity.
  assert (Hinv : walk_inv P top (heap st) st5).
  { split; [exact C4|]. split; [by intros q; rewrite Hh5|].
    rewrite Hw5. split; [constructor|]. split.
    { intros n. unfold st5. cbn [all_phase_outputs set_outputs set_written].
      rewrite lookup_empty. split.
      - intros H. by apply elem_of_nil in H.
      - intros [? [=]]. }
    split; [intros n H|intros B pB v H]; by apply elem_of_nil in H. }
  pose proof (write_phases_walk join_path change_extension P cols (truthy sv)
                top (heap st) rank Hconf Hwok Hnodup Hexec Hrank fuel (phases P)
                st5 Hinv (fun n p H => conj H (Hfuel n p H))) as Hwalk.
  destruct (write_phases _ _ _ _ _ fuel (phases P) st5) as [[[] st6]|e| |];
    [|done..].
  destruct Hwalk as ((_ & _ & Hnd & _ & _ & Hord) & Hall & _).
  split; [done|]. split; [done|].
  intros B pB v HB Hv. apply (Hord B pB v); [by eapply Hall| |done].
  by apply elem_phases_get.
Qed.

End WriteFacts.

Section GenerationTheorems.
Import Contexts Projects Ninja.

Variable join_path : string -> option string -> string.
Variable change_extension : string -> option string -> string.
Variable wrap : string -> Z -> bool -> list string.
Variable utcnow : string.

(** What [resolve] does with an entry that is a declaration error. *)
Lemma not_declared_resolve (P : Project) (name : string) (p : PhaseId)
  (v : InputsFrom) :
  NoDup (phases P).*1 -> (name, p) ∈ phases P -> not_declared P p v ->
  resolve P v = Raise (AttributeError (declaration_error P v))
  ∨ (∃ n, resolve P v = Ok (n, p))
    ∧ declaration_error P v = "inputs_from contains self".
Proof.
  intros Hnodup Hp Hbad. destruct v as [q|n]; cbn [not_declared] in Hbad;
    cbn [resolve declaration_error].
  - destruct Hbad as [Hq| ->].
    + left. apply get_phase_name_None in Hq as Hq'. rewrite Hq'.
      by rewrite bool_decide_eq_false_2.
    + right. assert (Hin : p ∈ (phases P).*2).
      { apply list_elem_of_fmap. by exists (name, p). }
      rewrite bool_decide_eq_true_2 by done. split; [|done].
      destruct (get_phase_name (phases P) p) as [n|] eqn:E; [by exists n|].
      by apply get_phase_name_None in E.
  - destruct Hbad as [Hn|Hn].
    + left. rewrite bool_decide_eq_false_2 by done.
      destruct (phases_get (phases P) n) as [q|] eqn:E; [|done].
      exfalso. apply Hn. apply phases_get_elem in E.
      apply list_elem_of_fmap. by exists (n, q).
    + right. rewrite (elem_phases_get _ _ _ Hnodup Hn).
      rewrite bool_decide_eq_true_2; [by eauto|].
      apply list_elem_of_fmap. by exists (n, p).
Qed.

(** C3: a phase of the project that lists as an input source a name the
    project has no phase for, a phase object the project does not hold, or
    itself, makes generation fail with the declaration error.  In
    [_get_inputs_from_names] the [AttributeError] with the message of that
    entry is raised at the entry before [_write_rule] is called for it,
    whatever [_write_rule] would do: there is no recursion.  And in a
    configured context, with no cycle among the other references, enough
    fuel makes [write] raise an [AttributeError]. *)
Theorem C3_bad_reference_raises (P : Project)
  (command columns strict : Value) (file_name : option string)
  (st : State) (l : list Context) (top : Context)
  (name : string) (p : PhaseId) (v : InputsFrom)
  (Hst : stack st = l ++ [top]) (Hconf : configured top)
  (Hnodup : NoDup (phases P).*1)
  (Hexec : executors_ok (heap st)) (Hacyc : acyclic P (heap st))
  (Hp : (name, p) ∈ phases P) (Hv : v ∈ inputs_from (heap st p))
  (Hbad : not_declared P p v) :
  (∀ write_rule rest names st0,
     _get_inputs_from_names P write_rule p (v :: rest) names st0
     = Raise (AttributeError (declaration_error P v)))
  ∧ ∃ fuel0, ∀ fuel, (fuel0 <= fuel)%nat ->
      ∃ msg, write join_path change_extension wrap utcnow P
               (NinjaFile_init P command file_name columns strict) fuel st
             = Raise (AttributeError msg).
Proof.
  pose proof (not_declared_resolve P name p v Hnodup Hp Hbad) as Hres.
  split.
  - intros write_rule rest names st0. cbn [_get_inputs_from_names].
    destruct Hres as [He|[[n Hn] Hmsg]].
    + by rewrite He.
    + by rewrite Hn, decide_True, Hmsg by done.
  - destruct Hacyc as [rank Hrank].
    destruct (rank_bound rank (phases P)) as [m Hm].
    exists m. intros fuel Hfuel.
    pose proof (write_outcome join_path change_extension wrap utcnow P
                  command columns strict file_name st l top rank fuel
                  Hst Hconf Hnodup Hexec Hrank
                  (fun n q H => Nat.lt_le_trans _ _ _ (Hm n q H) Hfuel)) as Hout.
    destruct (write _ _ _ _ _ _ fuel st) as [[[] st']|e| |]; try done.
    + destruct Hout as (_ & _ & Hord).
      destruct (Hord name p v Hp Hv) as (A & q & Hr & Hne & _).
      destruct Hres as [He|[[n Hn] _]]; congruence.
    + destruct Hout as [[msg ->] _]. by exists msg.
Qed.

End GenerationTheorems.

(** * The properties on the example project *)

Section ExampleFacts.
Import Contexts Projects Ninja.

(** The generator runs on the example project and writes [compile] before
    [link]. *)
Example write_example :
  ∃ st', write Examples.join_path Examples.change_extension Examples.wrap
           Examples.utcnow Examples.project
           (NinjaFile_init Examples.project VNone None VNone VNone) 5
           (Examples.start Examples.objects) = Ok (tt, st')
         ∧ written st' = ["compile"; "link"].
Proof. eexists. split; vm_compute; reflexivity. Qed.


(** In [Examples.child] the key [ninja.command] is read from the child,
    and a key no context holds gives the default of [get]. *)
Lemma C1_read_witness :
  wf Examples.child
  ∧ (read Examples.child "ninja" "command").1 = Ok (VStr "samu")
  ∧ (get Examples.child "ninja.width" (VInt 7)).1 = Ok (VInt 7).
Proof.
  assert (Hwf : wf Examples.child) by (apply wfb_wf; vm_compute; reflexivity).
  split; [exact Hwf|]. split.
  - exact (proj1 (C1_read_resolves_to_nearest Examples.child "ninja" "command"
                    VNone Hwf ltac:(by_compute) ltac:(by_compute)
                    eq_refl eq_refl)).
  - exact (proj1 (proj2 (proj2 (proj2
             (C1_read_resolves_to_nearest Examples.child "ninja" "width"
                (VInt 7) Hwf ltac:(by_compute) ltac:(by_compute)
                eq_refl eq_refl)))) eq_refl).
Defined.

(** A name with two dots. *)
Lemma C5_get_witness :
  get Examples.child "paths.input.extension" VNone
  = (Raise ValueError, Examples.child).
Proof.
  exact (C5_get_two_dots_raises Examples.child "paths" "input" "extension"
           VNone eq_refl eq_refl).
Defined.


(** [/src/lib/a.c] compiled under [/out/obj]. *)
Lemma C8_fan_out_witness :
  fan_out Examples.join_path Examples.change_extension
    "/src/" "/out/obj" (Some "o") "/src/lib/a.c" = "/out/obj/lib/a.o"
  ∧ strip_root "/out/obj/" "/out/obj/lib/a.o" = "lib/a.o".
Proof.
  destruct (C8_fan_out_round_trip Examples.join_path Examples.change_extension
              "/src/" "/out/obj" "lib/a.c" (Some "o")
              (fun a b => eq_refl)) as (_ & Hout & Hstrip).
  split.
  - etransitivity; [exact Hout|]. vm_compute. reflexivity.
  - etransitivity; [|etransitivity; [exact Hstrip|]]; vm_compute; reflexivity.
Defined.

(** The inputs of [link] once [compile] has its outputs. *)
Lemma X24_resolved_inputs_witness :
  outcome (resolve_inputs 1%nat ["compile"] Examples.compiled)
  = Ok ["/out/obj/a.o"; "/out/obj/b.o"].
Proof.
  assert (Hn : Forall2
            (fun n o => all_phase_outputs Examples.compiled !! n = Some o)
            ["compile"] [["/out/obj/a.o"; "/out/obj/b.o"]]).
  { constructor; [vm_compute; reflexivity|constructor]. }
  etransitivity;
    [exact (proj1 (X24_resolved_inputs_at_call Examples.compiled 1%nat _ _ Hn))|].
  vm_compute. reflexivity.
Defined.

(** The settings of the example come from the root context, not from the
    constructor's arguments; after [configure_ninja] with a true strict
    argument, [ninja.file_strict] holds it and [write] is still not
    strict. *)
Lemma C10_settings_witness :
  outcome (write_settings
             (NinjaFile_init Examples.project (VStr "samu") None (VInt 40)
                (VBool true))
             (Examples.start Examples.objects))
  = Ok (VInt 80, VBool false)
  ∧ ∃ top', configure_ninja VNone VNone (VInt 20) (VBool true)
              (Examples.start Examples.objects)
            = Ok (tt, set_stack (fun _ => [] ++ [top'])
                        (Examples.start Examples.objects))
      ∧ nearest top' "ninja" "file_strict" = Some (VBool true)
      ∧ outcome (write_settings
                   (NinjaFile_init Examples.project (VStr "samu") None
                      (VInt 40) (VBool true))
                   (set_stack (fun _ => [] ++ [top'])
                      (Examples.start Examples.objects)))
        = Ok (VInt 20, VBool false).
Proof.
  assert (Hwf : wf Examples.child) by (apply wfb_wf; vm_compute; reflexivity).
  pose proof (C10_settings_ignore_arguments Examples.project
                (VStr "samu") (VInt 40) (VBool true) None
                VNone VNone (VInt 20) (VBool true) (VBool false)
                (Examples.start Examples.objects) [] Examples.child
                eq_refl Hwf) as (_ & Hset & _ & Hconf & _).
  split.
  - etransitivity; [exact Hset|]. vm_compute. reflexivity.
  - destruct (Hconf eq_refl) as (top' & E & Hs & _ & _ & Hw).
    exists top'. split; [exact E|]. split; [exact Hs|].
    etransitivity; [exact Hw|]. vm_compute. reflexivity.
Defined.

(** C2: the rule block of a phase can be written twice.  In a project
    with no cycle and valid references whose phases [compile a] and
    [compile_a] have the same description and command, and are both input
    sources of [link], the two get the rule name [compile_a]: the output
    has the same rule block for each, so the rule block of [compile a]
    appears twice, before the rule block of [link]. *)
Theorem C2_rule_block_written_twice :
  acyclic Examples.clash_project (heap Examples.clash_start)
  ∧ valid_refs Examples.clash_project (heap Examples.clash_start)
  ∧ NoDup (phases Examples.clash_project).*1
  ∧ ∃ st',
      write Examples.join_path Examples.change_extension Examples.wrap
        Examples.utcnow Examples.clash_project
        (NinjaFile_init Examples.clash_project VNone None VNone VNone) 5
        Examples.clash_start = Ok (tt, st')
      ∧ io st'
        = (fun s => s +:+ Str.nl) <$>
          ["# Ninja file for clash";
           "# Generated by Ronin on 2017-01-01 00:00:00 UTC";
           "# Columns: 80 (non-strict)";
           "";
           "rule compile_a";
           "  description = CC $out";
           "  command = gcc -c $$in -o $$out";
           "  depfile = $out.d";
           "  deps = gcc";
           "";
           "build /out/obj/a.o: compile_a /src/a.c";
           "";
           "rule compile_a";
           "  description = CC $out";
           "  command = gcc -c $$in -o $$out";
           "  depfile = $out.d";
           "  deps = gcc";
           "";
           "build /out/obj/b.o: compile_a /src/b.c";
           "";
           "rule link";
           "  description = link $out";
           "  command = gcc $$in -o $$out";
           "";
           "build /out/bin/example_1: link /out/obj/a.o /out/obj/b.o"]
      ∧ List.length
          (filter (fun c => c = "rule compile_a" +:+ Str.nl) (io st'))
        = 2%nat.
Proof.
  split; [|split; [|split]].
  - exists Examples.rank. intros name p v n q Hp Hv Hr Hne.
    apply elem_of_cons in Hp as [[= -> ->]|Hp].
    + apply elem_of_cons in Hv as [->|Hv].
      * vm_compute in Hr. injection Hr as <- <-. vm_compute. lia.
      * apply list_elem_of_singleton in Hv as ->.
        vm_compute in Hr. injection Hr as <- <-. vm_compute. lia.
    + apply elem_of_cons in Hp as [[= -> ->]|Hp].
      * by apply elem_of_nil in Hv.
      * apply list_elem_of_singleton in Hp as [= -> ->].
        by apply elem_of_nil in Hv.
  - intros name p v Hp Hv.
    apply elem_of_cons in Hp as [[= -> ->]|Hp].
    + apply elem_of_cons in Hv as [->|Hv].
      * exists "compile a", 0%nat. split; [vm_compute; reflexivity|lia].
      * apply list_elem_of_singleton in Hv as ->.
        exists "compile_a", 2%nat. split; [vm_compute; reflexivity|lia].
    + apply elem_of_cons in Hp as [[= -> ->]|Hp].
      * by apply elem_of_nil in Hv.
      * apply list_elem_of_singleton in Hp as [= -> ->].
        by apply elem_of_nil in Hv.
  - by_compute.
  - eexists. split; [vm_compute; reflexivity|].
    split; vm_compute; reflexivity.
Qed.

(** A [link] that names a phase the project does not have. *)
Lemma C3_bad_reference_witness :
  (∀ write_rule rest names st0,
     _get_inputs_from_names Examples.project write_rule 1%nat
       (FromName "assemble" :: rest) names st0
     = Raise (AttributeError
                (declaration_error Examples.project (FromName "assemble"))))
  ∧ ∃ fuel0, ∀ fuel, (fuel0 <= fuel)%nat ->
      ∃ msg, write Examples.join_path Examples.change_extension Examples.wrap
               Examples.utcnow Examples.project
               (NinjaFile_init Examples.project VNone None VNone VNone) fuel
               (Examples.start Examples.objects_missing)
             = Raise (AttributeError msg).
Proof.
  assert (Hconf : configured Examples.child).
  { split; [apply wfb_wf; vm_compute; reflexivity|].
    split; [eexists; vm_compute; reflexivity|].
    split; [eexists; vm_compute; reflexivity|].
    split; [eexists; vm_compute; reflexivity|].
    split; [left; vm_compute; reflexivity|].
    vm_compute. reflexivity. }
  assert (Hnodup : NoDup (phases Examples.project).*1) by by_compute.
  assert (Hexec : executors_ok
                    (heap (Examples.start Examples.objects_missing))).
  { intros [|[|q]]; [left|right|left]; reflexivity. }
  assert (Hacyc : acyclic Examples.project
                    (heap (Examples.start Examples.objects_missing))).
  { exists Examples.rank. intros name p v n q Hp Hv Hr Hne.
    apply elem_of_cons in Hp as [[= -> ->]|Hp].
    - apply list_elem_of_singleton in Hv as ->.
      vm_compute in Hr. discriminate Hr.
    - apply list_elem_of_singleton in Hp as [= -> ->].
      by apply elem_of_nil in Hv. }
  assert (Hp : ("link", 1%nat) ∈ phases Examples.project)
    by apply list_elem_of_here.
  assert (Hv : FromName "assemble"
                 ∈ inputs_from
                     (heap (Examples.start Examples.objects_missing) 1%nat))
    by apply list_elem_of_here.
  assert (Hbad : not_declared Examples.project 1%nat (FromName "assemble")).
  { left. by_compute. }
  exact (C3_bad_reference_raises Examples.join_path
           Examples.change_extension Examples.wrap Examples.utcnow
           Examples.project VNone VNone VNone None
           (Examples.start Examples.objects_missing) [] Examples.child
           "link" 1%nat (FromName "assemble")
           eq_refl Hconf Hnodup Hexec Hacyc Hp Hv Hbad).
Defined.

(** The message of the example, by evaluation. *)
Example declaration_error_example :
  declaration_error Examples.project (FromName "assemble")
  = "inputs_from " +:+ Str.dquote +:+ "assemble" +:+ Str.dquote
    +:+ " is not a phase in the project".
Proof. vm_compute. reflexivity. Qed.

(** The error of the example, by evaluation. *)
Example write_missing_example :
  ∃ msg, write Examples.join_path Examples.change_extension Examples.wrap
           Examples.utcnow Examples.project
           (NinjaFile_init Examples.project VNone None VNone VNone) 5
           (Examples.start Examples.objects_missing)
         = Raise (AttributeError msg).
Proof. eexists. vm_compute. reflexivity. Qed.

End ExampleFacts.

(** * Further properties of the contexts *)

Section ContextExtras.
Import Contexts ContextStack.

(** X1: on a mutable context, an attribute written through a namespace is
    read back; every other attribute reads as before the write. *)
Theorem X1_write_then_read (c : Context) (n key : string) (v : Value)
  (Hwf : wf c) (Hmut : _immutable c = false) (Hn : n ∉ Context_attrs)
  (HkL : key ∉ Namespace_LOCAL) (Hkey : key ∉ Namespace_class_attrs) :
  (Contexts.write c n key v).1 = Ok tt
  ∧ (read (Contexts.write c n key v).2 n key).1 = Ok v
  ∧ (∀ n' k', ¬ (n' = n ∧ k' = key) -> n' ∉ Context_attrs ->
       k' ∉ Namespace_class_attrs ->
       (read (Contexts.write c n key v).2 n' k').1 = (read c n' k').1).
Proof.
  pose proof (write_spec c n key v Hwf Hn HkL Hkey) as H.
  rewrite Hmut in H. destruct H as (Hok & Hwf' & _ & Hpar & Hloc).
  set (c' := (Contexts.write c n key v).2) in *.
  split; [exact Hok|]. split.
  - destruct (read_spec c' n key Hwf' Hn Hkey) as [-> _].
    rewrite nearest_unfold, Hloc, bool_decide_eq_true_2 by done. done.
  - intros n' k' Hne Hn' Hk'.
    destruct (read_spec c' n' k' Hwf' Hn' Hk') as [-> _].
    destruct (read_spec c n' k' Hwf Hn' Hk') as [-> _].
    rewrite (nearest_unfold c'), (nearest_unfold c), Hloc, Hpar.
    by rewrite bool_decide_eq_false_2.
Qed.

(** X2: a read, whether it finds the key or raises, leaves a context on
    which every read gives what it gave before; the namespace objects it
    registers hold no key. *)
Theorem X2_read_keeps_values (c : Context) (n key n' k' : string)
  (Hwf : wf c) (Hn : n ∉ Context_attrs) (Hkey : key ∉ Namespace_class_attrs)
  (Hn' : n' ∉ Context_attrs) (Hk' : k' ∉ Namespace_class_attrs) :
  (read (read c n key).2 n' k').1 = (read c n' k').1
  ∧ _immutable (read c n key).2 = _immutable c
  ∧ local (read c n key).2 n' k' = local c n' k'.
Proof.
  destruct (read_spec c n key Hwf Hn Hkey) as (_ & Hwf' & Himm & Hloc & Hnear).
  split; [|split; [exact Himm|apply Hloc]].
  destruct (read_spec _ n' k' Hwf' Hn' Hk') as [-> _].
  destruct (read_spec c n' k' Hwf Hn' Hk') as [-> _].
  by rewrite Hnear.
Qed.

(** Writing [ninja.command] on the root of the example. *)
Lemma X1_write_then_read_witness :
  (read (Contexts.write Examples.root "ninja" "command" (VStr "samu")).2
     "ninja" "command").1 = Ok (VStr "samu").
Proof.
  assert (Hwf : wf Examples.root) by (apply wfb_wf; vm_compute; reflexivity).
  exact (proj1 (proj2 (X1_write_then_read Examples.root "ninja" "command"
           (VStr "samu") Hwf eq_refl ltac:(by_compute) ltac:(by_compute)
           ltac:(by_compute)))).
Defined.

(** A read of a key no context holds, then a read of one the root holds. *)
Lemma X2_read_keeps_values_witness :
  (read (read Examples.child "cli" "verbose").2 "paths" "input").1
  = (read Examples.child "paths" "input").1.
Proof.
  assert (Hwf : wf Examples.child) by (apply wfb_wf; vm_compute; reflexivity).
  exact (proj1 (X2_read_keeps_values Examples.child "cli" "verbose"
           "paths" "input" Hwf ltac:(by_compute) ltac:(by_compute)
           ltac:(by_compute) ltac:(by_compute))).
Defined.

End ContextExtras.

Section StackExtras.
Import Contexts ContextStack.

Lemma peek_push s c : peek (push s c) = Some c.
Proof.
  unfold peek, push. rewrite List.length_app, last_snoc. cbn [List.length].
  by destruct (Nat.eqb_spec (List.length s + 1) 0); [lia|].
Qed.

Lemma pop_push s c : pop (push s c) = (Some c, s).
Proof.
  unfold pop, push. rewrite List.length_app, last_snoc, removelast_last.
  cbn [List.length].
  by destruct (Nat.eqb_spec (List.length s + 1) 0); [lia|].
Qed.

(** X3: the stack of contexts is last in, first out.  After a push the
    pushed context is the one peeked and popped, and the pop gives back the
    stack from before the push; peeking and popping an empty stack, or one
    the thread never created, return [None] and do not raise. *)
Theorem X3_stack_lifo (tl : option (list Context)) (s : list Context)
  (c : Context) :
  peek (push s c) = Some c
  ∧ pop (push s c) = (Some c, s)
  ∧ peek [] = None ∧ pop [] = (None, [])
  ∧ _peek_thread_local (_push_thread_local tl c) = Some c
  ∧ _pop_thread_local (_push_thread_local tl c) = Some (default [] tl)
  ∧ _peek_thread_local (_pop_thread_local (_push_thread_local (Some s) c))
    = _peek_thread_local (Some s)
  ∧ _peek_thread_local None = None ∧ _pop_thread_local None = None.
Proof.
  split; [apply peek_push|]. split; [apply pop_push|].
  split; [done|]. split; [done|].
  unfold _peek_thread_local, _pop_thread_local, _push_thread_local.
  rewrite !peek_push, !pop_push. done.
Qed.

(** X4: [current_context()] gives a read-only view of the context on top
    of the stack.  The view is a fresh immutable child: a read through it
    gives what the same read gives on the top context, a write through it
    raises [ImmutableContextException]; [current_context(False)] gives the
    top context itself. *)
Theorem X4_current_context_view (tl : option (list Context)) (c : Context)
  (n key : string) (v : Value)
  (Htop : _peek_thread_local tl = Some c) (Hwf : wf c)
  (Hn : n ∉ Context_attrs) (HkL : key ∉ Namespace_LOCAL)
  (Hkey : key ∉ Namespace_class_attrs) :
  ∃ view, current_context true tl = Ok view
    ∧ _immutable view = true ∧ _parent view = Some c
    ∧ (read view n key).1 = (read c n key).1
    ∧ (Contexts.write view n key v).1 = Raise ImmutableContextException
    ∧ current_context false tl = Ok c.
Proof.
  exists (Context_init (Some c) true).
  unfold current_context. rewrite Htop.
  split; [done|]. split; [done|]. split; [done|].
  pose proof (wf_child c Hwf) as Hwf'.
  split; [|split; [|done]].
  - destruct (read_spec _ n key Hwf' Hn Hkey) as [-> _].
    destruct (read_spec c n key Hwf Hn Hkey) as [-> _].
    by rewrite nearest_child.
  - pose proof (write_spec (Context_init (Some c) true) n key v
                  Hwf' Hn HkL Hkey) as H.
    exact H.
Qed.

(** X5: with no context on the stack, [configure_ninja] and
    [NinjaFile.write] raise [NoContextException], and [new_context] gives a
    root context. *)
Theorem X5_no_context (join_path change_extension : string -> option string -> string)
  (wrap : string -> Z -> bool -> list string) (utcnow : string)
  (P : Projects.Project) (nf : Ninja.NinjaFile) (fuel : nat)
  (command file_name columns strict : Value) (st : Ninja.State)
  (Hempty : Ninja.stack st = []) :
  Ninja.configure_ninja command file_name columns strict st
    = Raise NoContextException
  ∧ Ninja.write join_path change_extension wrap utcnow P nf fuel st
    = Raise NoContextException
  ∧ current_context true (Some (Ninja.stack st)) = Raise NoContextException
  ∧ new_context (Some (Ninja.stack st)) = Context_init None false.
Proof.
  split; [|split].
  - unfold Ninja.configure_ninja, Ninja.with_current_context.
    by rewrite Hempty.
  - unfold Ninja.write. apply bind_Raise.
    unfold Ninja.write_settings, Ninja.with_current_context.
    by rewrite Hempty.
  - unfold current_context, new_context. by rewrite Hempty.
Qed.

(** The view of the example's child context. *)
Lemma X4_current_context_view_witness :
  ∃ view, current_context true (Some [Examples.root; Examples.child]) = Ok view
    ∧ _immutable view = true ∧ _parent view = Some Examples.child
    ∧ (read view "ninja" "command").1
      = (read Examples.child "ninja" "command").1
    ∧ (Contexts.write view "ninja" "command" (VStr "ninja")).1
      = Raise ImmutableContextException
    ∧ current_context false (Some [Examples.root; Examples.child])
      = Ok Examples.child.
Proof.
  assert (Hwf : wf Examples.child) by (apply wfb_wf; vm_compute; reflexivity).
  exact (X4_current_context_view (Some [Examples.root; Examples.child])
           Examples.child "ninja" "command" (VStr "ninja") eq_refl Hwf
           ltac:(by_compute) ltac:(by_compute) ltac:(by_compute)).
Defined.

(** Generating the example outside any context. *)
Lemma X5_no_context_witness :
  Ninja.write Examples.join_path Examples.change_extension Examples.wrap
    Examples.utcnow Examples.project
    (Ninja.NinjaFile_init Examples.project VNone None VNone VNone) 5
    (Ninja.set_stack (fun _ => []) (Examples.start Examples.objects))
  = Raise NoContextException.
Proof.
  exact (proj1 (proj2 (X5_no_context Examples.join_path
           Examples.change_extension Examples.wrap Examples.utcnow
           Examples.project
           (Ninja.NinjaFile_init Examples.project VNone None VNone VNone) 5
           VNone VNone VNone VNone
           (Ninja.set_stack (fun _ => []) (Examples.start Examples.objects))
           eq_refl))).
Defined.

End StackExtras.

Section SettingsExtras.
Import Contexts Projects Ninja.

(** X6: the columns given to [configure_ninja] are the columns [write]
    builds its writer with, clamped in strict mode.  [configure_ninja]
    stores the argument even when it is [None], and [get] returns a stored
    [None] rather than its default: after [configure_ninja()] the writer has
    no column limit, while on a context that never set [ninja.file_columns]
    it wraps at [DEFAULT_COLUMNS]. *)
Theorem X6_configured_columns (P : Project) (cmd fn cols s : Value)
  (st : State) (l : list Context) (top : Context)
  (Hst : stack st = l ++ [top]) (Hwf : wf top) (Hmut : _immutable top = false) :
  let nf := NinjaFile_init P VNone None VNone VNone in
  let strict :=
    default (VBool false) (nearest top "ninja" "file_columns_strict") in
  outcome ((configure_ninja cmd fn cols s ≫= fun _ => write_settings nf) st)
    = Ok (clamp_columns cols strict, strict)
  ∧ outcome ((configure_ninja cmd fn VNone s ≫= fun _ => write_settings nf) st)
    = Ok (VNone, strict)
  ∧ (nearest top "ninja" "file_columns" = None ->
     outcome (write_settings nf st)
     = Ok (VInt DEFAULT_COLUMNS, strict)).
Proof.
  intros nf strict.
  assert (Hgen : ∀ c, outcome ((configure_ninja cmd fn c s ≫=
                                 fun _ => write_settings nf) st)
                      = Ok (clamp_columns c strict, strict)).
  { intros c.
    destruct (configure_ninja_spec cmd fn c s st l top Hst Hwf Hmut)
      as (t1 & E1 & W1 & C1 & _ & S1).
    rewrite (bind_Ok _ _ _ _ _ E1).
    destruct (write_settings_spec nf (set_stack (fun _ => l ++ [t1]) st) l t1
                eq_refl W1 eq_refl eq_refl) as (t1' & -> & _).
    cbn [outcome]. unfold settings_from. rewrite C1, S1. reflexivity. }
  split; [apply Hgen|]. split.
  - rewrite Hgen. unfold clamp_columns. by rewrite andb_false_r.
  - intros Hnone.
    destruct (write_settings_spec nf st l top Hst Hwf eq_refl eq_refl)
      as (top' & -> & _).
    cbn [outcome]. unfold settings_from. rewrite Hnone. cbn [from_option id].
    fold strict. unfold clamp_columns.
    replace (DEFAULT_COLUMNS <? Writer._MINIMUM_COLUMNS_STRICT) with false
      by reflexivity.
    by rewrite andb_false_r.
Qed.

(** Configuring the root of the example with 40 columns. *)
Lemma X6_configured_columns_witness :
  outcome ((configure_ninja VNone VNone (VInt 40) VNone ≫=
            fun _ => write_settings
                       (NinjaFile_init Examples.project VNone None VNone VNone))
             (set_stack (fun _ => [Examples.root])
                (Examples.start Examples.objects)))
  = Ok (VInt 40, VBool false).
Proof.
  assert (Hwf : wf Examples.root) by (apply wfb_wf; vm_compute; reflexivity).
  exact (proj1 (X6_configured_columns Examples.project VNone VNone (VInt 40)
           VNone (set_stack (fun _ => [Examples.root])
                    (Examples.start Examples.objects))
           [] Examples.root eq_refl Hwf eq_refl)).
Defined.

End SettingsExtras.

(** * Further properties of the line writer *)

Section WriterExtras.

Lemma str_app_assoc (a b c : string) : (a +:+ b) +:+ c = a +:+ (b +:+ c).
Proof.
  induction a as [|x a IH]; [by rewrite !str_app_nil|].
  by rewrite !str_app_cons, IH.
Qed.

Lemma take_drop n s : Str.take n s +:+ Str.drop n s = s.
Proof.
  revert s. induction n as [|k IH]; intros [|a s]; cbn [Str.take Str.drop];
    rewrite ?str_app_nil; try done.
  by rewrite str_app_cons, IH.
Qed.

Lemma take_get_drop i s a :
  String.get i s = Some a ->
  Str.take i s +:+ String a (Str.drop (S i) s) = s.
Proof.
  revert s. induction i as [|k IH]; intros [|b s] H; cbn in H; try done.
  - injection H as ->. cbn [Str.take Str.drop]. by rewrite str_app_nil.
  - cbn [Str.take Str.drop]. by rewrite str_app_cons, IH.
Qed.

Lemma length_take n s :
  String.length (Str.take n s) = Nat.min n (String.length s).
Proof.
  revert s. induction n as [|k IH]; intros [|a s]; cbn; try done.
  by rewrite IH.
Qed.

Lemma rfind_nat_get ch s stop i :
  Str.rfind_nat ch s stop = Some i -> String.get i s = Some ch.
Proof.
  revert s i. induction stop as [|k IH]; intros [|a s] i H; cbn in H; try done.
  destruct (Str.rfind_nat ch s k) as [j|] eqn:E.
  - injection H as <-. cbn. by apply IH.
  - destruct (Ascii.eqb_spec a ch) as [->|]; [|done]. by injection H as <-.
Qed.

Lemma find_nat_get ch s start i :
  Str.find_nat ch s start = Some i -> String.get i s = Some ch.
Proof.
  revert start i. induction s as [|a s IH]; intros start i H; cbn in H; [done|].
  destruct start as [|k].
  - destruct (Ascii.eqb_spec a ch) as [->|].
    + by injection H as <-.
    + destruct (Str.find_nat ch s 0) as [j|] eqn:E; [|done].
      injection H as <-. cbn. by eapply IH.
  - destruct (Str.find_nat ch s k) as [j|] eqn:E; [|done].
    injection H as <-. cbn. by eapply IH.
Qed.

(** What the two searches return: [-1], or the index of a space. *)
Lemma first_try_space fuel line space r :
  Writer.first_try fuel line space = Some r ->
  r = (-1)%Z
  ∨ ((0 <= r)%Z ∧ String.get (Z.to_nat r) line = Some " "%char
     ∧ (0 <= space -> r < space)%Z).
Proof.
  revert space. induction fuel as [|f IH]; intros space H; [done|].
  cbn [Writer.first_try] in H.
  assert (Hr : Str.rfind line " " space = (-1)%Z
               ∨ ((0 <= Str.rfind line " " space)%Z
                  ∧ String.get (Z.to_nat (Str.rfind line " " space)) line
                    = Some " "%char
                  ∧ (0 <= space -> Str.rfind line " " space < space)%Z)).
  { unfold Str.rfind.
    destruct (Str.rfind_nat _ _ _) as [i|] eqn:E; [right|by left].
    split; [lia|]. rewrite Nat2Z.id. split; [by eapply rfind_nat_get|].
    intros Hs. apply rfind_nat_range in E. rewrite bound_nonneg in E by done.
    lia. }
  set (r0 := Str.rfind line " " space) in *.
  destruct ((r0 <? 0)%Z || Writer._is_unescaped line r0) eqn:Eb.
  - injection H as <-. exact Hr.
  - destruct Hr as [Hr|(Hr0 & _ & Hlt)].
    + rewrite Hr in Eb. done.
    + apply IH in H. destruct H as [H|(H0 & Hg & Hl)]; [by left|].
      right. split; [done|]. split; [done|]. intros Hs.
      specialize (Hl Hr0). specialize (Hlt Hs). lia.
Qed.

Lemma second_try_space fuel line space r :
  Writer.second_try fuel line space = Some r ->
  r = (-1)%Z
  ∨ ((0 <= r)%Z ∧ String.get (Z.to_nat r) line = Some " "%char).
Proof.
  revert space. induction fuel as [|f IH]; intros space H; [done|].
  cbn [Writer.second_try] in H.
  assert (Hr : Str.find line " " (space + 1) = (-1)%Z
               ∨ ((0 <= Str.find line " " (space + 1))%Z
                  ∧ String.get (Z.to_nat (Str.find line " " (space + 1))) line
                    = Some " "%char)).
  { unfold Str.find.
    destruct (Str.find_nat _ _ _) as [i|] eqn:E; [right|by left].
    split; [lia|]. rewrite Nat2Z.id. by eapply find_nat_get. }
  set (r0 := Str.find line " " (space + 1)) in *.
  destruct ((r0 <? 0)%Z || Writer._is_unescaped line r0).
  - injection H as <-. exact Hr.
  - by apply IH in H.
Qed.

Lemma get_Some_lt i s a : String.get i s = Some a -> (i < String.length s)%nat.
Proof.
  revert s. induction i as [|k IH]; intros [|b s] H; cbn in *; try done; [lia|].
  apply IH in H. lia.
Qed.

(** A break at a space splits the line into the part before the space with
    the space, and the part after it. *)
Lemma break_at_space line r :
  (0 <= r)%Z -> String.get (Z.to_nat r) line = Some " "%char ->
  (Str.upto line r +:+ " ") +:+ Str.from line (r + 1) = line.
Proof.
  intros Hr Hg. pose proof (get_Some_lt _ _ _ Hg) as Hlt.
  unfold Str.upto, Str.from. rewrite !bound_nonneg by lia.
  replace (Nat.min (Z.to_nat r) (String.length line)) with (Z.to_nat r) by lia.
  replace (Nat.min (Z.to_nat (r + 1)) (String.length line))
    with (S (Z.to_nat r)) by lia.
  rewrite str_app_assoc, str_app_cons, str_app_nil.
  by apply take_get_drop.
Qed.

Lemma break_anywhere line w : Str.upto line w +:+ Str.from line w = line.
Proof. unfold Str.upto, Str.from. apply take_drop. Qed.

(** One string written for a piece that continues on the next line. *)
Lemma continued_chunk ind piece :
  ind +:+ (piece +:+ " ") +:+ "$" +:+ Str.nl = ind +:+ piece +:+ " $" +:+ Str.nl.
Proof. by rewrite (str_app_assoc piece). Qed.

Lemma line_loop_pieces (I : string) fuel columns strict ind lead
  (broken : bool) line chunks :
  Writer.line_loop fuel columns strict ind lead broken line = Some chunks ->
  (if broken then ind = I ∨ ind = I +:+ Writer._INDENT else ind = I) ->
  ∃ (items : list (string * string)) (ind_last last : string),
    chunks = ((fun it => it.1 +:+ it.2 +:+ "$" +:+ Str.nl) <$> items)
             ++ [ind_last +:+ last +:+ Str.nl]
    ∧ foldr (fun p r => p +:+ r) last items.*2 = line
    ∧ Forall (fun i => i = I ∨ i = I +:+ Writer._INDENT) (items.*1 ++ [ind_last])
    ∧ head (items.*1 ++ [ind_last]) = Some ind
    ∧ (lead + Str.len line <= columns -> items = [])%Z.
Proof.
  revert ind lead broken line chunks.
  induction fuel as [|f IH]; intros ind lead broken line chunks H Hind.
  all: assert (Hin : ind = I ∨ ind = I +:+ Writer._INDENT)
         by (destruct broken; [done|by left]).
  all: assert (Hlast : ∀ chunks, Some [ind +:+ line +:+ Str.nl] = Some chunks ->
         ∃ (items : list (string * string)) (ind_last last : string),
           chunks = ((fun it => it.1 +:+ it.2 +:+ "$" +:+ Str.nl) <$> items)
                    ++ [ind_last +:+ last +:+ Str.nl]
           ∧ foldr (fun p r => p +:+ r) last items.*2 = line
           ∧ Forall (fun i => i = I ∨ i = I +:+ Writer._INDENT)
               (items.*1 ++ [ind_last])
           ∧ head (items.*1 ++ [ind_last]) = Some ind
           ∧ (lead + Str.len line <= columns -> items = [])%Z)
         by (intros ? [= <-]; exists [], ind, line; repeat split; try done;
             by apply Forall_singleton).
  all: cbn [Writer.line_loop] in H.
  all: destruct (lead + Str.len line >? columns)%Z eqn:Hc; [|by apply Hlast].
  { done. }
  apply Z.gtb_lt in Hc.
  destruct (Writer.first_try _ line _) as [r1|] eqn:E1; [|done].
  cbn [mbind option_bind] in H.
  destruct (if (r1 <? 0)%Z && negb strict
            then Writer.second_try (S (String.length line)) line
                   (columns - lead - 2 - 1)
            else Some r1) as [r|] eqn:E2; [|done].
  cbn [mbind option_bind] in H.
  assert (Hr : r = (-1)%Z
               ∨ ((0 <= r)%Z ∧ String.get (Z.to_nat r) line = Some " "%char)).
  { destruct ((r1 <? 0)%Z && negb strict).
    - by eapply second_try_space.
    - injection E2 as <-. apply first_try_space in E1.
      destruct E1 as [->|(? & ? & _)]; [by left|by right]. }
  destruct (negb (r =? -1)%Z) eqn:Er.
  - destruct Hr as [->|[Hr0 Hg]]; [done|].
    assert (∃ i l rest,
              Writer.line_loop f columns strict i l true (Str.from line (r + 1))
              = Some rest
              ∧ (i = I ∨ i = I +:+ Writer._INDENT)
              ∧ chunks = (ind +:+ Str.upto line r +:+ " $" +:+ Str.nl) :: rest)
      as (i & l & rest & Erest & Hi' & ->).
    { destruct broken; cbv beta iota zeta in H.
      - destruct (Writer.line_loop f columns strict ind lead true _)
          as [rest|] eqn:Erest; [|done].
        injection H as <-. by eexists _, _, _.
      - destruct (Writer.line_loop f columns strict _ _ true _)
          as [rest|] eqn:Erest; [|done].
        injection H as <-. eexists _, _, _. split; [exact Erest|].
        split; [|done]. right. by rewrite Hind. }
    apply IH in Erest; [|exact Hi'].
    destruct Erest as (items & il & last & -> & Hfold & Hall & Hhd & _).
    exists ((ind, Str.upto line r +:+ " ") :: items), il, last.
    split.
    { cbn [fmap list_fmap app fst snd]. by rewrite continued_chunk. }
    split.
    { cbn [fmap list_fmap foldr snd]. rewrite Hfold.
      by apply break_at_space. }
    split; [by constructor|]. split; [done|]. lia.
  - destruct strict; [|by apply Hlast].
    match type of H with
    | (_ <$> Writer.line_loop f columns true ind lead broken ?ln) = _ =>
        destruct (Writer.line_loop f columns true ind lead broken ln) as [rest|] eqn:Erest;
          [|done]
    end.
    injection H as <-.
    apply IH in Erest; [|exact Hind].
    destruct Erest as (items & il & last & -> & Hfold & Hall & Hhd & _).
    exists ((ind, Str.upto line (columns - lead - 2 + 1)) :: items), il, last.
    split; [done|]. split.
    { cbn [fmap list_fmap foldr snd]. rewrite Hfold.
      apply break_anywhere. }
    split; [by constructor|]. split; [done|]. lia.
Qed.

(** X7: [_Writer.line] loses no character of the line.  The strings it
    writes are pieces of the line, each behind its indentation and followed
    by ['$'] and a newline, and a last piece followed by a newline; the
    pieces, put together in order, are the line (the space a line is broken
    at stays at the end of its piece).  The first string has the indentation
    asked for, the others that one or one level more.  A line that fits the
    columns, or any line when there is no column limit, is written as one
    string. *)
Theorem X7_line_lossless (columns : option Z) (strict : bool) (line : string)
  (indent : nat) (chunks : list string)
  (Hline : Writer.line columns strict line indent = Some chunks) :
  let I := Str.times Writer._INDENT indent in
  ∃ (items : list (string * string)) (ind_last last : string),
    chunks = ((fun it => it.1 +:+ it.2 +:+ "$" +:+ Str.nl) <$> items)
             ++ [ind_last +:+ last +:+ Str.nl]
    ∧ foldr (fun p r => p +:+ r) last items.*2 = line
    ∧ Forall (fun i => i = I ∨ i = I +:+ Writer._INDENT) (items.*1 ++ [ind_last])
    ∧ head (items.*1 ++ [ind_last]) = Some I
    ∧ (match columns with
       | None => True
       | Some c => (Str.len I + Str.len line <= c)%Z
       end -> items = []).
Proof.
  intros I. unfold Writer.line in Hline. fold I in Hline.
  destruct columns as [c|].
  - apply (line_loop_pieces I) in Hline; [|done].
    destruct Hline as (items & il & last & H1 & H2 & H3 & H4 & H5).
    exists items, il, last. repeat split; done.
  - injection Hline as <-. exists [], I, line.
    split; [done|]. split; [done|].
    split; [apply Forall_singleton; by left|]. split; done.
Qed.

(** A line written around a break anywhere. *)
Lemma length_upto line w :
  (0 <= w)%Z -> (Z.of_nat (String.length (Str.upto line w)) <= w)%Z.
Proof.
  intros Hw. unfold Str.upto. rewrite length_take, bound_nonneg by done. lia.
Qed.

Lemma line_loop_strict_width fuel columns ind lead (broken : bool) line chunks :
  Writer.line_loop fuel columns true ind lead broken line = Some chunks ->
  lead = Str.len ind ->
  (lead + (if broken then 0 else 2) + 2 <= columns)%Z ->
  Forall (fun ch => (Z.of_nat (String.length ch) <= columns + 1)%Z) chunks.
Proof.
  revert ind lead broken line chunks.
  induction fuel as [|f IH]; intros ind lead broken line chunks H Hlead Hroom.
  all: assert (Hlast : (lead + Str.len line <= columns)%Z ->
         Forall (fun ch => (Z.of_nat (String.length ch) <= columns + 1)%Z)
           [ind +:+ line +:+ Str.nl]).
  1,3: intros Hfit; apply Forall_singleton;
       rewrite !length_app; unfold Str.len in *; cbn; lia.
  all: cbn [Writer.line_loop] in H.
  all: destruct (lead + Str.len line >? columns)%Z eqn:Hc;
    [|injection H as <-; apply Hlast; lia].
  { done. }
  destruct (Writer.first_try _ line _) as [r|] eqn:E1; [|done].
  cbn [mbind option_bind negb andb] in H. rewrite andb_false_r in H.
  cbn [mbind option_bind] in H.
  apply first_try_space in E1.
  assert (Hw : (0 <= columns - lead - 2)%Z) by (destruct broken; lia).
  destruct (negb (r =? -1)%Z) eqn:Er.
  - destruct E1 as [->|(Hr0 & Hg & Hlt)]; [done|]. specialize (Hlt Hw).
    assert (Hchunk : (Z.of_nat (String.length
                        (ind +:+ Str.upto line r +:+ " $" +:+ Str.nl))
                      <= columns + 1)%Z).
    { rewrite !length_app. pose proof (length_upto line r Hr0).
      unfold Str.len in *. cbn. lia. }
    destruct broken; cbv beta iota zeta in H.
    + destruct (Writer.line_loop f columns true ind lead true _)
        as [rest|] eqn:Erest; [|done].
      injection H as <-. constructor; [exact Hchunk|].
      by eapply IH.
    + destruct (Writer.line_loop f columns true _ _ true _)
        as [rest|] eqn:Erest; [|done].
      injection H as <-. constructor; [exact Hchunk|].
      eapply IH; [exact Erest| |].
      * unfold Str.len. rewrite length_app. subst lead. unfold Str.len. lia.
      * unfold Str.len. cbn. lia.
  - destruct (Writer.line_loop f columns true ind lead broken _)
      as [rest|] eqn:Erest; [|done].
    injection H as <-. constructor; [|by eapply IH].
    rewrite !length_app.
    pose proof (length_upto line (columns - lead - 2 + 1) ltac:(lia)).
    unfold Str.len in *. cbn. lia.
Qed.

(** X8: in strict mode no string written by [_Writer.line] is longer than
    the columns, the newline apart, as long as the columns leave room for
    the indentation of a continuation line, its ['$'] and one character;
    and the call returns. *)
Theorem X8_strict_width (c : Z) (line : string) (indent : nat)
  (Hroom : (2 * Z.of_nat indent + 4 <= c)%Z) :
  ∃ chunks, Writer.line (Some c) true line indent = Some chunks
    ∧ Forall (fun ch => (Z.of_nat (String.length ch) <= c + 1)%Z) chunks.
Proof.
  unfold Writer.line.
  assert (Hlen : Str.len (Str.times Writer._INDENT indent)
                 = (2 * Z.of_nat indent)%Z).
  { unfold Str.len. rewrite length_times. cbn. lia. }
  destruct (line_loop_total (S (String.length line)) c true
              (Str.times Writer._INDENT indent)
              (Str.len (Str.times Writer._INDENT indent)) false line)
    as [chunks Hchunks]; [lia|rewrite Hlen; lia|intros _; rewrite Hlen; lia|].
  exists chunks. split; [exact Hchunks|].
  eapply line_loop_strict_width; [exact Hchunks|done|rewrite Hlen; lia].
Qed.

(** A build line of the example in 30 columns. *)
Lemma X8_strict_width_witness :
  ∃ chunks,
    Writer.line (Some 30) true
      "build /out/bin/example_1: link /out/obj/a.o /out/obj/b.o" 0
    = Some chunks
    ∧ Forall (fun ch => (Z.of_nat (String.length ch) <= 30 + 1)%Z) chunks.
Proof.
  apply (X8_strict_width 30
           "build /out/bin/example_1: link /out/obj/a.o /out/obj/b.o" 0).
  vm_compute. discriminate.
Defined.

(** The same line, not strict, in 20 columns. *)
Lemma X7_line_lossless_witness :
  ∃ (items : list (string * string)) (ind_last last : string),
    ["build $" +:+ Str.nl; "  /out/bin/example_1: $" +:+ Str.nl;
     "  link $" +:+ Str.nl; "  /out/obj/a.o $" +:+ Str.nl;
     "  /out/obj/b.o" +:+ Str.nl]
    = ((fun it => it.1 +:+ it.2 +:+ "$" +:+ Str.nl) <$> items)
      ++ [ind_last +:+ last +:+ Str.nl]
    ∧ foldr (fun p r => p +:+ r) last items.*2
      = "build /out/bin/example_1: link /out/obj/a.o /out/obj/b.o".
Proof.
  destruct (X7_line_lossless (Some 20) false
              "build /out/bin/example_1: link /out/obj/a.o /out/obj/b.o" 0
              ["build $" +:+ Str.nl; "  /out/bin/example_1: $" +:+ Str.nl;
               "  link $" +:+ Str.nl; "  /out/obj/a.o $" +:+ Str.nl;
               "  /out/obj/b.o" +:+ Str.nl])
    as (items & il & last & H1 & H2 & _).
  { vm_compute. reflexivity. }
  by exists items, il, last.
Defined.

End WriterExtras.

Section EscapeExtras.
Import Ninja Escapes.

Lemma spec_dollar_run_le line i : (Writer.spec_dollar_run line i <= i)%nat.
Proof.
  induction i as [|k IH]; cbn [Writer.spec_dollar_run]; [done|].
  destruct (String.get k line) as [a|]; [|lia].
  destruct (Ascii.eqb a "$"); lia.
Qed.

(** The loop of [_is_unescaped] counts the run of ['$'] before index [S k]
    down to index 1. *)
Lemma dollar_run_spec line k :
  Writer.dollar_run line k
  = if (Writer.spec_dollar_run line (S k) =? S k)%nat then k
    else Writer.spec_dollar_run line (S k).
Proof.
  induction k as [|k IH].
  - cbn. destruct (String.get 0 line) as [a|]; [|done].
    by destruct (Ascii.eqb a "$").
  - change (Writer.dollar_run line (S k))
      with (match String.get (S k) line with
            | Some a => if Ascii.eqb a "$" then S (Writer.dollar_run line k) else O
            | None => O
            end).
    change (Writer.spec_dollar_run line (S (S k)))
      with (match String.get (S k) line with
            | Some a => if Ascii.eqb a "$"
                        then S (Writer.spec_dollar_run line (S k)) else O
            | None => O
            end).
    destruct (String.get (S k) line) as [a|]; [|done].
    destruct (Ascii.eqb a "$"); [|done].
    rewrite IH.
    destruct (Nat.eqb_spec (Writer.spec_dollar_run line (S k)) (S k)) as [E|E].
    + rewrite E. by rewrite Nat.eqb_refl.
    + destruct (Nat.eqb_spec (S (Writer.spec_dollar_run line (S k))) (S (S k)));
        [lia|done].
Qed.

Lemma get_None_ge i s : (String.length s <= i)%nat -> String.get i s = None.
Proof.
  revert s. induction i as [|k IH]; intros [|b s] H; cbn in *; try done;
    [lia|]. apply IH. lia.
Qed.

(** Within the line the checked loop counts what [dollar_run] counts. *)
Lemma dollar_loop_spec line k c :
  (k = 0 ∨ k < String.length line)%nat ->
  Writer.dollar_loop line k c = Ok (c + Writer.dollar_run line k)%nat.
Proof.
  revert c. induction k as [|k IH]; intros c Hk.
  - cbn. by rewrite Nat.add_0_r.
  - change (Writer.dollar_loop line (S k) c)
      with (match String.get (S k) line with
            | Some a => if Ascii.eqb a "$"
                        then Writer.dollar_loop line k (S c) else Ok c
            | None => Raise IndexError
            end).
    change (Writer.dollar_run line (S k))
      with (match String.get (S k) line with
            | Some a => if Ascii.eqb a "$" then S (Writer.dollar_run line k) else O
            | None => O
            end).
    destruct (String.get (S k) line) as [a|] eqn:E.
    + destruct (Ascii.eqb a "$").
      * rewrite IH by lia. f_equal. lia.
      * by rewrite Nat.add_0_r.
    + exfalso. assert (Hlt : (S k < String.length line)%nat) by lia.
      clear -E Hlt. revert line E Hlt. generalize (S k).
      induction n as [|n IH]; intros [|b s] E Hlt; cbn in *; try done; try lia.
      apply (IH s E). lia.
Qed.

(** X9: [_is_unescaped(line, i)] for an index [i] of at least 1.  When
    [i - 1] is positive and beyond the end of the line, the subscript
    raises [IndexError].  Otherwise it returns, and it is right about the
    character at index [i] exactly when the run of ['$'] before it does not
    reach the start of the line: when the run stops before index 0 the
    answer is the parity the spec asks for; when every character before
    [i] is a ['$'] the one at index 0 is not counted and the answer is the
    opposite. *)
Theorem X9_is_unescaped_exact (line : string) (i : Z) (Hi : (0 < i)%Z) :
  ((1 < i)%Z -> (Z.of_nat (String.length line) <= i - 1)%Z ->
   Writer._is_unescaped_checked line i = Raise IndexError)
  ∧ ((i = 1 ∨ i - 1 < Z.of_nat (String.length line))%Z ->
     Writer._is_unescaped_checked line i = Ok (Writer._is_unescaped line i)
     ∧ ((Writer.spec_dollar_run line (Z.to_nat i) < Z.to_nat i)%nat ->
        Writer._is_unescaped_checked line i
        = Ok (negb (Writer.spec_escaped line (Z.to_nat i))))
     ∧ (Writer.spec_dollar_run line (Z.to_nat i) = Z.to_nat i ->
        Writer._is_unescaped_checked line i
        = Ok (Writer.spec_escaped line (Z.to_nat i)))
     ∧ (String.get 0 line ≠ Some "$"%char ->
        Writer._is_unescaped_checked line i
        = Ok (negb (Writer.spec_escaped line (Z.to_nat i))))).
Proof.
  split.
  { intros H1 Hlen. unfold Writer._is_unescaped_checked.
    destruct (Z.to_nat (i - 1)) as [|k] eqn:Ek; [lia|].
    change (Writer.dollar_loop line (S k) 0)
      with (match String.get (S k) line with
            | Some a => if Ascii.eqb a "$"
                        then Writer.dollar_loop line k 1 else Ok 0%nat
            | None => Raise IndexError
            end).
    by rewrite get_None_ge by lia. }
  intros Hin.
  assert (Hc : Writer._is_unescaped_checked line i
               = Ok (Writer._is_unescaped line i)).
  { unfold Writer._is_unescaped_checked, Writer._is_unescaped.
    by rewrite dollar_loop_spec by lia. }
  split; [exact Hc|]. rewrite Hc. clear Hc Hin.
  unfold Writer._is_unescaped, Writer.spec_escaped.
  replace (Z.to_nat i) with (S (Z.to_nat (i - 1))) by lia.
  set (k := Z.to_nat (i - 1)). rewrite dollar_run_spec.
  assert (Hlt : (Writer.spec_dollar_run line (S k) < S k)%nat ->
                Nat.even (if (Writer.spec_dollar_run line (S k) =? S k)%nat
                          then k else Writer.spec_dollar_run line (S k))
                = negb (Nat.odd (Writer.spec_dollar_run line (S k)))).
  { intros Hlt.
    destruct (Nat.eqb_spec (Writer.spec_dollar_run line (S k)) (S k)); [lia|].
    by rewrite Nat.negb_odd. }
  split; [by intros H; rewrite Hlt|]. split.
  - intros ->. rewrite Nat.eqb_refl. by rewrite Nat.odd_succ.
  - intros H0. rewrite Hlt; [done|].
    pose proof (spec_dollar_run_le line (S k)) as Hle.
    destruct (decide (Writer.spec_dollar_run line (S k) = S k)) as [E|]; [|lia].
    exfalso. clear Hlt Hle. revert E. generalize k. clear -H0.
    induction k as [|k IH]; cbn [Writer.spec_dollar_run].
    + destruct (String.get 0 line) as [a|]; [|done].
      destruct (Ascii.eqb_spec a "$") as [->|]; [done|done].
    + destruct (String.get (S k) line) as [a|]; [|done].
      destruct (Ascii.eqb a "$"); [|done].
      intros [= E]. by apply IH.
Qed.

(** The space of a build line after ["cc"]: escaped, and seen as such; and
    an index beyond the end of a line. *)
Lemma X9_is_unescaped_exact_witness :
  Writer._is_unescaped_checked "build out.o: cc $ file.c" 17 = Ok false
  ∧ Writer._is_unescaped_checked "ab" 5 = Raise IndexError.
Proof.
  split.
  - exact (proj2 (proj2 (proj2 (proj2 (X9_is_unescaped_exact
             "build out.o: cc $ file.c" 17 eq_refl)
             ltac:(right; vm_compute; reflexivity))))
             ltac:(discriminate)).
  - exact (proj1 (X9_is_unescaped_exact "ab" 5 eq_refl) eq_refl
             ltac:(vm_compute; discriminate)).
Defined.

(** [s.replace(o, new)] for a one-character [o]. *)
Lemma replace_go_char fuel o new s :
  (String.length s < fuel)%nat ->
  Str.replace_go fuel (String o "") new s = subst_char o new s.
Proof.
  revert s. induction fuel as [|f IH]; intros s Hf; [lia|].
  destruct s as [|a s]; [reflexivity|].
  cbn [Str.replace_go subst_char String.prefix].
  destruct (ascii_dec o a) as [<-|Hne].
  - rewrite Ascii.eqb_refl. cbn [String.length Str.drop].
    rewrite IH by (cbn in Hf; lia). by destruct s.
  - destruct (Ascii.eqb_spec a o) as [->|]; [done|].
    rewrite IH by (cbn in Hf; lia). done.
Qed.

Lemma replace_char s o new :
  Str.replace s (String o "") new = subst_char o new s.
Proof. unfold Str.replace. apply replace_go_char. lia. Qed.

Lemma escape_subst value : _escape value = subst_char "$" "$$" value.
Proof. unfold _escape. apply replace_char. Qed.

(** The run of ['$'] before an index, one character further. *)
Lemma spec_dollar_run_cons a t j :
  Writer.spec_dollar_run (String a t) (S j)
  = if (Writer.spec_dollar_run t j =? j)%nat
    then (j + (if Ascii.eqb a "$" then 1 else 0))%nat
    else Writer.spec_dollar_run t j.
Proof.
  induction j as [|j IH].
  - cbn. by destruct (Ascii.eqb a "$").
  - change (Writer.spec_dollar_run (String a t) (S (S j)))
      with (match String.get j t with
            | Some b => if Ascii.eqb b "$"
                        then S (Writer.spec_dollar_run (String a t) (S j)) else O
            | None => O
            end).
    change (Writer.spec_dollar_run t (S j))
      with (match String.get j t with
            | Some b => if Ascii.eqb b "$"
                        then S (Writer.spec_dollar_run t j) else O
            | None => O
            end).
    destruct (String.get j t) as [b|]; [|done].
    destruct (Ascii.eqb b "$"); [|done].
    rewrite IH.
    destruct (Nat.eqb_spec (Writer.spec_dollar_run t j) j) as [E|E].
    + rewrite E, Nat.eqb_refl. lia.
    + destruct (Nat.eqb_spec (S (Writer.spec_dollar_run t j)) (S j)); [lia|done].
Qed.

Lemma subst_dollar_even s i :
  String.get i (subst_char "$" "$$" s) ≠ Some "$"%char ->
  Nat.even (Writer.spec_dollar_run (subst_char "$" "$$" s) i) = true.
Proof.
  revert i. induction s as [|a s IH]; intros i Hi.
  - destruct i; [done|]. cbn. done.
  - cbn [subst_char] in *. destruct (Ascii.eqb_spec a "$") as [->|Hne].
    + rewrite str_app_cons, str_app_cons, str_app_nil in *.
      destruct i as [|[|j]]; [done|done|].
      cbn [String.get] in Hi. specialize (IH j Hi).
      pose proof (spec_dollar_run_le (subst_char "$" "$$" s) j) as Hle.
      rewrite spec_dollar_run_cons, spec_dollar_run_cons.
      change (Ascii.eqb "$" "$") with true.
      destruct (Nat.eqb_spec
                  (Writer.spec_dollar_run (subst_char "$" "$$" s) j) j) as [E|E].
      * replace (j + 1)%nat with (S j) by lia. rewrite Nat.eqb_refl.
        rewrite E in IH. replace (S j + 1)%nat with (S (S j)) by lia.
        done.
      * destruct (Nat.eqb_spec
                    (Writer.spec_dollar_run (subst_char "$" "$$" s) j) (S j));
          [lia|done].
    + destruct i as [|j]; [done|].
      cbn [String.get] in Hi. specialize (IH j Hi).
      rewrite spec_dollar_run_cons.
      destruct (Ascii.eqb_spec a "$"); [done|].
      destruct (Nat.eqb_spec
                  (Writer.spec_dollar_run (subst_char "$" "$$" s) j) j) as [E|E];
        [|done].
      rewrite Nat.add_0_r. by rewrite <- E.
Qed.

Lemma subst_dollar_inj a b :
  subst_char "$" "$$" a = subst_char "$" "$$" b -> a = b.
Proof.
  revert b. induction a as [|x a IH]; intros [|y b] H; cbn [subst_char] in H.
  - done.
  - destruct (Ascii.eqb y "$"); rewrite ?str_app_cons in H; done.
  - destruct (Ascii.eqb x "$"); rewrite ?str_app_cons in H; done.
  - destruct (Ascii.eqb_spec x "$") as [->|Hx];
      destruct (Ascii.eqb_spec y "$") as [->|Hy];
      rewrite ?str_app_cons, ?str_app_nil in H.
    + injection H as H. f_equal. by apply IH.
    + injection H as H1 H2. congruence.
    + injection H as H1 H2. congruence.
    + injection H as -> H. f_equal. by apply IH.
Qed.

(** X10: [_escape] doubles every ['$'].  In the result every run of ['$']
    has even length, so no ['$'] of the value escapes the character that
    follows it; two values with the same escaped form are equal; and a
    value without ['$'] is returned as it is. *)
Theorem X10_escape_even_runs (value : string) :
  (∀ i, String.get i (_escape value) ≠ Some "$"%char ->
        Nat.even (Writer.spec_dollar_run (_escape value) i) = true)
  ∧ (∀ other, _escape value = _escape other -> value = other)
  ∧ (Contexts.contains "$" value = false -> _escape value = value).
Proof.
  rewrite escape_subst. split; [apply subst_dollar_even|]. split.
  - intros other. rewrite escape_subst. apply subst_dollar_inj.
  - induction value as [|a s IH]; [done|]. cbn [Contexts.contains subst_char].
    destruct (Ascii.eqb a "$"); [done|]. intros H. f_equal. by apply IH.
Qed.

(** [s.replace(old, new)] when the first character of [old] is not in
    [s]. *)
Lemma replace_go_absent fuel o rest new s :
  Contexts.contains o s = false ->
  Str.replace_go fuel (String o rest) new s = s.
Proof.
  revert s. induction fuel as [|f IH]; intros s Hs; [done|].
  destruct s as [|a s]; [reflexivity|].
  cbn [Contexts.contains] in Hs. apply orb_false_iff in Hs as [Ha Hs].
  cbn [Str.replace_go String.prefix].
  destruct (ascii_dec o a) as [<-|Hne].
  - by rewrite Ascii.eqb_refl in Ha.
  - by rewrite IH.
Qed.

Lemma subst_colon_space s :
  subst_char ":" "$:" (subst_char " " "$ " s) = escape_path s.
Proof.
  induction s as [|a s IH]; [done|]. cbn [subst_char escape_path].
  destruct (Ascii.eqb_spec a " ") as [->|Hsp].
  - rewrite str_app_cons, str_app_cons, str_app_nil. cbn [subst_char].
    change (Ascii.eqb "$" ":") with false. change (Ascii.eqb " " ":") with false.
    by rewrite IH.
  - cbn [subst_char]. destruct (Ascii.eqb_spec a ":") as [->|Hc].
    + by rewrite str_app_cons, str_app_cons, str_app_nil, IH.
    + by rewrite IH.
Qed.

Lemma pathify_escape_path value :
  Contexts.contains "$" value = false -> _pathify value = escape_path value.
Proof.
  intros H. unfold _pathify.
  replace (Str.replace value "$ " "$$ ") with value
    by (unfold Str.replace; by rewrite replace_go_absent).
  by rewrite !replace_char, subst_colon_space.
Qed.

Lemma escape_path_run s i :
  Contexts.contains "$" s = false ->
  String.get i (escape_path s) = Some " "%char
  ∨ String.get i (escape_path s) = Some ":"%char ->
  Writer.spec_dollar_run (escape_path s) i = 1%nat.
Proof.
  revert i. induction s as [|a s IH]; intros i Hs Hi.
  - destruct i; cbn in Hi; by destruct Hi.
  - cbn [Contexts.contains] in Hs. apply orb_false_iff in Hs as [Ha Hs].
    assert (Hrest : ∀ b j, b ≠ "$"%char ->
              String.get j (escape_path s) = Some " "%char
              ∨ String.get j (escape_path s) = Some ":"%char ->
              Writer.spec_dollar_run (String b (escape_path s)) (S j) = 1%nat
              ∧ (1 <= j)%nat).
    { intros b j Hb Hj. specialize (IH j Hs Hj).
      assert (1 <= j)%nat.
      { destruct j; [cbn in IH; done|lia]. }
      split; [|done]. rewrite spec_dollar_run_cons, IH.
      destruct (Ascii.eqb_spec b "$"); [done|].
      destruct (Nat.eqb_spec 1 j); lia. }
    cbn [escape_path] in *.
    destruct (Ascii.eqb_spec a " ") as [->|Hsp];
      [|destruct (Ascii.eqb_spec a ":") as [->|Hc]].
    + destruct i as [|[|j]]; [cbn in Hi; by destruct Hi|reflexivity|].
      cbn [String.get] in Hi.
      destruct (Hrest " "%char j ltac:(done) Hi) as [Hrun Hj].
      rewrite spec_dollar_run_cons, Hrun.
      destruct (Nat.eqb_spec 1 (S j)); [lia|done].
    + destruct i as [|[|j]]; [cbn in Hi; by destruct Hi|reflexivity|].
      cbn [String.get] in Hi.
      destruct (Hrest ":"%char j ltac:(done) Hi) as [Hrun Hj].
      rewrite spec_dollar_run_cons, Hrun.
      destruct (Nat.eqb_spec 1 (S j)); [lia|done].
    + destruct i as [|j].
      { cbn in Hi. destruct Hi as [[= ->]|[= ->]]; done. }
      cbn [String.get] in Hi. apply Hrest; [|done].
      intros ->. by rewrite Ascii.eqb_refl in Ha.
Qed.

(** X11: for a value without ['$'], [_pathify] puts one ['$'] before every
    space and every colon and changes nothing else; each space and colon of
    the result then has a run of exactly one ['$'] before it: it is
    escaped. *)
Theorem X11_pathify_escapes (value : string)
  (Hplain : Contexts.contains "$" value = false) :
  _pathify value = escape_path value
  ∧ (∀ i, String.get i (_pathify value) = Some " "%char
          ∨ String.get i (_pathify value) = Some ":"%char ->
          Writer.spec_dollar_run (_pathify value) i = 1%nat
          ∧ Writer.spec_escaped (_pathify value) i = true).
Proof.
  rewrite pathify_escape_path by done. split; [done|].
  intros i Hi. unfold Writer.spec_escaped.
  by rewrite (escape_path_run value i Hplain Hi).
Qed.

(** A path with a space and a drive letter. *)
Lemma X11_pathify_escapes_witness :
  _pathify "C:/my src/a.c" = "C$:/my$ src/a.c".
Proof.
  exact (proj1 (X11_pathify_escapes "C:/my src/a.c" eq_refl)).
Defined.

End EscapeExtras.

(** * Further properties of the generator *)

Section InputExtras.
Import Contexts Projects Ninja.

Lemma filter_seen (seen r : list string) :
  (∀ x, x ∈ r -> x ∈ seen) -> filter (fun x => x ∉ seen) r = [].
Proof.
  induction r as [|x r IH]; intros H; [done|].
  rewrite filter_cons_False.
  - apply IH. intros y Hy. apply H. by right.
  - intros Hx. apply Hx, H. by left.
Qed.

(** Values seen before add nothing. *)
Lemma dedup_app_seen (l k : list string) :
  (∀ x, x ∈ k -> x ∈ l) -> dedup (l ++ k) = dedup l.
Proof.
  intros Hk. unfold dedup. rewrite foldl_app. fold (dedup l).
  rewrite dedup_loop, filter_seen; [by rewrite app_nil_r|].
  intros x Hx. rewrite dedup_spec, spec_dedup_elem.
  apply Hk. by apply spec_dedup_elem.
Qed.

(** X12: [inputs += all_phase_outputs[name]] extends the list of the phase
    object itself, so after [_write_rule] has resolved the inputs of a phase
    its [inputs] hold the outputs of its input phases as well.  Resolving
    again, as a second generation does, appends them once more, and [dedup]
    gives the same inputs as the first time. *)
Theorem X12_resolve_inputs_repeatable (st : State) (phase : PhaseId)
  (names : list string) (outs : list (list string))
  (Hn : Forall2 (fun n o => all_phase_outputs st !! n = Some o) names outs) :
  ∃ r st1,
    resolve_inputs phase names st = Ok (r, st1)
    ∧ inputs_of st1 phase = inputs_of st phase ++ mjoin outs
    ∧ all_phase_outputs st1 = all_phase_outputs st
    ∧ ∃ st2, resolve_inputs phase names st1 = Ok (r, st2)
        ∧ inputs_of st2 phase
          = (inputs_of st phase ++ mjoin outs) ++ mjoin outs.
Proof.
  destruct (extend_inputs_spec phase names outs st Hn)
    as (st1 & E1 & Hi1 & Ha1 & _).
  assert (Hn1 : Forall2 (fun n o => all_phase_outputs st1 !! n = Some o)
                  names outs) by (by rewrite Ha1).
  destruct (extend_inputs_spec phase names outs st1 Hn1)
    as (st2 & E2 & Hi2 & _).
  exists (dedup (inputs_of st1 phase)), st1.
  split.
  { unfold resolve_inputs. rewrite (bind_Ok _ _ _ _ _ E1). reflexivity. }
  split; [done|]. split; [done|].
  exists st2. split.
  - unfold resolve_inputs. rewrite (bind_Ok _ _ _ _ _ E2).
    unfold gets, mbind, M_bind, mret, M_ret.
    rewrite Hi2, dedup_app_seen; [done|].
    intros x Hx. rewrite Hi1, elem_of_app. by right.
  - by rewrite Hi2, Hi1.
Qed.

(** [link] of the example, once [compile] has its outputs. *)
Lemma X12_resolve_inputs_repeatable_witness :
  ∃ r st1,
    resolve_inputs 1%nat ["compile"] Examples.compiled = Ok (r, st1)
    ∧ inputs_of st1 1%nat = [] ++ ["/out/obj/a.o"; "/out/obj/b.o"]
    ∧ outcome (resolve_inputs 1%nat ["compile"] st1) = Ok r.
Proof.
  assert (Hn : Forall2
            (fun n o => all_phase_outputs Examples.compiled !! n = Some o)
            ["compile"] [["/out/obj/a.o"; "/out/obj/b.o"]]).
  { constructor; [vm_compute; reflexivity|constructor]. }
  destruct (X12_resolve_inputs_repeatable Examples.compiled 1%nat _ _ Hn)
    as (r & st1 & E1 & Hi & _ & st2 & E2 & _).
  exists r, st1. split; [exact E1|]. split; [exact Hi|]. by rewrite E2.
Defined.

End InputExtras.

Section FanOutExtras.
Import Contexts Projects Ninja.

Variable join_path : string -> option string -> string.
Variable change_extension : string -> option string -> string.
Variable columns : option Z.
Variable strict : bool.
Hypothesis Hwriter : writer_ok columns strict.

(** [w.line] at an indent of 0 or 1 only appends to [io]. *)
Lemma w_line_io line indent st :
  (indent <= 1)%nat ->
  ∃ chunks, w_line columns strict line indent st
            = Ok (tt, set_io (fun l => l ++ chunks) st).
Proof.
  intros Hi. unfold w_line.
  destruct (line_total columns strict line indent Hi Hwriter) as [chunks ->].
  by exists chunks.
Qed.

(** X13: the fan-out loop records one output per input, in the order of
    the inputs: the outputs of the phase in the memo grow by the output
    derived from each input, the list under [build._phase_results] grows by
    the same outputs when results are kept and is left alone when they are
    not, and no other phase's entry changes.  When the executor's output
    type bound no [output_base], the first input raises
    [UnboundLocalError]. *)
Theorem X13_fan_out_outputs (name : string) (phase : PhaseId)
  (has_results : bool) (rule_name input_base ob : string)
  (ext : option string) (inputs : list string) (st : State) :
  (∃ st',
    fan_out_loop join_path change_extension columns strict name phase
      has_results rule_name input_base (Some ob) ext inputs st = Ok (tt, st')
    ∧ default [] (all_phase_outputs st' !! name)
      = default [] (all_phase_outputs st !! name)
        ++ (fan_out join_path change_extension input_base ob ext <$> inputs)
    ∧ (∀ n, n ≠ name -> all_phase_outputs st' !! n = all_phase_outputs st !! n)
    ∧ (if has_results
       then default [] (results st' !! phase)
            = default [] (results st !! phase)
              ++ (fan_out join_path change_extension input_base ob ext <$> inputs)
            ∧ ∀ q, q ≠ phase -> results st' !! q = results st !! q
       else results st' = results st)
    ∧ heap st' = heap st ∧ stack st' = stack st ∧ written st' = written st)
  ∧ (∀ input rest,
       fan_out_loop join_path change_extension columns strict name phase
         has_results rule_name input_base None ext (input :: rest) st
       = Raise UnboundLocalError).
Proof.
  split; [|intros input rest; reflexivity].
  revert st. induction inputs as [|input inputs IH]; intros st.
  - exists st. split; [done|]. rewrite !app_nil_r.
    split; [done|]. split; [done|]. split; [by destruct has_results|done].
  - cbn [fan_out_loop bound]. rewrite ret_bind.
    match goal with
    | |- context [w_line columns strict ?ln 0] =>
        destruct (w_line_io ln 0 st (le_S _ _ (le_n _))) as [chunks E1]
    end.
    rewrite (bind_Ok _ _ _ _ _ E1).
    set (o := fan_out join_path change_extension input_base ob ext input).
    set (st1 := set_io (fun l => l ++ chunks) st).
    assert (∃ st2, append_output name phase has_results o st1 = Ok (tt, st2)
              ∧ all_phase_outputs st2
                = <[name := default [] (all_phase_outputs st !! name) ++ [o]]>
                    (all_phase_outputs st)
              ∧ results st2
                = (if has_results
                   then <[phase := default [] (results st !! phase) ++ [o]]>
                          (results st)
                   else results st)
              ∧ heap st2 = heap st ∧ stack st2 = stack st
              ∧ written st2 = written st)
      as (st2 & E2 & A2 & R2 & H2 & S2 & W2).
    { unfold append_output. rewrite modify_bind.
      destruct has_results; eexists; (split; [reflexivity|]); done. }
    rewrite (bind_Ok _ _ _ _ _ E2).
    destruct (IH st2) as (st' & E & A & An & R & H & S & W).
    exists st'. split; [exact E|].
    split.
    { rewrite A, A2, lookup_insert_eq. cbn [default from_option id fmap list_fmap].
      fold o. by rewrite <- app_assoc. }
    split.
    { intros n Hn. rewrite An, A2 by done. by rewrite lookup_insert_ne. }
    split.
    { destruct has_results.
      - destruct R as [R Rq]. split.
        + rewrite R, R2, lookup_insert_eq.
          cbn [default from_option id fmap list_fmap]. fold o.
          by rewrite <- app_assoc.
        + intros q Hq. rewrite Rq, R2 by done. by rewrite lookup_insert_ne.
      - by rewrite R, R2. }
    by rewrite H, S, W, H2, S2, W2.
Qed.

End FanOutExtras.

Section FanOutExample.
Import Contexts Projects Ninja.

(** The two sources of [compile] in the example. *)
Lemma X13_fan_out_outputs_witness :
  ∃ st',
    fan_out_loop Examples.join_path Examples.change_extension None false
      "compile" 0%nat false "compile" "/src/" (Some "/out/obj") (Some "o")
      ["/src/a.c"; "/src/b.c"] (Examples.start Examples.objects) = Ok (tt, st')
    ∧ default [] (all_phase_outputs st' !! "compile")
      = ["/out/obj/a.o"; "/out/obj/b.o"].
Proof.
  destruct (X13_fan_out_outputs Examples.join_path Examples.change_extension
              None false ltac:(intros H; discriminate H)
              "compile" 0%nat false "compile" "/src/" "/out/obj" (Some "o")
              ["/src/a.c"; "/src/b.c"] (Examples.start Examples.objects))
    as [(st' & E & Ho & _) _].
  exists st'. split; [exact E|]. rewrite Ho. vm_compute. reflexivity.
Defined.

End FanOutExample.

Section BodyExtras.
Import Contexts Projects Ninja.

Variable join_path : string -> option string -> string.
Variable change_extension : string -> option string -> string.
Variable P : Project.
Variable columns : option Z.
Variable strict : bool.
Variable top0 : Context.
Hypothesis Hconf : configured top0.
Hypothesis Hwriter : writer_ok columns strict.

(** The block "# Paths" for an output type that is neither ['object'] nor
    ['binary']: [output_base] stays unbound. *)
Lemma paths_other ph st :
  cfg top0 st ->
  String.eqb (output_type (executor ph)) "object" = false ->
  String.eqb (output_type (executor ph)) "binary" = false ->
  ∃ st' ib, paths join_path P ph st = Ok ((ib, None), st')
            ∧ kept top0 st st' ∧ results st' = results st.
Proof.
  intros (l & top & Hst & Hwf & Hag) Ho Hb.
  destruct Hconf as (_ & (si & Hi) & _).
  set (c0 := Context_init (Some top) true).
  set (st1 := set_stack (fun _ => (l ++ [top]) ++ [c0]) st).
  destruct (on_ctx_get st1 (l ++ [top]) c0 "paths" "input" VNone eq_refl
              (wf_child _ Hwf) ltac:(by_compute) ltac:(by_compute) eq_refl eq_refl)
    as (c1 & E1 & Hwf1 & Ha1).
  assert (Hn1 : nearest c0 "paths" "input" = nearest top0 "paths" "input").
  { unfold c0. rewrite nearest_child by by_compute.
    symmetry. by apply agree_nearest. }
  rewrite Hn1, Hi in E1. cbn [default from_option id] in E1.
  destruct (agree_child top c1 Ha1 Hwf1) as (top' & Hp & Hat & Hwt).
  exists (set_stack (fun _ => l ++ [top'])
            (set_stack (fun _ => (l ++ [top]) ++ [c1]) st1)).
  exists (if Str.endswith si os_sep then si else si +:+ os_sep).
  split.
  - unfold paths.
    apply (with_current_true _ st l top _ _ c1 top' Hst); [|reflexivity|exact Hp].
    fold c0. fold st1.
    change "paths.input" with ("paths" +:+ "." +:+ "input").
    rewrite (bind_Ok _ _ _ _ _ E1). rewrite Ho, Hb. reflexivity.
  - split; [|done]. split; [|done].
    exists l, top'. split; [done|]. split; [done|]. by eapply agree_trans.
Qed.

(** X14: a phase whose executor has an output type other than ['object']
    and ['binary'] and that names an output makes [_write_rule] raise
    [UnboundLocalError]: the block "# Paths" binds [output_base] only for
    those two types, and the block "# Single output?" reads it. *)
Theorem X14_unbound_output_base (name : string) (phase : PhaseId)
  (names : list string) (st : State)
  (Hcfg : cfg top0 st)
  (Hobj : String.eqb (output_type (executor (heap st phase))) "object" = false)
  (Hbin : String.eqb (output_type (executor (heap st phase))) "binary" = false)
  (Hout : nonempty (output (heap st phase)) = true) :
  write_rule_body join_path change_extension P columns strict
    name phase names st = Raise UnboundLocalError.
Proof.
  unfold write_rule_body. rewrite modify_bind.
  set (st1 := set_outputs _ st).
  assert (C1 : cfg top0 st1) by exact Hcfg.
  destruct (get_block top0 "build" "_phase_results" VNone st1 C1
              ltac:(by_compute) ltac:(by_compute) ltac:(by_compute)
              eq_refl eq_refl) as (st2 & E2 & (C2 & H2 & A2 & W2) & _).
  change ("build" +:+ "." +:+ "_phase_results") with "build._phase_results" in E2.
  rewrite (bind_Ok _ _ _ _ _ E2).
  assert (∃ hr st3,
    (match default VNone (nearest top0 "build" "_phase_results") with
     | VNone => mret false
     | VResults =>
         modify (set_results (fun m =>
           match m !! phase with Some _ => m | None => <[phase := []]> m end));;
         mret true
     | _ => beyond
     end : M bool) st2 = Ok (hr, st3)
    ∧ cfg top0 st3 ∧ heap st3 = heap st2) as (hr & st3 & E3 & C3 & H3).
  { destruct Hconf as (_ & _ & _ & _ & [Hr|[Hr|Hr]] & _); rewrite Hr;
      cbn [default from_option id]; eexists _, _; (split; [reflexivity|]); done. }
  rewrite (bind_Ok _ _ _ _ _ E3).
  destruct (w_line_kept columns strict top0 Hwriter "" 0 st3 C3 (le_S _ _ (le_n _)))
    as (st4 & E4 & (C4 & H4 & A4 & W4) & _).
  rewrite (bind_Ok _ _ _ _ _ E4), modify_bind.
  set (st5 := set_written _ st4).
  assert (C5 : cfg top0 st5) by exact C4.
  match goal with
  | |- context [w_line columns strict ("rule " +:+ ?x) 0] =>
      destruct (w_line_kept columns strict top0 Hwriter ("rule " +:+ x) 0 st5 C5
                  (le_S _ _ (le_n _)))
        as (st6 & E6 & (C6 & H6 & A6 & W6) & _)
  end.
  rewrite (bind_Ok _ _ _ _ _ E6), gets_bind.
  assert (Hheap : heap st6 = heap st).
  { rewrite H6. unfold st5. cbn [heap set_written]. rewrite H4, H3, H2. reflexivity. }
  rewrite Hheap.
  set (ph := heap st phase) in *.
  match goal with
  | |- context [w_line columns strict ("description = " +:+ ?x) 1] =>
      destruct (w_line_kept columns strict top0 Hwriter ("description = " +:+ x)
                  1 st6 C6 (le_n _))
        as (st7 & E7 & (C7 & H7 & A7 & W7) & _)
  end.
  rewrite (bind_Ok _ _ _ _ _ E7).
  match goal with
  | |- context [w_line columns strict ("command = " +:+ ?x) 1] =>
      destruct (w_line_kept columns strict top0 Hwriter ("command = " +:+ x)
                  1 st7 C7 (le_n _))
        as (st8 & E8 & (C8 & H8 & A8 & W8) & _)
  end.
  rewrite (bind_Ok _ _ _ _ _ E8).
  destruct (deps_kept columns strict top0 Hwriter ph st8 C8)
    as (st9 & E9 & (C9 & H9 & A9 & W9) & _).
  rewrite (bind_Ok _ _ _ _ _ E9).
  destruct (paths_other ph st9 C9 Hobj Hbin) as (st10 & ib & E10 & _).
  rewrite (bind_Ok _ _ _ _ _ E10). cbv beta iota.
  apply bind_Raise. rewrite Hout. reflexivity.
Qed.

End BodyExtras.

Section BodyExample.
Import Contexts Projects Ninja.

(** A phase run by [Examples.yacc]. *)
Lemma X14_unbound_output_base_witness :
  write_rule_body Examples.join_path Examples.change_extension
    Examples.project None false "generate" 0%nat []
    (Examples.start (fun _ => Examples.generate))
  = Raise UnboundLocalError.
Proof.
  assert (Hwf : wf Examples.child) by (apply wfb_wf; vm_compute; reflexivity).
  assert (Hconf : configured Examples.child).
  { split; [exact Hwf|].
    split; [eexists; vm_compute; reflexivity|].
    split; [eexists; vm_compute; reflexivity|].
    split; [eexists; vm_compute; reflexivity|].
    split; [left; vm_compute; reflexivity|].
    vm_compute. reflexivity. }
  assert (Hcfg : cfg Examples.child (Examples.start (fun _ => Examples.generate))).
  { exists [], Examples.child. split; [reflexivity|]. split; [exact Hwf|].
    apply agree_refl. }
  exact (X14_unbound_output_base Examples.join_path Examples.change_extension
           Examples.project None false Examples.child Hconf
           ltac:(intros H; discriminate H) "generate" 0%nat []
           (Examples.start (fun _ => Examples.generate)) Hcfg
           eq_refl eq_refl eq_refl).
Defined.

End BodyExample.

Section ProjectExtras.
Import Contexts Projects Ninja.

(** X15: for a project whose phases have distinct names, the name
    [get_phase_name] gives for a phase object leads back to that object,
    [get_phase_name] gives no name exactly when the object is not a phase of
    the project, and a phase found by name has a name found by object.  A
    reference by object and a reference by that name resolve alike. *)
Theorem X15_phase_name_round_trip (P : Project)
  (Hnodup : NoDup (phases P).*1) :
  (∀ p name, get_phase_name (phases P) p = Some name ->
     phases_get (phases P) name = Some p)
  ∧ (∀ p, get_phase_name (phases P) p = None ↔ p ∉ (phases P).*2)
  ∧ (∀ name p, phases_get (phases P) name = Some p ->
       ∃ name', get_phase_name (phases P) p = Some name'
                ∧ phases_get (phases P) name' = Some p)
  ∧ (∀ p name q, resolve P (FromPhase p) = Ok (name, q) ->
       q = p ∧ resolve P (FromName name) = Ok (name, p)).
Proof.
  assert (H1 : ∀ p name, get_phase_name (phases P) p = Some name ->
                 phases_get (phases P) name = Some p).
  { intros p name H. apply elem_phases_get; [done|].
    by apply get_phase_name_elem. }
  split; [exact H1|]. split; [apply get_phase_name_None|]. split.
  - intros name p H. apply phases_get_elem in H.
    destruct (get_phase_name (phases P) p) as [name'|] eqn:E.
    + exists name'. split; [done|]. by apply H1.
    + apply get_phase_name_None in E. exfalso. apply E.
      apply list_elem_of_fmap. by exists (name, p).
  - intros p name q H. cbn [resolve] in H.
    destruct (get_phase_name (phases P) p) as [n|] eqn:E; [|done].
    injection H as <- <-. split; [done|].
    cbn [resolve]. by rewrite (H1 _ _ E).
Qed.

(** The example project. *)
Lemma X15_phase_name_round_trip_witness :
  resolve Examples.project (FromName "compile") = Ok ("compile", 0%nat).
Proof.
  assert (Hnodup : NoDup (phases Examples.project).*1) by by_compute.
  exact (proj2 (proj2 (proj2 (proj2
           (X15_phase_name_round_trip Examples.project Hnodup)))
           0%nat "compile" 0%nat eq_refl)).
Defined.

End ProjectExtras.

(** * pkg-config *)

Section PkgConfigExtras.
Import Contexts Ninja PkgConfig.

(** The loop over a list in two parts. *)
Lemma add_cflags_app pre rest :
  (add_cflags_to_executor pre).2 = Ok tt ->
  add_cflags_to_executor (pre ++ rest)
  = ((add_cflags_to_executor pre).1 ++ (add_cflags_to_executor rest).1,
     (add_cflags_to_executor rest).2).
Proof.
  induction pre as [|value pre IH]; intros Hpre.
  - cbn [app add_cflags_to_executor fst]. by destruct (add_cflags_to_executor rest).
  - cbn [app add_cflags_to_executor] in *.
    destruct (Str.startswith value "-I").
    { destruct (add_cflags_to_executor pre) as [calls r] eqn:E.
      cbn [snd] in Hpre. rewrite IH by done. done. }
    destruct (Str.startswith value "-D"); [|by apply IH].
    destruct (contains "=" (Str.from value 2)).
    + destruct (split (Str.from value 2) "=" 2) as [|k [|v [|? ?]]]; try done.
      destruct (add_cflags_to_executor pre) as [calls r] eqn:E.
      cbn [snd] in Hpre. rewrite IH by done. done.
    + destruct (add_cflags_to_executor pre) as [calls r] eqn:E.
      cbn [snd] in Hpre. rewrite IH by done. done.
Qed.

Lemma flag_D x :
  Str.startswith ("-D" +:+ x) "-I" = false
  ∧ Str.startswith ("-D" +:+ x) "-D" = true
  ∧ Str.from ("-D" +:+ x) 2 = x.
Proof.
  split; [|split].
  - by rewrite !str_app_cons.
  - apply prefix_app.
  - apply (from_app "-D" x).
Qed.

(** X16: [add_cflags_to_executor] splits a [-D] flag with
    [split('=', 2)] and unpacks two names.  A flag [-Dk=v] defines [k] as
    [v]; a flag [-Dk=v=w], whose value holds an ['='], raises [ValueError],
    after the calls for the flags before it were made and before any call
    for the flags after it. *)
Theorem X16_cflags_define (pre rest : list string) (k v w : string)
  (Hk : contains "=" k = false) (Hv : contains "=" v = false)
  (Hpre : (add_cflags_to_executor pre).2 = Ok tt) :
  add_cflags_to_executor (pre ++ ("-D" +:+ k +:+ "=" +:+ v) :: rest)
  = ((add_cflags_to_executor pre).1
       ++ define k (Some v) :: (add_cflags_to_executor rest).1,
     (add_cflags_to_executor rest).2)
  ∧ add_cflags_to_executor
      (pre ++ ("-D" +:+ k +:+ "=" +:+ v +:+ "=" +:+ w) :: rest)
    = ((add_cflags_to_executor pre).1, Raise ValueError)
  ∧ add_cflags_to_executor (pre ++ ("-D" +:+ k) :: rest)
    = ((add_cflags_to_executor pre).1
         ++ define k None :: (add_cflags_to_executor rest).1,
       (add_cflags_to_executor rest).2).
Proof.
  rewrite !add_cflags_app by done.
  cbn [add_cflags_to_executor].
  destruct (flag_D (k +:+ "=" +:+ v)) as (-> & -> & ->).
  destruct (flag_D (k +:+ "=" +:+ v +:+ "=" +:+ w)) as (-> & -> & ->).
  destruct (flag_D k) as (-> & -> & ->).
  rewrite Hk.
  assert (H1 : contains "=" (k +:+ "=" +:+ v) = true
               ∧ split (k +:+ "=" +:+ v) "=" 2 = [k; v]).
  { split.
    - rewrite contains_app. change ("=" +:+ v) with (String "=" v).
      cbn [contains]. by rewrite Ascii.eqb_refl, orb_true_r.
    - unfold split. change ("=" +:+ v) with (String "=" v).
      rewrite split_go_sep by done. rewrite str_app_nil.
      by rewrite split_go_plain. }
  assert (H2 : contains "=" (k +:+ "=" +:+ v +:+ "=" +:+ w) = true
               ∧ split (k +:+ "=" +:+ v +:+ "=" +:+ w) "=" 2 = [k; v; w]).
  { change ("=" +:+ v +:+ "=" +:+ w) with (String "=" (v +:+ String "=" w)).
    split.
    - rewrite contains_app. cbn [contains].
      by rewrite Ascii.eqb_refl, orb_true_r.
    - unfold split. rewrite split_go_sep by done.
      rewrite split_go_sep by done. rewrite !str_app_nil.
      by destruct w. }
  destruct H1 as [-> ->]. destruct H2 as [-> ->].
  destruct (add_cflags_to_executor rest) as [calls r].
  cbn [fst snd]. rewrite app_nil_r. done.
Qed.

(** The flags of a package with a definition that holds a URL query. *)
Lemma X16_cflags_define_witness :
  add_cflags_to_executor ["-I/usr/include/gtk"; "-DQUERY=a=b"; "-DNDEBUG"]
  = ([add_include_path "/usr/include/gtk"], Raise ValueError).
Proof.
  exact (proj1 (proj2 (X16_cflags_define ["-I/usr/include/gtk"] ["-DNDEBUG"]
           "QUERY" "a" "b" eq_refl eq_refl eq_refl))).
Defined.

(** X17: [add_libs_to_executor] keeps the order of the flags, which is
    the order the linker sees: the flags [-l] of a list of libraries add
    those libraries in that order, the flags [-L] of a list of paths add
    those paths in that order, the calls for a list in two parts are the
    calls for the first part followed by those for the second, and a flag
    that starts with neither adds nothing. *)
Theorem X17_libs_in_order (names : list string) (a b : list string) :
  add_libs_to_executor ((fun n => "-l" +:+ n) <$> names) = add_library <$> names
  ∧ add_libs_to_executor ((fun n => "-L" +:+ n) <$> names)
    = add_library_path <$> names
  ∧ add_libs_to_executor (a ++ b)
    = add_libs_to_executor a ++ add_libs_to_executor b
  ∧ (∀ value, Str.startswith value "-L" = false ->
       Str.startswith value "-l" = false ->
       add_libs_to_executor (a ++ value :: b) = add_libs_to_executor (a ++ b)).
Proof.
  assert (Happ : ∀ a b, add_libs_to_executor (a ++ b)
                        = add_libs_to_executor a ++ add_libs_to_executor b).
  { clear. intros a b. induction a as [|value a IH]; [done|].
    cbn [app add_libs_to_executor].
    destruct (Str.startswith value "-L"); [by rewrite IH|].
    destruct (Str.startswith value "-l"); by rewrite IH. }
  split; [|split; [|split; [apply Happ|]]].
  - induction names as [|n names IH]; [done|].
    cbn [fmap list_fmap add_libs_to_executor].
    replace (Str.startswith ("-l" +:+ n) "-L") with false
      by (by rewrite !str_app_cons).
    replace (Str.startswith ("-l" +:+ n) "-l") with true
      by (symmetry; apply prefix_app).
    replace (Str.from ("-l" +:+ n) 2) with n
      by (symmetry; apply (from_app "-l" n)).
    f_equal. exact IH.
  - induction names as [|n names IH]; [done|].
    cbn [fmap list_fmap add_libs_to_executor].
    replace (Str.startswith ("-L" +:+ n) "-L") with true
      by (symmetry; apply prefix_app).
    replace (Str.from ("-L" +:+ n) 2) with n
      by (symmetry; apply (from_app "-L" n)).
    f_equal. exact IH.
  - intros value HL Hl. rewrite !Happ. cbn [add_libs_to_executor].
    by rewrite HL, Hl.
Qed.

End PkgConfigExtras.

Section PkgConfigSettings.
Import Contexts Ninja PkgConfig.

(** [configure_pkg_config] on a mutable context. *)
Lemma configure_pkg_config_spec command path st l top :
  stack st = l ++ [top] -> wf top -> _immutable top = false ->
  ∃ top', configure_pkg_config command path st
          = Ok (tt, set_stack (fun _ => l ++ [top']) st)
          ∧ wf top'
          ∧ nearest top' "pkg_config" "command"
            = Some (if truthy command then command
                    else VStr DEFAULT_PKG_CONFIG_COMMAND)
          ∧ nearest top' "pkg_config" "path" = Some path.
Proof.
  intros Hst Hwf Himm. unfold configure_pkg_config.
  set (cmd := if truthy command then command
              else VStr DEFAULT_PKG_CONFIG_COMMAND).
  set (st0 := set_stack (fun _ => (l ++ [top]) ++ [top]) st).
  destruct (on_ctx_write st0 (l ++ [top]) top "pkg_config" "command" cmd
              eq_refl Hwf Himm ltac:(by_compute) ltac:(by_compute) ltac:(by_compute))
    as (c1 & E1 & W1 & I1 & P1 & L1).
  set (st1 := set_stack (fun _ => (l ++ [top]) ++ [c1]) st0) in E1.
  destruct (on_ctx_write st1 (l ++ [top]) c1 "pkg_config" "path" path
              eq_refl W1 I1 ltac:(by_compute) ltac:(by_compute) ltac:(by_compute))
    as (c2 & E2 & W2 & I2 & P2 & L2).
  exists c2. split; [|split; [done|]].
  - rewrite (with_current_false _ st l top tt
               (set_stack (fun _ => (l ++ [top]) ++ [c2]) st1) c2 Hst);
      [reflexivity| |reflexivity].
    fold st0. rewrite (bind_Ok _ _ _ _ _ E1). exact E2.
  - rewrite !(nearest_unfold c2), !L2, !L1. done.
Qed.

(** The first block of [Package._parse] for a package built without a
    command and a path of its own. *)
Lemma parse_settings_spec PKG_CONFIG st l top :
  stack st = l ++ [top] -> wf top ->
  ∃ top', parse_settings VNone VNone PKG_CONFIG st
          = Ok ((default (VStr (default DEFAULT_PKG_CONFIG_COMMAND PKG_CONFIG))
                   (nearest top "pkg_config" "command"),
                 default VNone (nearest top "pkg_config" "path")),
                set_stack (fun _ => l ++ [top']) st)
          ∧ wf top' ∧ agree top top'.
Proof.
  intros Hst Hwf. unfold parse_settings. cbn [fallback].
  set (d := VStr (default DEFAULT_PKG_CONFIG_COMMAND PKG_CONFIG)).
  set (st1 := set_stack (fun _ => (l ++ [top]) ++ [Context_init (Some top) true]) st).
  destruct (on_ctx_get st1 (l ++ [top]) (Context_init (Some top) true)
              "pkg_config" "command" d eq_refl
              (wf_child _ Hwf) ltac:(by_compute) ltac:(by_compute) eq_refl eq_refl)
    as (c1 & E1 & Hwf1 & Ha1).
  set (st2 := set_stack (fun _ => (l ++ [top]) ++ [c1]) st1) in E1.
  destruct (on_ctx_get st2 (l ++ [top]) c1
              "pkg_config" "path" VNone eq_refl
              Hwf1 ltac:(by_compute) ltac:(by_compute) eq_refl eq_refl)
    as (c2 & E2 & Hwf2 & Ha2).
  destruct (agree_child top c2 (agree_trans _ _ _ Ha1 Ha2) Hwf2)
    as (top' & Hp & Hat & Hwt).
  exists top'. split; [|done].
  rewrite (with_current_true _ st l top
             (default d (nearest top "pkg_config" "command"),
              default VNone (nearest top "pkg_config" "path"))
             (set_stack (fun _ => (l ++ [top]) ++ [c2]) st2) c2 top' Hst);
    [reflexivity| |reflexivity|exact Hp].
  fold st1.
  change ("pkg_config.command") with ("pkg_config" +:+ "." +:+ "command").
  rewrite (bind_Ok _ _ _ _ _ E1).
  change ("pkg_config.path") with ("pkg_config" +:+ "." +:+ "path").
  rewrite (bind_Ok _ _ _ _ _ E2). unfold mret, M_ret.
  rewrite <- (agree_nearest _ _ "pkg_config" "path" Ha1).
  rewrite !nearest_child by by_compute.
  reflexivity.
Qed.

(** X18: [configure_pkg_config] stores the default command when it is
    given none, so once it has run, a package without a command of its own
    is parsed with the stored command whatever the environment variable
    [PKG_CONFIG] holds; on a context that never set [pkg_config.command] the
    variable decides, and [pkg-config] is used when it is not set. *)
Theorem X18_pkg_config_command (command path : Value)
  (PKG_CONFIG : option string) (st : State) (l : list Context) (top : Context)
  (Hst : stack st = l ++ [top]) (Hwf : wf top) (Hmut : _immutable top = false) :
  outcome ((configure_pkg_config command path ≫=
            fun _ => parse_settings VNone VNone PKG_CONFIG) st)
  = Ok (if truthy command then command else VStr DEFAULT_PKG_CONFIG_COMMAND,
        path)
  ∧ (nearest top "pkg_config" "command" = None ->
     outcome (parse_settings VNone VNone PKG_CONFIG st)
     = Ok (VStr (default DEFAULT_PKG_CONFIG_COMMAND PKG_CONFIG),
           default VNone (nearest top "pkg_config" "path"))).
Proof.
  split.
  - destruct (configure_pkg_config_spec command path st l top Hst Hwf Hmut)
      as (t1 & E1 & W1 & C1 & P1).
    rewrite (bind_Ok _ _ _ _ _ E1).
    destruct (parse_settings_spec PKG_CONFIG
                (set_stack (fun _ => l ++ [t1]) st) l t1 eq_refl W1)
      as (t1' & -> & _).
    cbn [outcome]. by rewrite C1, P1.
  - intros Hnone.
    destruct (parse_settings_spec PKG_CONFIG st l top Hst Hwf)
      as (top' & -> & _).
    cbn [outcome]. by rewrite Hnone.
Qed.

(** Configuring the root of the example, with [PKG_CONFIG] set. *)
Lemma X18_pkg_config_command_witness :
  outcome ((configure_pkg_config VNone VNone ≫=
            fun _ => parse_settings VNone VNone (Some "/opt/bin/pkgconf"))
             (set_stack (fun _ => [Examples.root])
                (Examples.start Examples.objects)))
  = Ok (VStr "pkg-config", VNone).
Proof.
  assert (Hwf : wf Examples.root) by (apply wfb_wf; vm_compute; reflexivity).
  exact (proj1 (X18_pkg_config_command VNone VNone (Some "/opt/bin/pkgconf")
           (set_stack (fun _ => [Examples.root])
              (Examples.start Examples.objects))
           [] Examples.root eq_refl Hwf eq_refl)).
Defined.

End PkgConfigSettings.

Section NonStrictExtras.

Lemma line_loop_words fuel columns ind lead (broken : bool) line chunks :
  Writer.line_loop fuel columns false ind lead broken line = Some chunks ->
  ∃ (items : list (string * string)) (ind_last last : string),
    chunks = ((fun it => it.1 +:+ it.2 +:+ " $" +:+ Str.nl) <$> items)
             ++ [ind_last +:+ last +:+ Str.nl]
    ∧ foldr (fun p r => p +:+ " " +:+ r) last items.*2 = line.
Proof.
  revert ind lead broken line chunks.
  induction fuel as [|f IH]; intros ind lead broken line chunks H.
  all: assert (Hlast : ∀ chunks, Some [ind +:+ line +:+ Str.nl] = Some chunks ->
         ∃ (items : list (string * string)) (ind_last last : string),
           chunks = ((fun it => it.1 +:+ it.2 +:+ " $" +:+ Str.nl) <$> items)
                    ++ [ind_last +:+ last +:+ Str.nl]
           ∧ foldr (fun p r => p +:+ " " +:+ r) last items.*2 = line)
         by (intros ? [= <-]; by exists [], ind, line).
  all: cbn [Writer.line_loop] in H.
  all: destruct (lead + Str.len line >? columns)%Z eqn:Hc; [|by apply Hlast].
  { done. }
  destruct (Writer.first_try _ line _) as [r1|] eqn:E1; [|done].
  cbn [mbind option_bind] in H.
  destruct (if (r1 <? 0)%Z && negb false
            then Writer.second_try (S (String.length line)) line
                   (columns - lead - 2 - 1)
            else Some r1) as [r|] eqn:E2; [|done].
  cbn [mbind option_bind] in H.
  assert (Hr : r = (-1)%Z
               ∨ ((0 <= r)%Z ∧ String.get (Z.to_nat r) line = Some " "%char)).
  { destruct ((r1 <? 0)%Z && negb false).
    - by eapply second_try_space.
    - injection E2 as <-. apply first_try_space in E1.
      destruct E1 as [->|(? & ? & _)]; [by left|by right]. }
  destruct (negb (r =? -1)%Z) eqn:Er; [|by apply Hlast].
  destruct Hr as [->|[Hr0 Hg]]; [done|].
  assert (∃ i l rest,
            Writer.line_loop f columns false i l true (Str.from line (r + 1))
            = Some rest
            ∧ chunks = (ind +:+ Str.upto line r +:+ " $" +:+ Str.nl) :: rest)
    as (i & l & rest & Erest & ->).
  { destruct broken; cbv beta iota zeta in H.
    - destruct (Writer.line_loop f columns false ind lead true _)
        as [rest|] eqn:Erest; [|done].
      injection H as <-. by eexists _, _, _.
    - destruct (Writer.line_loop f columns false _ _ true _)
        as [rest|] eqn:Erest; [|done].
      injection H as <-. by eexists _, _, _. }
  apply IH in Erest.
  destruct Erest as (items & il & last & -> & Hfold).
  exists ((ind, Str.upto line r) :: items), il, last.
  split; [done|].
  cbn [fmap list_fmap foldr snd]. rewrite Hfold.
  rewrite <- str_app_assoc. by apply break_at_space.
Qed.

(** X19: when it is not strict, [_Writer.line] always returns and breaks a
    line only at spaces: the pieces it writes, joined by one space each, are
    the line, every string but the last ends in a space, ['$'] and a
    newline, and a line without a space is written as one string however
    long it is. *)
Theorem X19_non_strict_breaks_at_spaces (columns : option Z) (line : string)
  (indent : nat) :
  ∃ chunks (items : list (string * string)) (ind_last last : string),
    Writer.line columns false line indent = Some chunks
    ∧ chunks = ((fun it => it.1 +:+ it.2 +:+ " $" +:+ Str.nl) <$> items)
               ++ [ind_last +:+ last +:+ Str.nl]
    ∧ foldr (fun p r => p +:+ " " +:+ r) last items.*2 = line
    ∧ (Contexts.contains " " line = false -> items = []).
Proof.
  assert (∃ chunks (items : list (string * string)) (ind_last last : string),
            Writer.line columns false line indent = Some chunks
            ∧ chunks = ((fun it => it.1 +:+ it.2 +:+ " $" +:+ Str.nl) <$> items)
                       ++ [ind_last +:+ last +:+ Str.nl]
            ∧ foldr (fun p r => p +:+ " " +:+ r) last items.*2 = line)
    as (chunks & items & il & last & H1 & H2 & H3).
  { unfold Writer.line. destruct columns as [c|].
    - destruct (line_loop_total (S (String.length line)) c false
                  (Str.times Writer._INDENT indent)
                  (Str.len (Str.times Writer._INDENT indent)) false line)
        as [chunks Hchunks]; [lia|unfold Str.len; lia|done|].
      destruct (line_loop_words _ _ _ _ _ _ _ Hchunks)
        as (items & il & last & H2 & H3).
      by exists chunks, items, il, last.
    - by exists [Str.times Writer._INDENT indent +:+ line +:+ Str.nl], [],
        (Str.times Writer._INDENT indent), line. }
  exists chunks, items, il, last. split; [done|]. split; [done|].
  split; [done|]. intros Hsp.
  destruct items as [|[i p] items]; [done|]. exfalso.
  cbn [fmap list_fmap foldr snd] in H3. rewrite <- H3 in Hsp.
  rewrite contains_app, contains_app in Hsp.
  cbn [Contexts.contains] in Hsp.
  rewrite Ascii.eqb_refl in Hsp. cbn in Hsp.
  by rewrite orb_true_r in Hsp.
Qed.

End NonStrictExtras.

Section NamesExtras.
Import Contexts Projects Ninja Escapes.

(** X20: when [_get_inputs_from_names] returns, every entry of
    [inputs_from] stands for a phase of the project other than the phase
    itself, [_write_rule] was called for each and returned, and the names
    returned are the names of the entries, in their order. *)
Theorem X20_inputs_from_names (P : Project)
  (write_rule : string -> PhaseId -> M unit) (phase : PhaseId)
  (values : list InputsFrom) (names r : list string) (st st' : State)
  (Hret : _get_inputs_from_names P write_rule phase values names st
          = Ok (r, st')) :
  ∃ resolved : list (string * PhaseId),
    Forall2 (fun v nq => resolve P v = Ok nq ∧ nq.2 ≠ phase
                         ∧ (nq.1, nq.2) ∈ phases P) values resolved
    ∧ r = names ++ resolved.*1
    ∧ List.length r = (List.length names + List.length values)%nat.
Proof.
  revert names st Hret.
  induction values as [|v values IH]; intros names st Hret.
  - cbn in Hret. injection Hret as <- <-. exists [].
    split; [constructor|]. rewrite app_nil_r. split; [done|]. cbn. lia.
  - cbn [_get_inputs_from_names] in Hret.
    destruct (resolve P v) as [[n q]|e| |] eqn:Er; try done.
    destruct (decide (q = phase)) as [->|Hne]; [done|].
    apply bind_inv in Hret as ([] & st1 & _ & Hret).
    apply IH in Hret as (resolved & Hall & -> & Hlen).
    exists ((n, q) :: resolved). split.
    + constructor; [|done]. split; [done|]. split; [done|].
      by apply resolve_elem in Er.
    + split; [by rewrite <- app_assoc|].
      rewrite !List.length_app in *. cbn in *. lia.
Qed.

(** [link] of the example, with a [_write_rule] that does nothing. *)
Lemma X20_inputs_from_names_witness :
  ∃ resolved : list (string * PhaseId),
    Forall2 (fun v nq => resolve Examples.project v = Ok nq ∧ nq.2 ≠ 1%nat
                         ∧ (nq.1, nq.2) ∈ phases Examples.project)
      [FromPhase 0%nat; FromName "compile"] resolved
    ∧ ["compile"; "compile"] = [] ++ resolved.*1.
Proof.
  assert (Hret : _get_inputs_from_names Examples.project (fun _ _ => mret tt)
                   1%nat [FromPhase 0%nat; FromName "compile"] []
                   (Examples.start Examples.objects)
                 = Ok (["compile"; "compile"], Examples.start Examples.objects))
    by (vm_compute; reflexivity).
  destruct (X20_inputs_from_names Examples.project (fun _ _ => mret tt) 1%nat
              [FromPhase 0%nat; FromName "compile"] [] ["compile"; "compile"]
              (Examples.start Examples.objects)
              (Examples.start Examples.objects) Hret)
    as (resolved & H1 & H2 & _).
  by exists resolved.
Defined.

(** X21: the rule name of a phase is its name with every space replaced
    by an underscore: it has no space and the length of the name, a name
    without a space is its own rule name, and two names that differ only in
    a space against an underscore get the same rule name. *)
Theorem X21_rule_name (phase_name pre post : string) :
  Str.replace phase_name " " "_" = subst_char " " "_" phase_name
  ∧ contains " " (Str.replace phase_name " " "_") = false
  ∧ String.length (Str.replace phase_name " " "_") = String.length phase_name
  ∧ (contains " " phase_name = false ->
     Str.replace phase_name " " "_" = phase_name)
  ∧ Str.replace (pre +:+ " " +:+ post) " " "_"
    = Str.replace (pre +:+ "_" +:+ post) " " "_".
Proof.
  rewrite !replace_char. split; [done|].
  assert (Happ : ∀ a b, subst_char " " "_" (a +:+ b)
                        = subst_char " " "_" a +:+ subst_char " " "_" b).
  { intros a b. induction a as [|x a IH]; [done|].
    rewrite str_app_cons. cbn [subst_char].
    destruct (Ascii.eqb x " "); by rewrite IH, ?str_app_cons, ?str_app_nil. }
  split; [|split; [|split]].
  - induction phase_name as [|a s IH]; [done|]. cbn [subst_char].
    destruct (Ascii.eqb_spec a " ") as [->|Hne].
    + rewrite str_app_cons, str_app_nil. cbn [contains]. by rewrite IH.
    + cbn [contains]. rewrite IH.
      by destruct (Ascii.eqb_spec a " ").
  - induction phase_name as [|a s IH]; [done|]. cbn [subst_char].
    destruct (Ascii.eqb a " "); rewrite ?str_app_cons, ?str_app_nil; cbn;
      by rewrite IH.
  - induction phase_name as [|a s IH]; [done|]. cbn [contains subst_char].
    destruct (Ascii.eqb a " "); [done|]. intros H. f_equal. by apply IH.
  - rewrite !Happ. done.
Qed.

End NamesExtras.

(** * The output of the generator *)

Section TraceFacts.
Import Contexts Projects Ninja.

Variable join_path : string -> option string -> string.
Variable change_extension : string -> option string -> string.
Variable P : Project.
Variable columns : option Z.
Variable strict : bool.

#[local] Abbreviation emits := (emits columns strict).
#[local] Abbreviation w_line := (w_line columns strict).

Lemma render_app calls1 calls2 chunks1 chunks2 :
  render columns strict calls1 = Some chunks1 ->
  render columns strict calls2 = Some chunks2 ->
  render columns strict (calls1 ++ calls2) = Some (chunks1 ++ chunks2).
Proof.
  revert chunks1. induction calls1 as [|c calls1 IH]; intros chunks1 H1 H2.
  - cbn in H1. injection H1 as <-. done.
  - cbn [render app] in *.
    destruct (Writer.line columns strict c.1 c.2) as [ch|]; [|done].
    cbn in *. destruct (render columns strict calls1) as [r|]; [|done].
    cbn in *. injection H1 as <-.
    rewrite (IH r eq_refl H2). cbn. by rewrite app_assoc.
Qed.

Lemma emits_ret {A} (a : A) : emits (mret a).
Proof.
  intros st a' st' [= <- <-]. exists [], [], [].
  by rewrite !app_nil_r.
Qed.

Lemma emits_bind {A B} (m : M A) (k : A -> M B) :
  emits m -> (∀ a, emits (k a)) -> emits (m ≫= k).
Proof.
  intros Hm Hk st b st' H. unfold mbind, M_bind in H.
  destruct (m st) as [[a st1]|e| |] eqn:E; try done.
  destruct (Hm _ _ _ E) as (c1 & ch1 & w1 & R1 & I1 & W1 & F1).
  destruct (Hk a _ _ _ H) as (c2 & ch2 & w2 & R2 & I2 & W2 & F2).
  exists (c1 ++ c2), (ch1 ++ ch2), (w1 ++ w2).
  split; [by apply render_app|].
  split; [by rewrite I2, I1, app_assoc|].
  split; [by rewrite W2, W1, app_assoc|].
  by rewrite filter_app, fmap_app, F1, F2.
Qed.

Lemma emits_silent {A} (m : M A) :
  (∀ st a st', m st = Ok (a, st') -> io st' = io st ∧ written st' = written st) ->
  emits m.
Proof.
  intros H st a st' E. destruct (H _ _ _ E) as [Hi Hw].
  exists [], [], []. by rewrite !app_nil_r.
Qed.

Lemma emits_gets {A} (f : State -> A) : emits (gets f).
Proof. apply emits_silent. by intros st a st' [= <- <-]. Qed.

Lemma emits_raise {A} e : emits (raise e : M A).
Proof. by intros st a st' H. Qed.

Lemma emits_beyond {A} : emits (beyond : M A).
Proof. by intros st a st' H. Qed.

Lemma emits_modify (f : State -> State) :
  (∀ st, io (f st) = io st ∧ written (f st) = written st) -> emits (modify f).
Proof. intros H. apply emits_silent. intros st a st' [= <- <-]. apply H. Qed.

Lemma emits_on_ctx {A} (f : Context -> res A * Context) : emits (on_ctx f).
Proof.
  apply emits_silent. intros st a st' H. unfold on_ctx in H.
  destruct (last (stack st)) as [c|]; [|done].
  destruct (f c) as [[a'|e| |] c']; cbn in H; try done.
  by injection H as <- <-.
Qed.

Lemma emits_with {A} b (body : M A) :
  emits body -> emits (with_current_context b body).
Proof.
  intros Hb st a st' H. unfold with_current_context in H.
  destruct (last (stack st)) as [top|]; [|done].
  unfold mbind at 1 in H.
  match type of H with
  | context [body ?s] => destruct (body s) as [[a1 st1]|e| |] eqn:E
  end; cbn in H; try done.
  destruct (last (stack st1)) as [c'|]; [|done].
  injection H as <- <-.
  destruct (Hb _ _ _ E) as (c & ch & w & R & I & W & F).
  exists c, ch, w. done.
Qed.

Lemma emits_w_line line indent :
  ¬ is_rule_line (line, indent) -> emits (w_line line indent).
Proof.
  intros Hn st a st' H. unfold Ninja.w_line in H.
  destruct (Writer.line columns strict line indent) as [chunks|] eqn:E; [|done].
  injection H as <- <-.
  exists [(line, indent)], chunks, [].
  split; [cbn; rewrite E; cbn; by rewrite app_nil_r|].
  split; [done|]. split; [by rewrite app_nil_r|].
  by rewrite filter_cons_False.
Qed.

Lemma is_rule_line_rule name : is_rule_line (rule_line name).
Proof.
  unfold is_rule_line, rule_line. cbn [fst].
  by destruct (Str.replace name " " "_").
Qed.

(** The rule line, with the entry of the trace. *)
Lemma emits_rule {A} name (rest : M A) :
  emits rest ->
  emits (modify (set_written (fun l => l ++ [name]));;
         w_line ("rule " +:+ Str.replace name " " "_") 0;; rest).
Proof.
  intros Hr st a st' H. unfold mbind at 1, M_bind at 1, modify in H.
  unfold mbind at 1, M_bind at 1, Ninja.w_line in H.
  destruct (Writer.line columns strict _ 0) as [chunks|] eqn:E; [|done].
  destruct (Hr _ _ _ H) as (c & ch & w & R & I & W & F).
  exists (rule_line name :: c), (chunks ++ ch), (name :: w).
  split; [cbn [render rule_line fst snd]; rewrite E; cbn; by rewrite R|].
  split; [rewrite I; cbn [io set_io set_written]; by rewrite app_assoc|].
  split; [rewrite W; cbn [written set_io set_written]; by rewrite <- app_assoc|].
  rewrite filter_cons_True by apply is_rule_line_rule. cbn. by rewrite F.
Qed.

Ltac not_rule :=
  unfold is_rule_line; cbn [fst]; apply not_true_iff_false; reflexivity.

Ltac emits_step :=
  lazymatch goal with
  | |- Ninja.emits _ _ (mret _) => apply emits_ret
  | |- Ninja.emits _ _ (gets _) => apply emits_gets
  | |- Ninja.emits _ _ (raise _) => apply emits_raise
  | |- Ninja.emits _ _ beyond => apply emits_beyond
  | |- Ninja.emits _ _ (on_ctx _) => apply emits_on_ctx
  | |- Ninja.emits _ _ (with_current_context _ _) => apply emits_with
  | |- Ninja.emits _ _ (modify (set_written _) ≫= _) => apply emits_rule
  | |- Ninja.emits _ _ (_ ≫= _) => apply emits_bind; [|intros ?]
  | |- Ninja.emits _ _ (modify _) =>
      apply emits_modify; intros ?; split; reflexivity
  | |- Ninja.emits _ _ (Ninja.w_line _ _ _ _) => apply emits_w_line; not_rule
  | |- Ninja.emits _ _ (match ?x with _ => _ end) => destruct x
  end.

Lemma emits_as_str v : emits (as_str v).
Proof. unfold as_str. repeat emits_step. Qed.

Lemma emits_bound {A} (o : option A) : emits (bound o).
Proof. unfold bound. repeat emits_step. Qed.

Lemma emits_base_path : emits (base_path join_path P).
Proof. unfold base_path. repeat emits_step. Qed.

Lemma emits_paths ph : emits (paths join_path P ph).
Proof.
  unfold paths.
  repeat first [apply emits_base_path | apply emits_as_str | emits_step].
Qed.

Lemma emits_extend_inputs phase names : emits (extend_inputs phase names).
Proof.
  induction names as [|n names IH]; cbn [extend_inputs];
    repeat first [apply IH | emits_step].
Qed.

Lemma emits_resolve_inputs phase names : emits (resolve_inputs phase names).
Proof.
  unfold resolve_inputs.
  repeat first [apply emits_extend_inputs | emits_step].
Qed.

Lemma emits_append_output name phase hr o : emits (append_output name phase hr o).
Proof. unfold append_output. repeat emits_step. Qed.

Lemma emits_fan_out_loop name phase hr rn ib ob oe ins :
  emits (fan_out_loop join_path change_extension columns strict
           name phase hr rn ib ob oe ins).
Proof.
  induction ins as [|i ins IH]; cbn [fan_out_loop];
    repeat first [apply IH | apply emits_bound | apply emits_append_output
                 | emits_step].
Qed.

Lemma emits_write_rule_body name phase names :
  emits (write_rule_body join_path change_extension P columns strict
           name phase names).
Proof.
  unfold write_rule_body.
  repeat first [apply emits_paths | apply emits_bound
               | apply emits_resolve_inputs | apply emits_append_output
               | apply emits_fan_out_loop | emits_step].
Qed.

Lemma emits_fuel {A} : emits ((fun _ => Fuel) : M A).
Proof. by intros st a st' H. Qed.

Lemma emits_get_inputs_from_names write_rule phase values names :
  (∀ n q, emits (write_rule n q)) ->
  emits (_get_inputs_from_names P write_rule phase values names).
Proof.
  intros Hw. revert names.
  induction values as [|v values IH]; intros names;
    cbn [_get_inputs_from_names];
    repeat first [apply IH | apply Hw | emits_step].
Qed.

Lemma emits_write_rule fuel name phase :
  emits (_write_rule join_path change_extension P columns strict
           fuel name phase).
Proof.
  revert name phase. induction fuel as [|f IH]; intros name phase;
    cbn [_write_rule]; [apply emits_fuel|].
  repeat first [apply emits_get_inputs_from_names; apply IH
               | apply emits_write_rule_body | emits_step].
Qed.

Lemma emits_write_phases fuel l :
  emits (write_phases join_path change_extension P columns strict fuel l).
Proof.
  induction l as [|[name p] l IH]; cbn [write_phases];
    repeat first [apply IH | apply emits_write_rule | emits_step].
Qed.

End TraceFacts.

Section GenerationExtras.
Import Contexts Projects Ninja.

Variable join_path : string -> option string -> string.
Variable change_extension : string -> option string -> string.
Variable wrap : string -> Z -> bool -> list string.
Variable utcnow : string.
Variable P : Project.

(** [w.comment] writes lines that start with ["# "]. *)
Lemma w_comment_io cols strict line st st' :
  w_comment wrap cols strict line st = Ok (tt, st') ->
  ∃ h, io st' = io st ++ h
       ∧ Forall (fun c => String.prefix "# " c = true) h.
Proof.
  unfold w_comment. destruct cols as [c|].
  - destruct (c - 2 <=? 0)%Z; [done|]. intros [= <-].
    eexists. split; [reflexivity|].
    apply Forall_fmap, Forall_forall. intros x _. apply prefix_app.
  - intros [= <-]. eexists. split; [reflexivity|].
    constructor; [apply prefix_app|constructor].
Qed.

Lemma rule_line_NoDup (order names : list string) :
  order ≡ₚ names ->
  NoDup ((fun n => Str.replace n " " "_") <$> names) ->
  NoDup (rule_line <$> order).
Proof.
  intros Hp Hn.
  change rule_line
    with ((fun s => ("rule " +:+ s, 0%nat)) ∘ (fun n => Str.replace n " " "_")).
  rewrite list_fmap_compose. apply NoDup_fmap_2.
  - intros s s' [= H]. exact H.
  - by rewrite Hp.
Qed.

(** X22: for a project with distinct phase names, no cycle and valid
    references, generated in a configured context, [write] returns and what
    it appended to [io] is the comment lines of the header followed by the
    rendering of calls of [w.line] by the writer built from the settings of
    the context.  The calls that open a rule block are, in order, the lines
    [rule] followed by the rule name (the phase name with every space
    replaced by an underscore) of the phases in some order: that order is a
    permutation of the phase names of the project, and in it a phase comes
    after every phase it lists as an input source.  When the rule names of
    the phases are distinct, no rule line is written twice.  The memo holds
    an entry for exactly the phase names, no phase has its [inputs_from] or
    its executor changed, and the context on top of the stack holds the
    values it held before. *)
Theorem X22_rules_are_the_phases (command columns strict : Value)
  (file_name : option string) (st : State) (l : list Context) (top : Context)
  (Hst : stack st = l ++ [top]) (Hconf : configured top)
  (Hnodup : NoDup (phases P).*1)
  (Hexec : executors_ok (heap st))
  (Hacyc : acyclic P (heap st)) (Hvalid : valid_refs P (heap st)) :
  ∃ fuel0, ∀ fuel, (fuel0 <= fuel)%nat ->
    ∃ st' header calls chunks order,
      write join_path change_extension wrap utcnow P
        (NinjaFile_init P command file_name columns strict) fuel st
      = Ok (tt, st')
      ∧ io st' = io st ++ header ++ chunks
      ∧ Forall (fun c => String.prefix "# " c = true) header
      ∧ render (columns_of (settings_from top).1)
          (truthy (settings_from top).2) calls = Some chunks
      ∧ filter is_rule_line calls = rule_line <$> order
      ∧ order ≡ₚ (phases P).*1
      ∧ (∀ A B pB v q, (B, pB) ∈ phases P -> v ∈ inputs_from (heap st pB) ->
           resolve P v = Ok (A, q) -> before A B order)
      ∧ (NoDup ((fun n => Str.replace n " " "_") <$> (phases P).*1) ->
         NoDup (filter is_rule_line calls))
      ∧ (∀ n, is_Some (all_phase_outputs st' !! n) ↔ n ∈ (phases P).*1)
      ∧ (∀ q, inputs_from (heap st' q) = inputs_from (heap st q)
              ∧ executor (heap st' q) = executor (heap st q))
      ∧ (∃ l' top', stack st' = l' ++ [top'] ∧ wf top' ∧ agree top top').
Proof.
  destruct Hacyc as [rank Hrank].
  destruct (rank_bound rank (phases P)) as [m Hm].
  exists m. intros fuel Hfuel.
  pose proof Hconf as (Hwf & _ & _ & _ & _ & Hcol).
  destruct (write_settings_spec (NinjaFile_init P command file_name columns strict)
              st l top Hst Hwf eq_refl eq_refl) as (top' & E & Hwf' & Hag).
  unfold write. rewrite (bind_Ok _ _ _ _ _ E).
  set (st1 := set_stack (fun _ => l ++ [top']) st).
  assert (C1 : cfg top st1) by (by exists l, top').
  pose proof (settings_writer_ok top) as Hwr.
  destruct (settings_from top) as [cv sv] eqn:Eset. cbn [fst snd] in *.
  assert (∃ cols, (match cols with Some c => (2 < c)%Z | None => True end)
                  ∧ writer_ok cols (truthy sv)
                  ∧ cols = columns_of cv
                  ∧ match cv with
                    | VNone =>
                        write_body join_path change_extension wrap utcnow P None
                          (truthy sv) fuel sv
                    | VInt z =>
                        write_body join_path change_extension wrap utcnow P
                          (Some z) (truthy sv) fuel sv
                    | VBool b =>
                        write_body join_path change_extension wrap utcnow P
                          (Some (if b then 1%Z else 0%Z)) (truthy sv) fuel sv
                    | _ => raise TypeError
                    end
                    = write_body join_path change_extension wrap utcnow P cols
                        (truthy sv) fuel sv) as (cols & Hcols & Hwok & Hcv & ->).
  { destruct cv as [|b|z| | |]; try done.
    - exists None. split; [done|]. split; [|done]. by intros ? ? [=].
    - exists (Some z). split; [done|]. split; [|done]. by apply Hwr. }
  rewrite <- Hcv. clear Hcv.
  unfold write_body.
  destruct (w_comment_kept wrap top cols (truthy sv)
              ("Ninja file for " +:+ Project_str P)
              st1 C1 Hcols) as (st2 & E2 & (C2 & H2 & A2 & W2) & _).
  rewrite (bind_Ok _ _ _ _ _ E2).
  destruct (w_comment_io _ _ _ _ _ E2) as (h2 & I2 & F2).
  destruct (w_comment_kept wrap top cols (truthy sv)
              ("Generated by Ronin on " +:+ utcnow)
              st2 C2 Hcols) as (st3 & E3 & (C3 & H3 & A3 & W3) & _).
  rewrite (bind_Ok _ _ _ _ _ E3).
  destruct (w_comment_io _ _ _ _ _ E3) as (h3 & I3 & F3).
  assert (∃ st4 h4, (match cols with
                  | Some n =>
                      w_comment wrap cols (truthy sv)
                        ("Columns: " +:+ pretty n +:+ " (" +:+
                         (if truthy sv then "strict" else "non-strict") +:+ ")")
                  | None => mret tt
                  end) st3 = Ok (tt, st4)
                 ∧ cfg top st4 ∧ heap st4 = heap st3 ∧ written st4 = written st3
                 ∧ io st4 = io st3 ++ h4
                 ∧ Forall (fun c => String.prefix "# " c = true) h4)
    as (st4 & h4 & E4 & C4 & H4 & W4 & I4 & F4).
  { destruct cols as [n|].
    - match goal with
      | |- context [w_comment wrap _ _ ?ln] =>
          destruct (w_comment_kept wrap top (Some n) (truthy sv) ln st3 C3 Hcols)
            as (st4 & E4 & (C4 & H4 & A4 & W4) & _)
      end.
      destruct (w_comment_io _ _ _ _ _ E4) as (h4 & I4 & F4).
      by exists st4, h4.
    - exists st3, []. by rewrite app_nil_r. }
  rewrite (bind_Ok _ _ _ _ _ E4), modify_bind.
  set (st5 := set_written _ (set_outputs _ st4)).
  assert (Hh5 : heap st5 = heap st).
  { unfold st5. cbn [heap set_outputs set_written]. rewrite H4, H3, H2.
    reflexivity. }
  assert (Hw5 : written st5 = []) by reflexivity.
  assert (Hi5 : io st5 = io st ++ (h2 ++ h3 ++ h4)).
  { unfold st5. cbn [io set_outputs set_written].
    rewrite I4, I3, I2. unfold st1. cbn [io set_stack].
    by rewrite <- !app_assoc. }
  assert (Hinv : walk_inv P top (heap st) st5).
  { split; [exact C4|]. split; [by intros q; rewrite Hh5|].
    rewrite Hw5. split; [constructor|]. split.
    { intros n. unfold st5. cbn [all_phase_outputs set_outputs set_written].
      rewrite lookup_empty. split.
      - intros H. by apply elem_of_nil in H.
      - intros [? [=]]. }
    split; [intros n H|intros B pB v H]; by apply elem_of_nil in H. }
  pose proof (write_phases_walk join_path change_extension P cols (truthy sv)
                top (heap st) rank Hconf Hwok Hnodup Hexec Hrank fuel (phases P)
                st5 Hinv
                (fun n p H => conj H (Nat.lt_le_trans _ _ _ (Hm n p H) Hfuel)))
    as Hwalk.
  pose proof (emits_write_phases join_path change_extension P cols (truthy sv)
                fuel (phases P) st5) as Hem.
  destruct (write_phases _ _ _ _ _ fuel (phases P) st5) as [[[] st6]|e| |];
    [|by destruct Hwalk as [_ Hn]|done..].
  destruct Hwalk as ((Hc6 & Hfr & Hnd & Hmemo & Hproj & Hord) & Hall & _).
  destruct (Hem tt st6 eq_refl) as (calls & chunks & w & Hren & Hio & Hw & Hfil).
  rewrite Hw5, app_nil_l in Hw. subst w.
  assert (Hiff : ∀ n, n ∈ written st6 ↔ n ∈ (phases P).*1).
  { intros n. split.
    - intros Hn. destruct (Hproj n Hn) as [p Hp].
      apply phases_get_elem in Hp. apply list_elem_of_fmap. by exists (n, p).
    - intros ([n' p] & -> & Hp)%list_elem_of_fmap. by eapply Hall. }
  assert (Hperm : written st6 ≡ₚ (phases P).*1) by (by apply NoDup_Permutation).
  exists st6, (h2 ++ h3 ++ h4), calls, chunks, (written st6).
  split; [done|].
  split; [by rewrite Hio, Hi5, <- !app_assoc|].
  split; [by rewrite !Forall_app|].
  split; [done|]. split; [done|]. split; [done|].
  split.
  { intros A B pB v q HB Hv Hr.
    destruct (Hord B pB v (Hall _ _ HB) (elem_phases_get _ _ _ Hnodup HB) Hv)
      as (A' & q' & Hr' & _ & Hbef).
    rewrite Hr in Hr'. by injection Hr' as <- <-. }
  split; [intros Hrn; rewrite Hfil; by apply (rule_line_NoDup _ _ Hperm)|].
  split; [intros n; by rewrite <- Hmemo, Hiff|].
  split; [exact Hfr|].
  destruct Hc6 as (l6 & top6 & S6 & W6 & A6). by exists l6, top6.
Qed.

End GenerationExtras.

Section GenerationExample.
Import Contexts Projects Ninja.

(** The two phases of the example. *)
Lemma X22_rules_are_the_phases_witness :
  ∃ fuel0, ∀ fuel, (fuel0 <= fuel)%nat ->
    ∃ st' header calls chunks order,
      write Examples.join_path Examples.change_extension Examples.wrap
        Examples.utcnow Examples.project
        (NinjaFile_init Examples.project VNone None VNone VNone) fuel
        (Examples.start Examples.objects) = Ok (tt, st')
      ∧ io st' = io (Examples.start Examples.objects) ++ header ++ chunks
      ∧ filter is_rule_line calls = rule_line <$> order
      ∧ order ≡ₚ ["link"; "compile"]
      ∧ before "compile" "link" order.
Proof.
  assert (Hconf : configured Examples.child).
  { split; [apply wfb_wf; vm_compute; reflexivity|].
    split; [eexists; vm_compute; reflexivity|].
    split; [eexists; vm_compute; reflexivity|].
    split; [eexists; vm_compute; reflexivity|].
    split; [left; vm_compute; reflexivity|].
    vm_compute. reflexivity. }
  assert (Hnodup : NoDup (phases Examples.project).*1) by by_compute.
  assert (Hexec : executors_ok (heap (Examples.start Examples.objects))).
  { intros [|[|q]]; [left|right|left]; reflexivity. }
  assert (Hacyc : acyclic Examples.project
                    (heap (Examples.start Examples.objects))).
  { exists Examples.rank. intros name p v n q Hp Hv Hr Hne.
    apply elem_of_cons in Hp as [[= -> ->]|Hp].
    - apply list_elem_of_singleton in Hv as ->.
      vm_compute in Hr. injection Hr as <- <-. vm_compute. lia.
    - apply list_elem_of_singleton in Hp as [= -> ->].
      by apply elem_of_nil in Hv. }
  assert (Hvalid : valid_refs Examples.project
                     (heap (Examples.start Examples.objects))).
  { intros name p v Hp Hv.
    apply elem_of_cons in Hp as [[= -> ->]|Hp].
    - apply list_elem_of_singleton in Hv as ->.
      exists "compile", 0%nat. split; [vm_compute; reflexivity|lia].
    - apply list_elem_of_singleton in Hp as [= -> ->].
      by apply elem_of_nil in Hv. }
  destruct (X22_rules_are_the_phases Examples.join_path
              Examples.change_extension Examples.wrap Examples.utcnow
              Examples.project VNone VNone VNone None
              (Examples.start Examples.objects) [] Examples.child
              eq_refl Hconf Hnodup Hexec Hacyc Hvalid) as [fuel0 H].
  exists fuel0. intros fuel Hfuel.
  destruct (H fuel Hfuel)
    as (st' & header & calls & chunks & order & E & Hio & _ & _ & Hfil & Hperm
        & Hbef & _).
  exists st', header, calls, chunks, order.
  split; [exact E|]. split; [exact Hio|]. split; [exact Hfil|].
  split; [exact Hperm|].
  apply (Hbef "compile" "link" 1%nat (FromPhase 0%nat) 0%nat);
    [apply list_elem_of_here|apply list_elem_of_here|reflexivity].
Defined.

End GenerationExample.

(** * Serialization and reads *)

Section DottedKeys.
Import Contexts Names.

(** A dotted key splits in one way at the first dot. *)
Lemma dotted_inj n k n' k' :
  contains "." n = false -> contains "." n' = false ->
  n +:+ "." +:+ k = n' +:+ "." +:+ k' -> n = n' ∧ k = k'.
Proof.
  revert n'. induction n as [|a n IH]; intros [|a' n'] Hn Hn' H.
  - rewrite !str_app_nil in H. change ("." +:+ k) with (String "." k) in H.
    change ("." +:+ k') with (String "." k') in H. by injection H as ->.
  - rewrite str_app_nil, str_app_cons in H.
    change ("." +:+ k) with (String "." k) in H. injection H as <- _.
    cbn in Hn'. done.
  - rewrite str_app_nil, str_app_cons in H.
    change ("." +:+ k') with (String "." k') in H. injection H as -> _.
    cbn in Hn. done.
  - rewrite !str_app_cons in H. injection H as -> H.
    cbn [contains] in Hn, Hn'.
    apply orb_false_iff in Hn as [_ Hn]. apply orb_false_iff in Hn' as [_ Hn'].
    destruct (IH n' Hn Hn' H) as [-> ->]. done.
Qed.

Lemma od_get_elem (m : list (string * Value)) k v :
  od_get m k = Some v -> (k, v) ∈ m.
Proof.
  induction m as [|[k' v'] m IH]; cbn [od_get]; [done|].
  destruct (decide (k' = k)) as [->|].
  - intros [= ->]. apply list_elem_of_here.
  - intros H. apply list_elem_of_further. by apply IH.
Qed.

Lemma od_get_None (m : list (string * Value)) k :
  od_get m k = None ↔ k ∉ m.*1.
Proof.
  induction m as [|[k' v'] m IH]; cbn [od_get fmap list_fmap fst].
  - split; [intros _; apply not_elem_of_nil|done].
  - rewrite not_elem_of_cons. destruct (decide (k' = k)) as [->|Hne].
    + split; [done|]. by intros [? _].
    + rewrite IH. split; [intros H; split; [by intros ->|done]|by intros [_ ?]].
Qed.

(** The items a context adds by itself. *)
Lemma local_items_elem c key v :
  (key, v) ∈ local_items c ↔
  ∃ n ns k, _namespaces c !! n = Some ns ∧ ns !! k = Some v
            ∧ String.prefix "_" k = false ∧ (k ∉ Namespace_LOCAL)
            ∧ key = n +:+ "." +:+ k.
Proof.
  unfold local_items. rewrite list_elem_of_bind. split.
  - intros ([n ns] & Hkv & Hn). cbn [fst snd] in Hkv.
    rewrite sorted_perm in Hn. apply elem_of_map_to_list in Hn.
    apply list_elem_of_fmap in Hkv as ([k v'] & [= -> ->] & Hk).
    rewrite sorted_perm in Hk. apply all_local_elem in Hk as (Hk & HL & Hp).
    by exists n, ns, k.
  - intros (n & ns & k & Hn & Hk & Hp & HL & ->).
    exists (n, ns). split.
    + cbn [fst snd]. apply list_elem_of_fmap. exists (k, v). split; [done|].
      rewrite sorted_perm. by apply all_local_elem.
    + rewrite sorted_perm. by apply elem_of_map_to_list.
Qed.

Lemma public_not_slot k : String.prefix "_" k = false -> k ∉ Namespace_LOCAL.
Proof.
  intros Hp Hk. unfold Namespace_LOCAL in Hk.
  apply elem_of_cons in Hk as [->|Hk]; [done|].
  apply list_elem_of_singleton in Hk as ->. done.
Qed.

(** What the items a context adds hold under a dotted key. *)
Lemma local_items_get c n k :
  map_Forall (fun n (_ : Namespace) => contains "." n = false) (_namespaces c) ->
  contains "." n = false ->
  od_get (reverse (local_items c)) (n +:+ "." +:+ k)
  = if String.prefix "_" k then None else local c n k.
Proof.
  intros Hplain Hn.
  assert (Hin : ∀ v, (n +:+ "." +:+ k, v) ∈ reverse (local_items c) ->
                 ∃ ns, _namespaces c !! n = Some ns ∧ ns !! k = Some v
                       ∧ String.prefix "_" k = false).
  { intros v Hv. rewrite elem_of_reverse in Hv.
    apply local_items_elem in Hv as (n' & ns & k' & Hns & Hk & Hp & _ & Heq).
    destruct (dotted_inj n k n' k' Hn (Hplain _ _ Hns) Heq) as [-> ->].
    by exists ns. }
  destruct (od_get (reverse (local_items c)) (n +:+ "." +:+ k)) as [v|] eqn:E.
  - apply od_get_elem in E. destruct (Hin v E) as (ns & Hns & Hk & ->).
    unfold local. rewrite Hns. cbn [default from_option id]. by rewrite Hk.
  - destruct (String.prefix "_" k) eqn:Hp; [done|].
    destruct (local c n k) as [v|] eqn:El; [|done]. exfalso.
    apply od_get_None in E. apply E.
    apply list_elem_of_fmap. exists (n +:+ "." +:+ k, v). split; [done|].
    rewrite elem_of_reverse. apply local_items_elem.
    unfold local in El. destruct (_namespaces c !! n) as [ns|] eqn:Hns.
    + exists n, ns, k. split; [done|]. split; [exact El|].
      split; [done|]. split; [by apply public_not_slot|done].
    + cbn [default from_option id] in El. unfold Namespace_init in El.
      apply public_not_slot in Hp. exfalso.
      rewrite lookup_insert_ne, lookup_insert_ne, lookup_empty in El; [done|..];
        intros <-; apply Hp; unfold Namespace_LOCAL; repeat constructor.
Qed.

(** X23: on a chain whose namespace names hold no dot, the item
    [Context._all] holds under the dotted key [n.k] is the value a read of
    [n.k] resolves to, the nearest one of the chain, when [k] does not start
    with an underscore, and there is no item for a key that does: what
    [str(ctx)] shows for a key is what reading the key returns. *)
Theorem X23_all_holds_nearest (c : Context) (n k : string)
  (Hplain : plain_names c) (Hn : contains "." n = false) :
  od_get (Context__all c) (n +:+ "." +:+ k)
  = (if String.prefix "_" k then None else nearest c n k)
  ∧ (wf c -> n ∉ Context_attrs -> k ∉ Namespace_class_attrs ->
     String.prefix "_" k = false ->
     ∀ v, od_get (Context__all c) (n +:+ "." +:+ k) = Some v
          ↔ (read c n k).1 = Ok v).
Proof.
  assert (Hget : od_get (Context__all c) (n +:+ "." +:+ k)
                 = (if String.prefix "_" k then None else nearest c n k)).
  { revert Hplain. induction c as [imm nss|p imm nss IH] using chain_ind;
      intros [Hhere Hup].
    - rewrite Context__all_update, od_update_get, local_items_get by done.
      cbn [parent_items _parent od_get nearest].
      destruct (String.prefix "_" k); [done|].
      by destruct (local (mkContext None imm nss) n k).
    - rewrite Context__all_update, od_update_get, local_items_get by done.
      rewrite parent_items_eq. cbn [_parent from_option nearest].
      rewrite (IH Hup).
      destruct (String.prefix "_" k); [done|].
      by destruct (local (mkContext (Some p) imm nss) n k). }
  split; [exact Hget|].
  intros Hwf Hna Hka Hp v. rewrite Hget, Hp.
  destruct (read_spec c n k Hwf Hna Hka) as [-> _].
  destruct (nearest c n k) as [w|]; split; congruence.
Qed.

(** The command of the example's child context. *)
Lemma X23_all_holds_nearest_witness :
  od_get (Context__all Examples.child) "ninja.command" = Some (VStr "samu").
Proof.
  assert (Hplain : plain_names Examples.child).
  { split; [by_compute|]. split; [by_compute|done]. }
  exact (proj1 (X23_all_holds_nearest Examples.child "ninja" "command"
                  Hplain eq_refl)).
Defined.

End DottedKeys.
